(** * TV-campaign optimization and scoring engine: shallow embedding

    The TypeScript utilities of the optimizer (status ladder, channel
    optimizer, timeband processing, district disaggregation, planner
    insights, cross-geography scores) are embedded as Rocq functions and
    the properties stated about them are proved below.

    Numbers.  A JavaScript [number] is modelled by [JS.number]: the three
    special values NaN, +Infinity, -Infinity and the finite values, the
    latter carried by exact rationals.  Comparisons, [Math.max],
    [Math.min], division by zero and the propagation of NaN follow
    ECMAScript.  The sign of zero is not modelled.  Finite results are
    exact, with one exception: the cut-off of [getProtectedChannels] is
    the ceiling of a product, which rounding can carry across a whole
    number, so that product and the quotient under it are rounded to
    binary64 ([JS.mul64], [JS.div64]).

    Strings are Stdlib strings (code units below 256), a JavaScript
    [Map] with string keys is a [gmap string _], optional fields are
    [option]s ([None] is [undefined]).

    Effects.  The modelled functions are pure and are embedded as
    functions.  [simpleHash] and [getChannelJitter] are embedded as
    programs as well ([Prog]), run in an explicit environment, so that
    their independence of that environment is a statement about them. *)

From Stdlib Require Import ZArith QArith Qpower Qround Qabs Lqa Lia Bool List String Ascii.
From Stdlib Require Import Sorted Permutation Qminmax.
From stdpp Require Import gmap strings.
Import ListNotations.

Declare Scope js_scope.
Delimit Scope js_scope with js.

(* ================================================================== *)
(** ** JavaScript numbers *)
(* ================================================================== *)

Module JS.

Local Open Scope Q_scope.

Inductive number : Type :=
  | NaN
  | PosInf
  | NegInf
  | Fin (q : Q).

Definition Qltb (a b : Q) : bool := negb (Qle_bool b a).

(** [x === y] on numbers. *)
Definition strict_eq (x y : number) : bool :=
  match x, y with
  | Fin a, Fin b => Qeq_bool a b
  | PosInf, PosInf => true
  | NegInf, NegInf => true
  | _, _ => false
  end.

(** [x < y]; every comparison with NaN is false. *)
Definition lt (x y : number) : bool :=
  match x, y with
  | NaN, _ => false
  | _, NaN => false
  | Fin a, Fin b => Qltb a b
  | _, NegInf => false
  | NegInf, _ => true
  | PosInf, _ => false
  | Fin _, PosInf => true
  end.

(** [x <= y]. *)
Definition le (x y : number) : bool :=
  match x, y with
  | NaN, _ => false
  | _, NaN => false
  | Fin a, Fin b => Qle_bool a b
  | NegInf, _ => true
  | _, PosInf => true
  | _, _ => false
  end.

Definition gt (x y : number) : bool := lt y x.
Definition ge (x y : number) : bool := le y x.

Definition neg (x : number) : number :=
  match x with
  | NaN => NaN
  | PosInf => NegInf
  | NegInf => PosInf
  | Fin a => Fin (- a)
  end.

Definition add (x y : number) : number :=
  match x, y with
  | NaN, _ => NaN
  | _, NaN => NaN
  | Fin a, Fin b => Fin (a + b)
  | PosInf, NegInf => NaN
  | NegInf, PosInf => NaN
  | PosInf, _ => PosInf
  | _, PosInf => PosInf
  | NegInf, _ => NegInf
  | _, NegInf => NegInf
  end.

Definition sub (x y : number) : number := add x (neg y).

(** The infinity carrying the sign of a comparison with zero; an
    infinity times zero is NaN. *)
Definition signed_inf (c : comparison) : number :=
  match c with
  | Lt => NegInf
  | Gt => PosInf
  | Eq => NaN
  end.

Definition mul (x y : number) : number :=
  match x, y with
  | NaN, _ => NaN
  | _, NaN => NaN
  | Fin a, Fin b => Fin (a * b)
  | PosInf, PosInf => PosInf
  | NegInf, NegInf => PosInf
  | PosInf, NegInf => NegInf
  | NegInf, PosInf => NegInf
  | PosInf, Fin a => signed_inf (a ?= 0)
  | Fin a, PosInf => signed_inf (a ?= 0)
  | NegInf, Fin a => signed_inf (CompOpp (a ?= 0))
  | Fin a, NegInf => signed_inf (CompOpp (a ?= 0))
  end.

(** Division: a finite non-zero value over zero is an infinity, zero
    over zero is NaN (the zero divisor is taken as +0). *)
Definition div (x y : number) : number :=
  match x, y with
  | NaN, _ => NaN
  | _, NaN => NaN
  | Fin a, Fin b => if Qeq_bool b 0 then signed_inf (a ?= 0) else Fin (a / b)
  | Fin _, _ => Fin 0
  | PosInf, Fin b => if Qltb b 0 then NegInf else PosInf
  | NegInf, Fin b => if Qltb b 0 then PosInf else NegInf
  | _, _ => NaN
  end.

Definition max2 (x y : number) : number :=
  match x, y with
  | NaN, _ => NaN
  | _, NaN => NaN
  | _, _ => if lt x y then y else x
  end.

Definition min2 (x y : number) : number :=
  match x, y with
  | NaN, _ => NaN
  | _, NaN => NaN
  | _, _ => if lt y x then y else x
  end.

(** [Math.max(...l)] and [Math.min(...l)]. *)
Definition Math_max (l : list number) : number := fold_left max2 l NegInf.
Definition Math_min (l : list number) : number := fold_left min2 l PosInf.

Definition Math_abs (x : number) : number :=
  match x with
  | NaN => NaN
  | PosInf => PosInf
  | NegInf => PosInf
  | Fin a => Fin (Qabs a)
  end.

Definition Math_ceil (x : number) : number :=
  match x with
  | Fin a => Fin (inject_Z (Qceiling a))
  | _ => x
  end.

(** *** Rounding to binary64 *)

(** [floor (log2 a)] for [a > 0]: the difference of the bit lengths of
    numerator and denominator, or one less. *)
Definition Qlog2 (a : Q) : Z :=
  let e := (Z.log2 (Qnum a) - Z.log2 (Zpos (Qden a)))%Z in
  if Qle_bool (2 ^ e) a then e else (e - 1)%Z.

(** The nearest integer, a tie going to the even one. *)
Definition round_half_even (u : Q) : Z :=
  let f := Qfloor u in
  match Qcompare (u - inject_Z f) (1 # 2) with
  | Lt => f
  | Gt => (f + 1)%Z
  | Eq => if Z.even f then f else (f + 1)%Z
  end.

(** The exponent of the last place of the binary64 values around
    [a > 0]: 52 places below the leading bit, and never below 2^-1074
    (the subnormal range). *)
Definition ulp_exponent (a : Q) : Z := Z.max (Qlog2 a - 52) (-1074).

(** [a > 0] rounded to a multiple of its last place. *)
Definition round_pos (a : Q) : Q :=
  inject_Z (round_half_even (a / 2 ^ ulp_exponent a)) * 2 ^ ulp_exponent a.

(** The binary64 value nearest to [q] (round to nearest, ties to even);
    a magnitude that rounds to 2^1024 or above overflows to an
    infinity. *)
Definition binary64 (q : Q) : number :=
  if Qeq_bool q 0 then Fin 0
  else
    let r := round_pos (Qabs q) in
    if Qle_bool (2 ^ 1024) r then (if Qltb q 0 then NegInf else PosInf)
    else Fin (if Qltb q 0 then - r else r).

Definition round64 (x : number) : number :=
  match x with
  | Fin q => binary64 q
  | _ => x
  end.

(** [x * y] and [x / y] as binary64 computes them from binary64
    operands: the exact result, rounded. *)
Definition mul64 (x y : number) : number := round64 (mul x y).
Definition div64 (x y : number) : number := round64 (div x y).

(** Truthiness of a number: false for NaN and for zero. *)
Definition truthy (x : number) : bool :=
  match x with
  | NaN => false
  | Fin a => negb (Qeq_bool a 0)
  | _ => true
  end.

(** [x || d] on an optional number field. *)
Definition or_default (o : option number) (d : number) : number :=
  match o with
  | Some x => if truthy x then x else d
  | None => d
  end.

(** [x || 0]. *)
Definition or_zero (o : option number) : number := or_default o (Fin 0).

(** [+(x.toFixed(d))]: the nearest multiple of 10^-d, ties to the
    larger magnitude; values of magnitude 1e21 and above are printed in
    exponent notation and read back unchanged. *)
Definition toFixed (d : nat) (x : number) : number :=
  match x with
  | Fin a =>
      if Qle_bool (inject_Z (10 ^ 21)%Z) (Qabs a) then Fin a
      else
        let scale := inject_Z (10 ^ Z.of_nat d)%Z in
        let n := Qfloor (Qabs a * scale + (1 # 2)) in
        Fin (inject_Z (if Qltb a 0 then (- n)%Z else n) / scale)
  | _ => x
  end.

(** [ToIntegerOrInfinity] followed by the clamping that
    [Array.prototype.slice(0, end)] applies to its end index. *)
Definition slice_end (len : nat) (e : number) : nat :=
  match e with
  | NaN => 0%nat
  | PosInf => len
  | NegInf => 0%nat
  | Fin a =>
      let k := if Qltb a 0 then Qceiling a else Qfloor a in
      if (k <? 0)%Z then Z.to_nat (Z.max (Z.of_nat len + k) 0)
      else Nat.min (Z.to_nat k) len
  end.

Definition slice0 {A} (l : list A) (e : number) : list A :=
  firstn (slice_end (length l) e) l.

(** An array length as a number. *)
Definition of_nat (n : nat) : number := Fin (inject_Z (Z.of_nat n)).
Definition of_Z (z : Z) : number := Fin (inject_Z z).

(** [Array.prototype.sort(cmp)]: the specified stable order, by
    insertion; [cmp a b > 0] moves [a] behind [b], a NaN result counts
    as zero. *)
Fixpoint insert_by {A} (cmp : A -> A -> number) (x : A) (l : list A) : list A :=
  match l with
  | [] => [x]
  | y :: l' => if gt (cmp x y) (Fin 0) then y :: insert_by cmp x l' else x :: l
  end.

Definition sort_by {A} (cmp : A -> A -> number) (l : list A) : list A :=
  fold_right (insert_by cmp) [] l.

(** [l.reduce((s, x) => s + f x, 0)]. *)
Definition sum_by {A} (f : A -> number) (l : list A) : number :=
  fold_left (fun s x => add s (f x)) l (Fin 0).

End JS.

Arguments JS.Fin q%_Q.
Notation "x === y" := (JS.strict_eq x y) (at level 70, no associativity) : js_scope.
Notation "x <? y" := (JS.lt x y) : js_scope.
Notation "x <=? y" := (JS.le x y) : js_scope.
Notation "x >? y" := (JS.gt x y) : js_scope.
Notation "x >=? y" := (JS.ge x y) : js_scope.
Notation "x + y" := (JS.add x y) : js_scope.
Notation "x - y" := (JS.sub x y) : js_scope.
Notation "x * y" := (JS.mul x y) : js_scope.
Notation "x / y" := (JS.div x y) : js_scope.

Import JS.

Local Open Scope string_scope.
Local Open Scope js_scope.

(* ================================================================== *)
(** ** Records (types/index.ts and the optimizer's own interface) *)
(* ================================================================== *)

(** A JavaScript object carries every property ever written to it, so
    each record below has the union of the fields that the modelled
    functions read or write; a field that is absent is [None]. *)

Inductive DaypartCategory : Type :=
  | non_prime
  | non_core_prime
  | core_prime.

Module Tb.
Record TimebandMetrics : Type := mk {
  timeband : string;
  brandAReach : number;
  brandAShare : number;
  brandAOTS : number;
  brandDReach : option number;
  luxReach : option number;
  brandEReach : option number;
  brandBReach : option number;
  brandCReach : option number;
  maxCompReach : number;
  gap : number;
  atcIndex : option number;
  isPrimetime : bool;
  daypartCategory : DaypartCategory
}.
End Tb.
Abbreviation TimebandMetrics := Tb.TimebandMetrics.

Module Ch.
Record ChannelRecord : Type := mk {
  channel : string;
  genre : string;
  brandAReach : number;
  maxCompReach : number;
  gap : number;
  channelShare : number;
  indexVsBaseline : number;
  indexVsCompetition : number;
  brandDReach : option number;
  luxReach : option number;
  brandEReach : option number;
  brandBReach : option number;
  brandCReach : option number;
  atcIndex : option number;
  optimizationType : option string;
  timebands : option (list TimebandMetrics);
  primetimeReach : option number;
  nonPrimetimeReach : option number;
  peakTimeband : option string;
  opportunityTimeband : option string
}.
End Ch.
Abbreviation ChannelRecord := Ch.ChannelRecord.

(* ================================================================== *)
(** ** Channel optimizer (optimization utilities) *)
(* ================================================================== *)

Inductive Recommendation : Type := INCREASE | MAINTAIN | ADD | DECREASE.
Inductive Priority : Type := HIGH | MEDIUM | LOW.

(** The [reason] text is a template filled with formatted numbers; the
    model keeps the template and the numbers it cites. *)
Inductive Reason : Type :=
  | CompetitorAtShare (maxComp share : number)
  | GapOfIndex (gap index : number)
  | TopProtected (threshold : number)
  | LeadingCompetition
  | LowReachReallocate (reach : number)
  | StablePerformance.

Module Res.
Record OptimizationResult : Type := mk {
  channel : string;
  recommendation : Recommendation;
  priority : Priority;
  reason : Reason
}.
End Res.
Abbreviation OptimizationResult := Res.OptimizationResult.

Definition calculateStatus (ch : ChannelRecord) : string :=
  if (ch.(Ch.brandAReach) === Fin 0) && (ch.(Ch.maxCompReach) === Fin 0) then "INACTIVE"
  else if (ch.(Ch.brandAReach) === Fin 0) && (ch.(Ch.maxCompReach) >=? Fin 2.0)
          && (ch.(Ch.channelShare) >=? Fin 1.0) then "OPPORTUNITY"
  else if (ch.(Ch.brandAReach) === Fin 0) && (ch.(Ch.maxCompReach) >? Fin 0) then "INACTIVE"
  else if (ch.(Ch.brandAReach) >? Fin 0) && (ch.(Ch.maxCompReach) === Fin 0) then "MONOPOLY"
  else if ch.(Ch.indexVsCompetition) >=? Fin 150 then "DOMINANT"
  else if ch.(Ch.indexVsCompetition) >=? Fin 100 then "LEADING"
  else if ch.(Ch.indexVsCompetition) >=? Fin 80 then "CLOSE"
  else if ch.(Ch.indexVsCompetition) >=? Fin 50 then "BEHIND"
  else "CRITICAL".

Definition getProtectedChannels (channels : list ChannelRecord) (threshold : number)
  : list string :=
  let withBrandA := List.filter (fun ch => ch.(Ch.brandAReach) >? Fin 0) channels in
  let sorted := sort_by (fun a b => b.(Ch.brandAReach) - a.(Ch.brandAReach)) withBrandA in
  let cutoff := Math_ceil (mul64 (of_nat (length sorted)) (div64 threshold (Fin 100))) in
  map Ch.channel (slice0 sorted cutoff).

(** [protectedChannels.includes(name)]. *)
Definition includes (l : list string) (name : string) : bool :=
  existsb (String.eqb name) l.

Definition gapThreshold (intensity : number) : number :=
  if intensity <=? Fin 10 then Fin (-3)
  else if intensity <=? Fin 20 then Fin (-2) else Fin (-1).

Definition indexThreshold (intensity : number) : number :=
  if intensity <=? Fin 10 then Fin 70
  else if intensity <=? Fin 20 then Fin 80 else Fin 90.

(** One iteration of the [for] loop of [runOptimization]: the entry set
    for [ch], or [None] when the iteration leaves the map untouched. *)
Definition optimizeChannel (protectedChannels : list string)
    (intensity threshold : number) (ch : ChannelRecord) : option OptimizationResult :=
  if (ch.(Ch.brandAReach) === Fin 0) && (ch.(Ch.maxCompReach) === Fin 0) then None
  else
    let isProtected := includes protectedChannels ch.(Ch.channel) in
    if (ch.(Ch.brandAReach) === Fin 0) && (ch.(Ch.maxCompReach) >=? Fin 2.0)
       && (ch.(Ch.channelShare) >=? Fin 1.0) then
      Some (Res.mk ch.(Ch.channel) ADD
              (if ch.(Ch.maxCompReach) >? Fin 5 then HIGH
               else if ch.(Ch.maxCompReach) >? Fin 3 then MEDIUM else LOW)
              (CompetitorAtShare ch.(Ch.maxCompReach) ch.(Ch.channelShare)))
    else if (ch.(Ch.brandAReach) >? Fin 0) && (ch.(Ch.gap) <? gapThreshold intensity)
            && (ch.(Ch.indexVsCompetition) <? indexThreshold intensity) then
      Some (Res.mk ch.(Ch.channel) INCREASE
              (if ch.(Ch.gap) <? Fin (-5) then HIGH
               else if ch.(Ch.gap) <? Fin (-2) then MEDIUM else LOW)
              (GapOfIndex ch.(Ch.gap) ch.(Ch.indexVsCompetition)))
    else if isProtected || (ch.(Ch.indexVsCompetition) >=? Fin 100) then
      Some (Res.mk ch.(Ch.channel) MAINTAIN LOW
              (if isProtected then TopProtected threshold else LeadingCompetition))
    else if negb isProtected && (ch.(Ch.brandAReach) >? Fin 0)
            && (ch.(Ch.brandAReach) <? Fin 1.5)
            && (ch.(Ch.indexVsCompetition) >? Fin 120) then
      Some (Res.mk ch.(Ch.channel) DECREASE LOW
              (LowReachReallocate ch.(Ch.brandAReach)))
    else if ch.(Ch.brandAReach) >? Fin 0 then
      Some (Res.mk ch.(Ch.channel) MAINTAIN LOW StablePerformance)
    else None.

Definition runOptimization (channels : list ChannelRecord) (intensity threshold : number)
  : gmap string OptimizationResult :=
  let protectedChannels := getProtectedChannels channels threshold in
  fold_left
    (fun results ch =>
       match optimizeChannel protectedChannels intensity threshold ch with
       | Some r => <[ch.(Ch.channel) := r]> results
       | None => results
       end)
    channels ∅.

(** The status ladder as the specification words it: the guards of the
    five steps in order, each with its label; the first guard that holds
    decides, and CRITICAL is the label when none does. *)
Definition status_ladder (ch : ChannelRecord) : list (bool * string) :=
  let a := ch.(Ch.brandAReach) in
  let m := ch.(Ch.maxCompReach) in
  let s := ch.(Ch.channelShare) in
  let i := ch.(Ch.indexVsCompetition) in
  [ ((a === Fin 0) && (m === Fin 0), "INACTIVE");
    ((a === Fin 0) && ((m >=? Fin 2.0) && (s >=? Fin 1.0)), "OPPORTUNITY");
    ((a === Fin 0) && (m >? Fin 0) && negb ((m >=? Fin 2.0) && (s >=? Fin 1.0)), "INACTIVE");
    ((a >? Fin 0) && (m === Fin 0), "MONOPOLY");
    (i >=? Fin 150, "DOMINANT");
    (i >=? Fin 100, "LEADING");
    (i >=? Fin 80, "CLOSE");
    (i >=? Fin 50, "BEHIND") ].

Fixpoint first_match (rules : list (bool * string)) (default : string) : string :=
  match rules with
  | [] => default
  | (guard, label) :: rest => if guard then label else first_match rest default
  end.

(** The eight status labels (the keys of [STATUS_STYLES]). *)
Definition status_labels : list string :=
  [ "DOMINANT"; "LEADING"; "CLOSE"; "BEHIND"; "CRITICAL";
    "OPPORTUNITY"; "MONOPOLY"; "INACTIVE" ].

(** A channel record with the eight mandatory fields only. *)
Definition plainChannel (name genre_ : string)
    (reach maxComp gap_ share idxBase idxComp : number) : ChannelRecord :=
  Ch.mk name genre_ reach maxComp gap_ share idxBase idxComp
        None None None None None None None None None None None None.

(* ================================================================== *)
(** ** Planner insights: prime-time focus *)
(* ================================================================== *)

Definition isPrimeBand (tb : TimebandMetrics) : bool :=
  String.eqb tb.(Tb.timeband) "NCPT_EARLY"
  || String.eqb tb.(Tb.timeband) "CPT"
  || String.eqb tb.(Tb.timeband) "NCPT_LATE".

Definition calculatePrimeTimeFocus (timebands : list TimebandMetrics) : number :=
  let totalReach := sum_by Tb.brandAReach timebands in
  if totalReach === Fin 0 then Fin 0
  else
    let primeReach := sum_by Tb.brandAReach (List.filter isPrimeBand timebands) in
    (primeReach / totalReach) * Fin 100.

(* ================================================================== *)
(** ** Cross-geography analysis: market consistency *)
(* ================================================================== *)

Record Markets : Type := mkMarkets {
  UP : number;
  Maharashtra : number;
  Karnataka : number
}.

Record CrossGeoTimebandComparison : Type := mkComparison {
  cg_timeband : string;
  markets : Markets;
  bestPerformingMarket : string;
  worstPerformingMarket : string;
  variance : number
}.

Definition calculateMarketConsistencyScore (comparison : CrossGeoTimebandComparison)
  : number :=
  let values := [ comparison.(markets).(UP);
                  comparison.(markets).(Maharashtra);
                  comparison.(markets).(Karnataka) ] in
  let avg := sum_by (fun v => v) values / Fin 3 in
  if avg === Fin 0 then Fin 100
  else
    let cv := comparison.(variance) / avg in
    Math_max [Fin 0; Math_min [Fin 100; (Fin 1 - cv) * Fin 100]].

(* ================================================================== *)
(** ** Timeband processing *)
(* ================================================================== *)

Record DaypartInfo : Type := mkDaypart {
  dp_category : DaypartCategory;
  dp_isPrime : bool;
  dp_weight : number
}.

(** [DAYPART_CATEGORIES_V2[timeband]] for the four band labels. *)
Definition DAYPART_CATEGORIES_V2 (timeband : string) : option DaypartInfo :=
  if String.eqb timeband "NPT" then Some (mkDaypart non_prime false (Fin 0.6))
  else if String.eqb timeband "NCPT_EARLY" then Some (mkDaypart non_core_prime true (Fin 1.1))
  else if String.eqb timeband "CPT" then Some (mkDaypart core_prime true (Fin 1.5))
  else if String.eqb timeband "NCPT_LATE" then Some (mkDaypart non_core_prime true (Fin 1.2))
  else None.

Definition ATC_DAYPART_FACTORS_V2 (timeband : string) : option number :=
  if String.eqb timeband "NPT" then Some (Fin 0.7)
  else if String.eqb timeband "NCPT_EARLY" then Some (Fin 1.2)
  else if String.eqb timeband "CPT" then Some (Fin 1.5)
  else if String.eqb timeband "NCPT_LATE" then Some (Fin 1.1)
  else None.

Definition TIMEBAND_LABELS : list string := ["NPT"; "NCPT_EARLY"; "CPT"; "NCPT_LATE"].

(** The category and prime flag read off [daypartInfo]; the four labels
    of [TIMEBAND_LABELS] are all keys of the table. *)
Definition daypartOf (timeband : string) : DaypartInfo :=
  match DAYPART_CATEGORIES_V2 timeband with
  | Some info => info
  | None => mkDaypart non_prime false (Fin 0)
  end.

Definition is_digit (c : ascii) : bool :=
  let n := nat_of_ascii c in (48 <=? n)%nat && (n <=? 57)%nat.

(** [\s] on the code units below 256. *)
Definition is_space (c : ascii) : bool :=
  let n := nat_of_ascii c in
  ((9 <=? n)%nat && (n <=? 13)%nat) || (n =? 32)%nat || (n =? 160)%nat.

(** [s.replace(/:\d{2}:\d{2}/g, ':00')]. *)
Fixpoint replace_seconds (s : string) : string :=
  match s with
  | EmptyString => EmptyString
  | String c0 s0 =>
      match s0 with
      | String a (String b (String c1 (String c (String d rest)))) =>
          if Ascii.eqb c0 ":" && is_digit a && is_digit b
             && Ascii.eqb c1 ":" && is_digit c && is_digit d
          then String ":" (String "0" (String "0" (replace_seconds rest)))
          else String c0 (replace_seconds s0)
      | _ => String c0 (replace_seconds s0)
      end
  end.

(** [s.replace(/\s*-\s*/g, '-')]: white space is held back until the
    next character shows whether a dash follows, and dropped after a
    dash. *)
Fixpoint replace_dash (s : string) (pending : string) (afterDash : bool) : string :=
  match s with
  | EmptyString => pending
  | String c rest =>
      if is_space c then
        if afterDash then replace_dash rest pending true
        else replace_dash rest (pending ++ String c EmptyString) false
      else if Ascii.eqb c "-" then String "-" (replace_dash rest EmptyString true)
      else pending ++ String c (replace_dash rest EmptyString false)
  end.

(** [s.replace(/:00/g, '')]. *)
Fixpoint remove_zero_minutes (s : string) : string :=
  match s with
  | EmptyString => EmptyString
  | String c0 s0 =>
      match s0 with
      | String a (String b rest) =>
          if Ascii.eqb c0 ":" && Ascii.eqb a "0" && Ascii.eqb b "0"
          then remove_zero_minutes rest
          else String c0 (remove_zero_minutes s0)
      | _ => String c0 (remove_zero_minutes s0)
      end
  end.

Definition normalizeTimebandString (timeband : string) : string :=
  remove_zero_minutes (replace_dash (replace_seconds timeband) EmptyString false).

(** [row.Value]: the string 'n.a', null, or any other value, given by
    its [Number()] conversion. *)
Inductive rawValue : Type :=
  | RawNA
  | RawNull
  | RawOther (n : number).

Record RawRow : Type := mkRow {
  Channel : option string;
  TimeBand : option string;
  Value : rawValue;
  Metric : string;
  Target_Group : string
}.

(** The accumulator kept per channel and timeband; [competitors] is an
    object used as a map, in insertion order. *)
Record TimebandAccum : Type := mkAccum {
  acc_reach : list number;
  acc_share : list number;
  acc_ots : list number;
  acc_competitors : list (string * list number)
}.

Definition emptyAccum : TimebandAccum := mkAccum [] [] [] [].

Fixpoint push_competitor (group : string) (v : number)
    (competitors : list (string * list number)) : list (string * list number) :=
  match competitors with
  | [] => [(group, [v])]
  | (g, vs) :: rest =>
      if String.eqb g group then (g, (vs ++ [v])%list) :: rest
      else (g, vs) :: push_competitor group v rest
  end.

Fixpoint lookup_competitor {A} (group : string) (l : list (string * A)) : option A :=
  match l with
  | [] => None
  | (g, x) :: rest => if String.eqb g group then Some x else lookup_competitor group rest
  end.

(** A string is falsy when missing or empty. *)
Definition falsy_string (o : option string) : bool :=
  match o with
  | Some s => String.eqb s ""
  | None => true
  end.

Definition accumulate (row : RawRow) (data : TimebandAccum) : TimebandAccum :=
  let value := match row.(Value) with
               | RawNA => Fin 0
               | RawNull => Fin 0
               | RawOther n => n
               end in
  if String.eqb row.(Metric) "Cume Rch% Curve [1+]" then
    if String.eqb row.(Target_Group) "Brand A" then
      mkAccum (data.(acc_reach) ++ [value])%list data.(acc_share) data.(acc_ots)
              data.(acc_competitors)
    else
      mkAccum data.(acc_reach) data.(acc_share) data.(acc_ots)
              (push_competitor row.(Target_Group) value data.(acc_competitors))
  else if String.eqb row.(Metric) "rat%" then
    mkAccum data.(acc_reach) (data.(acc_share) ++ [value])%list data.(acc_ots)
            data.(acc_competitors)
  else if String.eqb row.(Metric) "Ots" then
    mkAccum data.(acc_reach) data.(acc_share) (data.(acc_ots) ++ [value])%list
            data.(acc_competitors)
  else data.

(** First loop of [parseTimebandData]: group by channel and timeband. *)
Definition groupRow (m : gmap string (gmap string TimebandAccum)) (row : RawRow)
  : gmap string (gmap string TimebandAccum) :=
  if falsy_string row.(Channel) || falsy_string row.(TimeBand) then m
  else
    let channel := default "" row.(Channel) in
    let timeband := normalizeTimebandString (default "" row.(TimeBand)) in
    let timebandData := default ∅ (m !! channel) in
    let data := default emptyAccum (timebandData !! timeband) in
    <[channel := <[timeband := accumulate row data]> timebandData]> m.

(** The mean of the collected values, 0 for none. *)
Definition average (vals : list number) : number :=
  if (0 <? length vals)%nat then sum_by (fun v => v) vals / of_nat (length vals)
  else Fin 0.

Definition calculateTimebandATCIndex (reach : number) (timeband : string) : number :=
  let factor := or_default (ATC_DAYPART_FACTORS_V2 timeband) (Fin 1.0) in
  reach * factor * Fin 100.

(** Create empty timeband entry for missing data. *)
Definition createEmptyTimeband (timeband market : string) : TimebandMetrics :=
  let daypartInfo := daypartOf timeband in
  if String.eqb market "Karnataka" then
    Tb.mk timeband (Fin 0) (Fin 0) (Fin 0)
          None None None (Some (Fin 0)) (Some (Fin 0))
          (Fin 0) (Fin 0) (Some (Fin 0))
          daypartInfo.(dp_isPrime) daypartInfo.(dp_category)
  else
    Tb.mk timeband (Fin 0) (Fin 0) (Fin 0)
          (Some (Fin 0)) None (Some (Fin 0)) None None
          (Fin 0) (Fin 0) None
          daypartInfo.(dp_isPrime) daypartInfo.(dp_category).

(** [competitorReaches]: the mean reach of every competitor group. *)
Definition competitorReachesOf (data : TimebandAccum) : list (string * number) :=
  map (fun cv => (fst cv, average (snd cv))) data.(acc_competitors).

(** The entry built for a timeband that has data (second loop of
    [parseTimebandData]). *)
Definition timebandMetricsOf (market timeband : string) (data : TimebandAccum)
  : TimebandMetrics :=
  let brandAReach := average data.(acc_reach) in
  let brandAShare := average data.(acc_share) in
  let brandAOTS := average data.(acc_ots) in
  let competitorReaches := competitorReachesOf data in
  let maxCompReach := Math_max (Fin 0 :: map snd competitorReaches) in
  let gap := brandAReach - maxCompReach in
  let daypartInfo := daypartOf timeband in
  if String.eqb market "Karnataka" then
    Tb.mk timeband brandAReach brandAShare brandAOTS
          None None None
          (Some (or_zero (lookup_competitor "Brand B" competitorReaches)))
          (Some (or_zero (lookup_competitor "Brand C" competitorReaches)))
          maxCompReach gap
          (Some (calculateTimebandATCIndex brandAReach timeband))
          daypartInfo.(dp_isPrime) daypartInfo.(dp_category)
  else
    Tb.mk timeband brandAReach brandAShare brandAOTS
          (Some (or_zero (lookup_competitor "Brand D" competitorReaches)))
          None
          (Some (or_zero (lookup_competitor "Brand E" competitorReaches)))
          None None
          maxCompReach gap None
          daypartInfo.(dp_isPrime) daypartInfo.(dp_category).

Definition timebandsOfChannel (market : string) (timebandData : gmap string TimebandAccum)
  : list TimebandMetrics :=
  map (fun timeband =>
         match timebandData !! timeband with
         | None => createEmptyTimeband timeband market
         | Some data => timebandMetricsOf market timeband data
         end)
      TIMEBAND_LABELS.

Definition parseTimebandData (rawData : list RawRow) (market : string)
  : gmap string (list TimebandMetrics) :=
  let channelTimebandMap := fold_left groupRow rawData ∅ in
  timebandsOfChannel market <$> channelTimebandMap.

(** The reach and competitor shares of the four bands. *)
Record Distribution : Type := mkDistribution {
  reach_NPT : number; reach_NCPT_EARLY : number; reach_CPT : number; reach_NCPT_LATE : number;
  comp_NPT : number; comp_NCPT_EARLY : number; comp_CPT : number; comp_NCPT_LATE : number
}.

Definition distribution_reach (d : Distribution) (timeband : string) : number :=
  if String.eqb timeband "NPT" then d.(reach_NPT)
  else if String.eqb timeband "NCPT_EARLY" then d.(reach_NCPT_EARLY)
  else if String.eqb timeband "CPT" then d.(reach_CPT)
  else d.(reach_NCPT_LATE).

Definition distribution_comp (d : Distribution) (timeband : string) : number :=
  if String.eqb timeband "NPT" then d.(comp_NPT)
  else if String.eqb timeband "NCPT_EARLY" then d.(comp_NCPT_EARLY)
  else if String.eqb timeband "CPT" then d.(comp_CPT)
  else d.(comp_NCPT_LATE).

Definition getChannelDistribution (channel : ChannelRecord) : Distribution :=
  let genreVariation :=
    of_nat (String.length channel.(Ch.channel) mod 10) / Fin 100 in
  if channel.(Ch.gap) <? Fin (-8) then
    mkDistribution (Fin 0.18 + genreVariation) (Fin 0.07) (Fin 0.60 - genreVariation) (Fin 0.15)
                   (Fin 0.20) (Fin 0.09) (Fin 0.58) (Fin 0.13)
  else if channel.(Ch.gap) <? Fin (-5) then
    mkDistribution (Fin 0.22 + genreVariation) (Fin 0.09) (Fin 0.54 - genreVariation) (Fin 0.15)
                   (Fin 0.24) (Fin 0.10) (Fin 0.53) (Fin 0.13)
  else if channel.(Ch.gap) <? Fin (-2) then
    mkDistribution (Fin 0.28 + genreVariation) (Fin 0.11) (Fin 0.46 - genreVariation) (Fin 0.15)
                   (Fin 0.27) (Fin 0.12) (Fin 0.48) (Fin 0.13)
  else if channel.(Ch.gap) <? Fin 2 then
    mkDistribution (Fin 0.33 + genreVariation) (Fin 0.12) (Fin 0.40 - genreVariation) (Fin 0.15)
                   (Fin 0.32) (Fin 0.12) (Fin 0.43) (Fin 0.13)
  else if channel.(Ch.gap) <? Fin 5 then
    mkDistribution (Fin 0.40 + genreVariation) (Fin 0.14) (Fin 0.32 - genreVariation) (Fin 0.14)
                   (Fin 0.36) (Fin 0.12) (Fin 0.40) (Fin 0.12)
  else if channel.(Ch.gap) <? Fin 8 then
    mkDistribution (Fin 0.48 + genreVariation) (Fin 0.16) (Fin 0.24 - genreVariation) (Fin 0.12)
                   (Fin 0.40) (Fin 0.13) (Fin 0.36) (Fin 0.11)
  else
    mkDistribution (Fin 0.55 + genreVariation) (Fin 0.18) (Fin 0.15 - genreVariation) (Fin 0.12)
                   (Fin 0.44) (Fin 0.14) (Fin 0.32) (Fin 0.10).

(** [x ? x * m : 0] on an optional competitor reach. *)
Definition scaled_or_zero (o : option number) (m : number) : number :=
  match o with
  | Some x => if truthy x then x * m else Fin 0
  | None => Fin 0
  end.

Definition sampleTimeband (channel : ChannelRecord) (market : string)
    (distribution : Distribution) (timeband : string) : TimebandMetrics :=
  let daypartInfo := daypartOf timeband in
  let reachMultiplier := distribution_reach distribution timeband in
  let brandAReach := channel.(Ch.brandAReach) * reachMultiplier in
  let compReachMultiplier := distribution_comp distribution timeband in
  let maxCompReach := channel.(Ch.maxCompReach) * compReachMultiplier in
  let gap := brandAReach - maxCompReach in
  if String.eqb market "Karnataka" then
    Tb.mk timeband brandAReach (channel.(Ch.channelShare) * reachMultiplier)
          (brandAReach * Fin 0.5)
          None None None
          (Some (scaled_or_zero channel.(Ch.brandBReach) compReachMultiplier))
          (Some (scaled_or_zero channel.(Ch.brandCReach) compReachMultiplier))
          maxCompReach gap
          (Some (calculateTimebandATCIndex brandAReach timeband))
          daypartInfo.(dp_isPrime) daypartInfo.(dp_category)
  else
    Tb.mk timeband brandAReach (channel.(Ch.channelShare) * reachMultiplier)
          (brandAReach * Fin 0.5)
          (Some (scaled_or_zero channel.(Ch.brandDReach) compReachMultiplier))
          None
          (Some (scaled_or_zero channel.(Ch.brandEReach) compReachMultiplier))
          None None
          maxCompReach gap None
          daypartInfo.(dp_isPrime) daypartInfo.(dp_category).

Definition generateSampleTimebandData (channel : ChannelRecord) (market : string)
  : list TimebandMetrics :=
  let distribution := getChannelDistribution channel in
  map (sampleTimeband channel market distribution) TIMEBAND_LABELS.

(* ================================================================== *)
(** ** District disaggregation *)
(* ================================================================== *)

Inductive Confidence : Type := High | Medium | Low.

Record DistrictRecord : Type := mkDistrict {
  ser : string;
  scrKey : string;
  district : string;
  syncPop : number;
  censusPop : number;
  urbanPct : number;
  literacyPct : number;
  tvOwnershipPct : number;
  mobilePct : number;
  electrificationPct : number;
  internetPct : number;
  cdmiScore : number;
  allocPctInSer : number;
  reachOverall : number;
  reachUrban : number;
  reachRural : number;
  targetPop : number;
  reachedPop : number;
  confidence : Confidence
}.

(** Genre categories for affinity calculation. *)
Definition GENRE_CATEGORY : list (string * string) :=
  [ ("News", "News");
    ("Hindi News", "News");
    ("English News", "English");
    ("Business News", "English");
    ("English Entertainment", "English");
    ("English Movies", "English");
    ("Devotional", "Devotional");
    ("Bhojpuri", "Regional");
    ("Punjabi", "Regional");
    ("Regional", "Regional");
    ("Kids", "Kids");
    ("Hindi Movies", "Movies");
    ("Movies", "Movies");
    ("Hindi GEC", "GEC");
    ("GEC", "GEC");
    ("Entertainment", "GEC");
    ("Comedy", "GEC");
    ("Music", "Music");
    ("Sports", "Sports");
    ("Infotainment", "Infotainment");
    ("Lifestyle", "Infotainment");
    ("Reality", "GEC") ].

(** The 32-bit integer of a number that is an integer ([ToInt32]). *)
Definition to_int32 (z : Z) : Z :=
  ((z + 2 ^ 31) mod 2 ^ 32 - 2 ^ 31)%Z.

(** One round of the loop of [simpleHash]: [(hash << 5) - hash + char],
    then [hash & hash]. *)
Definition hash_step (hash : Z) (c : ascii) : Z :=
  to_int32 (to_int32 (Z.shiftl hash 5) - hash + Z.of_nat (nat_of_ascii c))%Z.

(** Deterministic string hash for reproducible jitter. *)
Definition simpleHash (str : string) : Z :=
  Z.abs (fold_left hash_step (list_ascii_of_string str) 0%Z).

(** Layer 1: base CDMI factor. *)
Definition getBaseCdmiFactor (d : DistrictRecord) (serDistricts : list DistrictRecord)
  : number :=
  let serAvgCdmi := sum_by cdmiScore serDistricts / of_nat (length serDistricts) in
  let baseFactor := Fin 1 + (d.(cdmiScore) - serAvgCdmi) * Fin 0.6 in
  Math_max [Fin 0.5; Math_min [Fin 1.5; baseFactor]].

(** Layer 2: genre affinity multiplier. *)
Definition getGenreAffinity (genre_ : string) (urban literacy : number) : number :=
  let category := default "GEC" (lookup_competitor genre_ GENRE_CATEGORY) in
  let affinity :=
    if String.eqb category "News" then Fin 1 + (urban - Fin 0.15) * Fin 0.65
    else if String.eqb category "English" then Fin 1 + (urban - Fin 0.15) * Fin 0.75
    else if String.eqb category "Devotional" then Fin 1 + (Fin 0.15 - urban) * Fin 0.50
    else if String.eqb category "Regional" then Fin 1 + (Fin 0.15 - urban) * Fin 0.40
    else if String.eqb category "Kids" then
      Fin 1 + (urban - Fin 0.15) * Fin 0.35 + (literacy - Fin 0.60) * Fin 0.15
    else if String.eqb category "Movies" then Fin 1 + (urban - Fin 0.15) * Fin 0.30
    else if String.eqb category "Music" then Fin 1 + (urban - Fin 0.15) * Fin 0.30
    else if String.eqb category "Sports" then Fin 1 + (urban - Fin 0.15) * Fin 0.40
    else if String.eqb category "Infotainment" then Fin 1 + (urban - Fin 0.15) * Fin 0.45
    else if urban <? Fin 0.20 then Fin 1 + (Fin 0.20 - urban) * Fin 0.70
    else Fin 1.0 in
  Math_max [Fin 0.75; Math_min [Fin 1.35; affinity]].

(** [seed / 10000] for [seed = simpleHash(key) % 10000]. *)
Definition seed_fraction (key : string) : number :=
  of_Z (Z.rem (simpleHash key) 10000) / Fin 10000.

(** Layer 3 + 4: channel-size variance and deterministic seeded jitter. *)
Definition getChannelJitter (districtName channelName : string)
    (channelShare maxShareInSer : number) (suffix : string) : number :=
  let sizeStability :=
    if maxShareInSer >? Fin 0 then channelShare / maxShareInSer else Fin 0 in
  let varianceRange := (Fin 1 - sizeStability) * Fin 0.08 in
  let seed := seed_fraction (districtName ++ "_" ++ channelName ++ suffix) in
  (seed - Fin 0.5) * Fin 2 * varianceRange.

(** Layer 5: timeband urban shift adjustments. *)
Definition getTimebandUrbanShift (timeband : string) (urban : number) : number :=
  let urbanShift := (urban - Fin 0.15) * Fin 0.15 in
  if String.eqb timeband "NPT" then Fin 1 - urbanShift * Fin 0.4
  else if String.eqb timeband "NCPT_EARLY" then Fin 1 + urbanShift * Fin 0.1
  else if String.eqb timeband "CPT" then Fin 1.0
  else if String.eqb timeband "NCPT_LATE" then Fin 1 + urbanShift * Fin 0.5
  else Fin 1.0.

Definition presenceScore (brandAReach maxReachInSer channelShare maxShareInSer : number)
    (d : DistrictRecord) : number :=
  let reachStrength :=
    if maxReachInSer >? Fin 0 then brandAReach / maxReachInSer else Fin 0 in
  let shareStrength :=
    if maxShareInSer >? Fin 0 then channelShare / maxShareInSer else Fin 0 in
  let channelStrength := reachStrength * Fin 0.7 + shareStrength * Fin 0.3 in
  let districtAccess :=
    d.(urbanPct) * Fin 0.35 + d.(tvOwnershipPct) * Fin 0.30
    + d.(electrificationPct) * Fin 0.20 + d.(internetPct) * Fin 0.15 in
  channelStrength * Fin 0.55 + districtAccess * Fin 0.45.

Definition presenceThreshold (districtName channelName : string) : number :=
  let seed := seed_fraction ("presence_" ++ districtName ++ "_" ++ channelName) in
  let hashVariation := (seed - Fin 0.5) * Fin 0.08 in
  Fin 0.18 + hashVariation.

(** Layer 6: channel presence / absence model. *)
Definition getChannelPresence (districtName channelName : string)
    (brandAReach maxReachInSer channelShare maxShareInSer : number)
    (d : DistrictRecord) : bool :=
  if brandAReach <=? Fin 0 then false
  else
    presenceScore brandAReach maxReachInSer channelShare maxShareInSer d
      >=? presenceThreshold districtName channelName.

(** [Math.max(0.4, Math.min(1.8, x))]. *)
Definition clampFactor (x : number) : number :=
  Math_max [Fin 0.4; Math_min [Fin 1.8; x]].

(** The timeband of a channel that is absent from the district. *)
Definition absentTimeband (tb : TimebandMetrics) : TimebandMetrics :=
  Tb.mk tb.(Tb.timeband) (Fin 0) (Fin 0) (Fin 0)
        (Some (Fin 0)) (Some (Fin 0)) tb.(Tb.brandEReach)
        tb.(Tb.brandBReach) tb.(Tb.brandCReach)
        (Fin 0) (Fin 0) tb.(Tb.atcIndex)
        tb.(Tb.isPrimetime) tb.(Tb.daypartCategory).

(** The record returned for a channel that is absent from the district. *)
Definition absentChannel (ch : ChannelRecord) : ChannelRecord :=
  Ch.mk ch.(Ch.channel) ch.(Ch.genre)
        (Fin 0) (Fin 0) (Fin 0)
        ch.(Ch.channelShare) ch.(Ch.indexVsBaseline) (Fin 0)
        (Some (Fin 0)) (Some (Fin 0)) ch.(Ch.brandEReach)
        ch.(Ch.brandBReach) ch.(Ch.brandCReach)
        ch.(Ch.atcIndex) ch.(Ch.optimizationType)
        (option_map (map absentTimeband) ch.(Ch.timebands))
        ch.(Ch.primetimeReach) ch.(Ch.nonPrimetimeReach)
        ch.(Ch.peakTimeband) ch.(Ch.opportunityTimeband).

(** A timeband of a present channel, scaled; [normalizedAdjust] is the
    band weight over the total weight, times the number of bands. *)
Definition scaledTimeband (finalFactor compFactor1 compFactor2 normalizedAdjust : number)
    (tb : TimebandMetrics) : TimebandMetrics :=
  let tbBrandA := toFixed 2 (tb.(Tb.brandAReach) * finalFactor * normalizedAdjust) in
  let tbComp := toFixed 2 (tb.(Tb.maxCompReach) * compFactor1 * normalizedAdjust) in
  let tbBrandD :=
    option_map (fun r => toFixed 2 (r * compFactor1 * normalizedAdjust)) tb.(Tb.brandDReach) in
  let tbLux :=
    option_map (fun r => toFixed 2 (r * compFactor2 * normalizedAdjust)) tb.(Tb.luxReach) in
  Tb.mk tb.(Tb.timeband) tbBrandA
        (toFixed 2 (tb.(Tb.brandAShare) * finalFactor))
        (toFixed 2 (tb.(Tb.brandAOTS) * finalFactor))
        tbBrandD tbLux tb.(Tb.brandEReach)
        tb.(Tb.brandBReach) tb.(Tb.brandCReach)
        (Math_max [or_zero tbBrandD; or_zero tbLux; tbComp])
        (toFixed 2 (tbBrandA - Math_max [or_zero tbBrandD; or_zero tbLux; tbComp]))
        tb.(Tb.atcIndex)
        tb.(Tb.isPrimetime) tb.(Tb.daypartCategory).

Definition scaleTimebands (finalFactor compFactor1 compFactor2 urban : number)
    (timebands : list TimebandMetrics) : list TimebandMetrics :=
  let rawAdjusted :=
    map (fun tb => (tb, getTimebandUrbanShift tb.(Tb.timeband) urban)) timebands in
  let totalWeight := sum_by snd rawAdjusted in
  map (fun tw =>
         let normalizedAdjust := (snd tw / totalWeight) * of_nat (length rawAdjusted) in
         scaledTimeband finalFactor compFactor1 compFactor2 normalizedAdjust (fst tw))
      rawAdjusted.

(** The record returned for a channel that is present in the district. *)
Definition presentChannel (d : DistrictRecord) (baseFactor maxShareInSer : number)
    (ch : ChannelRecord) : ChannelRecord :=
  let genreAffinity := getGenreAffinity ch.(Ch.genre) d.(urbanPct) d.(literacyPct) in
  let jitter :=
    getChannelJitter d.(district) ch.(Ch.channel) ch.(Ch.channelShare) maxShareInSer "" in
  let finalFactor := clampFactor (baseFactor * genreAffinity * (Fin 1 + jitter)) in
  let compJitter1 :=
    getChannelJitter d.(district) ch.(Ch.channel) ch.(Ch.channelShare) maxShareInSer "_comp1" in
  let compJitter2 :=
    getChannelJitter d.(district) ch.(Ch.channel) ch.(Ch.channelShare) maxShareInSer "_comp2" in
  let compFactor1 := clampFactor (baseFactor * genreAffinity * (Fin 1 + compJitter1)) in
  let compFactor2 := clampFactor (baseFactor * genreAffinity * (Fin 1 + compJitter2)) in
  let brandAReach := toFixed 2 (ch.(Ch.brandAReach) * finalFactor) in
  let brandDReach := option_map (fun r => toFixed 2 (r * compFactor1)) ch.(Ch.brandDReach) in
  let luxReach := option_map (fun r => toFixed 2 (r * compFactor2)) ch.(Ch.luxReach) in
  let maxCompReach := Math_max [or_zero brandDReach; or_zero luxReach] in
  let gap := toFixed 2 (brandAReach - maxCompReach) in
  let indexVsCompetition :=
    if maxCompReach >? Fin 0 then toFixed 1 ((brandAReach / maxCompReach) * Fin 100)
    else if brandAReach >? Fin 0 then Fin 999 else Fin 0 in
  Ch.mk ch.(Ch.channel) ch.(Ch.genre)
        brandAReach maxCompReach gap
        ch.(Ch.channelShare) ch.(Ch.indexVsBaseline) indexVsCompetition
        brandDReach luxReach ch.(Ch.brandEReach)
        ch.(Ch.brandBReach) ch.(Ch.brandCReach)
        ch.(Ch.atcIndex) ch.(Ch.optimizationType)
        (option_map (scaleTimebands finalFactor compFactor1 compFactor2 d.(urbanPct))
                    ch.(Ch.timebands))
        ch.(Ch.primetimeReach) ch.(Ch.nonPrimetimeReach)
        ch.(Ch.peakTimeband) ch.(Ch.opportunityTimeband).

(** Main calculation: scale SER-level channel data to district level. *)
Definition calculateDistrictChannels (serChannels : list ChannelRecord)
    (d : DistrictRecord) (serDistricts : list DistrictRecord) : list ChannelRecord :=
  let baseFactor := getBaseCdmiFactor d serDistricts in
  let maxShareInSer := Math_max (map Ch.channelShare serChannels ++ [Fin 0.01]) in
  let maxReachInSer := Math_max (map Ch.brandAReach serChannels ++ [Fin 0.01]) in
  map (fun ch =>
         let isPresent :=
           getChannelPresence d.(district) ch.(Ch.channel)
             ch.(Ch.brandAReach) maxReachInSer ch.(Ch.channelShare) maxShareInSer d in
         if negb isPresent then absentChannel ch
         else presentChannel d baseFactor maxShareInSer ch)
      serChannels.

(* ================================================================== *)
(** ** The hash and the jitter as programs in an environment *)
(* ================================================================== *)

(** A JavaScript function runs in an environment that it can read and
    write: the variables of the enclosing module, the generator behind
    [Math.random].  To state that [simpleHash] and [getChannelJitter]
    depend on nothing but their arguments, their bodies are embedded a
    second time, statement by statement, as programs of a small
    language whose semantics passes that environment through every
    construct. *)

Module Prog.

Inductive value : Type :=
  | VNum (n : number)
  | VStr (s : string)
  | VBool (b : bool).

(** The environment outside a call. *)
Record World : Type := mkWorld {
  globals : list (string * value);
  randoms : list number
}.

(** [+ - * / % << & < >] on numbers. *)
Inductive binop : Type := OAdd | OSub | OMul | ODiv | ORem | OShl | OAnd | OLt | OGt.

Inductive expr : Type :=
  | ENum (q : Q)                       (* a numeric literal *)
  | EStr (s : string)                  (* a string literal *)
  | EVar (x : string)                  (* a parameter or a local variable *)
  | EGlobal (x : string)               (* a variable of the enclosing module *)
  | ERandom                            (* Math.random() *)
  | EBin (op : binop) (a b : expr)
  | ECond (c a b : expr)               (* c ? a : b *)
  | EConcat (a b : expr)               (* two parts of a template literal *)
  | ELength (a : expr)                 (* a.length *)
  | ECharCodeAt (a i : expr)           (* a.charCodeAt(i) *)
  | EAbs (a : expr)                    (* Math.abs(a) *)
  | ECall (f : string) (a : expr).     (* f(a), f a function of the module *)

Inductive stmt : Type :=
  | SSkip
  | SLet (x : string) (e : expr)              (* let x = e; const x = e *)
  | SAssign (x : string) (e : expr)           (* x = e, x a local variable *)
  | SAssignGlobal (x : string) (e : expr)     (* x = e, x a variable of the module *)
  | SFor (i : string) (bound : expr) (body : stmt)
                                              (* for (let i = 0; i < bound; i++) body *)
  | SSeq (s1 s2 : stmt)
  | SReturn (e : expr).

(** [{ s1; ...; sn }]. *)
Definition block (ss : list stmt) : stmt := fold_right SSeq SSkip ss.

(** The integer part of a rational, towards zero. *)
Definition trunc (q : Q) : Z := if Qltb q 0 then Qceiling q else Qfloor q.

(** [ToInt32]. *)
Definition ToInt32 (x : number) : Z :=
  match x with
  | Fin q => to_int32 (trunc q)
  | _ => 0%Z
  end.

(** [x % y]: the remainder of the division truncated towards zero. *)
Definition rem (x y : number) : number :=
  match x, y with
  | Fin a, Fin b =>
      if Qeq_bool b 0 then NaN else Fin (a - b * inject_Z (trunc (a / b)))%Q
  | Fin a, PosInf => Fin a
  | Fin a, NegInf => Fin a
  | _, _ => NaN
  end.

(** [x << y] and [x & y] on 32-bit integers. *)
Definition shl (x y : number) : number :=
  of_Z (to_int32 (Z.shiftl (ToInt32 x) (ToInt32 y mod 32))).

Definition bitand (x y : number) : number :=
  of_Z (Z.land (ToInt32 x) (ToInt32 y)).

Definition binop_number (op : binop) (x y : number) : value :=
  match op with
  | OAdd => VNum (x + y)
  | OSub => VNum (x - y)
  | OMul => VNum (x * y)
  | ODiv => VNum (x / y)
  | ORem => VNum (rem x y)
  | OShl => VNum (shl x y)
  | OAnd => VNum (bitand x y)
  | OLt => VBool (x <? y)
  | OGt => VBool (x >? y)
  end.

Definition truthy_value (v : value) : bool :=
  match v with
  | VNum n => truthy n
  | VStr s => negb (String.eqb s "")
  | VBool b => b
  end.

(** [s.charCodeAt(i)]: NaN outside the string. *)
Definition charCodeAt (s : string) (i : number) : number :=
  match i with
  | Fin q =>
      if Qltb q 0 then NaN
      else match String.get (Z.to_nat (Qfloor q)) s with
           | Some c => of_nat (nat_of_ascii c)
           | None => NaN
           end
  | _ => NaN
  end.

(** Local variables, innermost first. *)
Definition Locals : Type := list (string * value).

Fixpoint lookup_var (x : string) (env : list (string * value)) : option value :=
  match env with
  | [] => None
  | (y, v) :: rest => if String.eqb y x then Some v else lookup_var x rest
  end.

Fixpoint assign_var (x : string) (v : value) (env : list (string * value))
  : option (list (string * value)) :=
  match env with
  | [] => None
  | (y, u) :: rest =>
      if String.eqb y x then Some ((y, v) :: rest)
      else option_map (cons (y, u)) (assign_var x v rest)
  end.

(** [i++]. *)
Definition increment (i : string) (env : list (string * value))
  : option (list (string * value)) :=
  match lookup_var i env with
  | Some (VNum k) => assign_var i (VNum (k + Fin 1)) env
  | _ => None
  end.

(** Leaving a block drops the variables declared in it. *)
Definition leave_block (outer inner : Locals) : Locals :=
  skipn (length inner - length outer) inner.

(** What the call of a function of the module returns in a world. *)
Definition Calls : Type := string -> value -> World -> option (value * World).

(** An expression evaluates to a value and the world it leaves, or
    fails ([None]: an unbound name, an operand of the wrong type, an
    exhausted generator). *)
Fixpoint eval (calls : Calls) (env : Locals) (w : World) (e : expr)
  : option (value * World) :=
  match e with
  | ENum q => Some (VNum (Fin q), w)
  | EStr s => Some (VStr s, w)
  | EVar x => option_map (fun v => (v, w)) (lookup_var x env)
  | EGlobal x => option_map (fun v => (v, w)) (lookup_var x w.(globals))
  | ERandom =>
      match w.(randoms) with
      | r :: rest => Some (VNum r, mkWorld w.(globals) rest)
      | [] => None
      end
  | EBin op a b =>
      match eval calls env w a with
      | Some (VNum x, w1) =>
          match eval calls env w1 b with
          | Some (VNum y, w2) => Some (binop_number op x y, w2)
          | _ => None
          end
      | _ => None
      end
  | ECond c a b =>
      match eval calls env w c with
      | Some (vc, w1) =>
          if truthy_value vc then eval calls env w1 a else eval calls env w1 b
      | None => None
      end
  | EConcat a b =>
      match eval calls env w a with
      | Some (VStr x, w1) =>
          match eval calls env w1 b with
          | Some (VStr y, w2) => Some (VStr (x ++ y), w2)
          | _ => None
          end
      | _ => None
      end
  | ELength a =>
      match eval calls env w a with
      | Some (VStr s, w1) => Some (VNum (of_nat (String.length s)), w1)
      | _ => None
      end
  | ECharCodeAt a i =>
      match eval calls env w a with
      | Some (VStr s, w1) =>
          match eval calls env w1 i with
          | Some (VNum k, w2) => Some (VNum (charCodeAt s k), w2)
          | _ => None
          end
      | _ => None
      end
  | EAbs a =>
      match eval calls env w a with
      | Some (VNum x, w1) => Some (VNum (Math_abs x), w1)
      | _ => None
      end
  | ECall f a =>
      match eval calls env w a with
      | Some (v, w1) => calls f v w1
      | None => None
      end
  end.

(** A statement runs to the end, leaving the locals as they then are,
    or returns a value. *)
Inductive outcome : Type :=
  | Normal (env : Locals)
  | Returned (v : value).

(** The iteration bound that the model grants a [for] loop: the ceiling
    of the bound on entry.  A loop that has not ended by then fails. *)
Definition iterations (bound : value) : nat :=
  match bound with
  | VNum (Fin q) => Z.to_nat (Qceiling q)
  | _ => 0%nat
  end.

(** [for (let i = 0; cond; i++) body], the variable [i] declared: the
    condition is evaluated before every round; a round runs the body,
    drops what the body declared and increments [i]. *)
Fixpoint for_loop (cond : Locals -> World -> option (value * World))
    (body : Locals -> World -> option (outcome * World))
    (i : string) (outer : Locals) (n : nat) (env : Locals) (w : World)
  : option (outcome * World) :=
  match cond env w with
  | Some (VBool false, w1) => Some (Normal (leave_block outer env), w1)
  | Some (VBool true, w1) =>
      match n with
      | O => None
      | S n' =>
          match body env w1 with
          | Some (Normal env1, w2) =>
              match increment i (leave_block env env1) with
              | Some env2 => for_loop cond body i outer n' env2 w2
              | None => None
              end
          | other => other
          end
      end
  | _ => None
  end.

Fixpoint exec (calls : Calls) (env : Locals) (w : World) (s : stmt)
  : option (outcome * World) :=
  match s with
  | SSkip => Some (Normal env, w)
  | SLet x e =>
      match eval calls env w e with
      | Some (v, w1) => Some (Normal ((x, v) :: env), w1)
      | None => None
      end
  | SAssign x e =>
      match eval calls env w e with
      | Some (v, w1) => option_map (fun env1 => (Normal env1, w1)) (assign_var x v env)
      | None => None
      end
  | SAssignGlobal x e =>
      match eval calls env w e with
      | Some (v, w1) =>
          option_map (fun g => (Normal env, mkWorld g w1.(randoms)))
                     (assign_var x v w1.(globals))
      | None => None
      end
  | SFor i bound body =>
      match eval calls env w bound with
      | Some (b, _) =>
          for_loop (fun env1 w1 => eval calls env1 w1 (EBin OLt (EVar i) bound))
                   (fun env1 w1 => exec calls env1 w1 body)
                   i env (iterations b) ((i, VNum (Fin 0)) :: env) w
      | None => None
      end
  | SSeq s1 s2 =>
      match exec calls env w s1 with
      | Some (Normal env1, w1) => exec calls env1 w1 s2
      | other => other
      end
  | SReturn e =>
      match eval calls env w e with
      | Some (v, w1) => Some (Returned v, w1)
      | None => None
      end
  end.

(** A call: the parameters bound to the arguments, the body run, the
    value returned. *)
Definition call_function (calls : Calls) (params : list string) (body : stmt)
    (args : list value) (w : World) : option (value * World) :=
  match exec calls (combine params args) w body with
  | Some (Returned v, w1) => Some (v, w1)
  | _ => None
  end.

Definition no_calls : Calls := fun _ _ _ => None.

(** The body of the loop of [simpleHash]. *)
Definition simpleHash_round : stmt :=
  block
    [ SLet "char" (ECharCodeAt (EVar "str") (EVar "i"));
      SAssign "hash"
        (EBin OAdd (EBin OSub (EBin OShl (EVar "hash") (ENum 5)) (EVar "hash"))
                   (EVar "char"));
      SAssign "hash" (EBin OAnd (EVar "hash") (EVar "hash")) ].

(** [simpleHash], lines 213-221. *)
Definition simpleHash_body : stmt :=
  block
    [ SLet "hash" (ENum 0);
      SFor "i" (ELength (EVar "str")) simpleHash_round;
      SReturn (EAbs (EVar "hash")) ].

(** The functions that [getChannelJitter] can call. *)
Definition module_calls : Calls :=
  fun f v w =>
    if String.eqb f "simpleHash" then call_function no_calls ["str"] simpleHash_body [v] w
    else None.

(** [getChannelJitter], lines 330-343. *)
Definition getChannelJitter_body : stmt :=
  block
    [ SLet "sizeStability"
        (ECond (EBin OGt (EVar "maxShareInSer") (ENum 0))
              (EBin ODiv (EVar "channelShare") (EVar "maxShareInSer"))
              (ENum 0));
      SLet "varianceRange"
        (EBin OMul (EBin OSub (ENum 1) (EVar "sizeStability")) (ENum 0.08));
      SLet "seed"
        (EBin ORem
           (ECall "simpleHash"
              (EConcat (EVar "districtName")
                 (EConcat (EStr "_") (EConcat (EVar "channelName") (EVar "suffix")))))
           (ENum 10000));
      SLet "jitter"
        (EBin OMul
           (EBin OMul (EBin OSub (EBin ODiv (EVar "seed") (ENum 10000)) (ENum 0.5))
                      (ENum 2))
           (EVar "varianceRange"));
      SReturn (EVar "jitter") ].

Definition run_simpleHash (str : string) (w : World) : option (value * World) :=
  call_function no_calls ["str"] simpleHash_body [VStr str] w.

Definition run_getChannelJitter (districtName channelName : string)
    (channelShare maxShareInSer : number) (suffix : string) (w : World)
  : option (value * World) :=
  call_function module_calls
    ["districtName"; "channelName"; "channelShare"; "maxShareInSer"; "suffix"]
    getChannelJitter_body
    [VStr districtName; VStr channelName; VNum channelShare; VNum maxShareInSer;
     VStr suffix] w.

(** Equality of numbers as values: NaN is the same number as NaN. *)
Definition same_number (x y : number) : bool :=
  match x, y with
  | NaN, NaN => true
  | _, _ => x === y
  end.

End Prog.

(** A 32-bit integer. *)
Definition in_int32 (z : Z) : Prop := (- 2 ^ 31 <= z < 2 ^ 31)%Z.

(** A call of [getChannelJitter] by its five arguments; calls made one
    after the other, each in the world the one before it left. *)
Definition JitterCall : Type := (string * string * number * number * string)%type.

Definition run_jitter_call (c : JitterCall) (w : Prog.World) : option (Prog.value * Prog.World) :=
  match c with
  | (districtName, channelName, channelShare, maxShareInSer, suffix) =>
      Prog.run_getChannelJitter districtName channelName channelShare maxShareInSer suffix w
  end.

Fixpoint run_jitter_calls (calls : list JitterCall) (w : Prog.World)
  : option (list Prog.value * Prog.World) :=
  match calls with
  | [] => Some ([], w)
  | c :: rest =>
      match run_jitter_call c w with
      | Some (v, w1) =>
          match run_jitter_calls rest w1 with
          | Some (vs, w2) => Some (v :: vs, w2)
          | None => None
          end
      | None => None
      end
  end.

(** A timeband with the given label and reach, the other fields zero. *)
Definition plainTimeband (label : string) (reach : number) : TimebandMetrics :=
  Tb.mk label reach (Fin 0) (Fin 0) None None None None None (Fin 0) reach None
        (daypartOf label).(dp_isPrime) (daypartOf label).(dp_category).

(** ** The gap invariant of the data model *)

(** [|x - y| <= 1e-6]. *)
Definition within_tolerance (x y : number) : bool :=
  Math_abs (x - y) <=? Fin (1 # 1000000).

Definition gap_invariant_tb (tb : TimebandMetrics) : bool :=
  within_tolerance tb.(Tb.gap) (tb.(Tb.brandAReach) - tb.(Tb.maxCompReach)).

Definition gap_invariant_ch (ch : ChannelRecord) : bool :=
  within_tolerance ch.(Ch.gap) (ch.(Ch.brandAReach) - ch.(Ch.maxCompReach)).

(** The competitor reaches a timeband carries (an absent one counts 0),
    and "maxCompReach is the maximum of the competitor reaches and 0". *)
Definition competitorReaches_tb (tb : TimebandMetrics) : list number :=
  [ or_zero tb.(Tb.brandDReach); or_zero tb.(Tb.luxReach); or_zero tb.(Tb.brandEReach);
    or_zero tb.(Tb.brandBReach); or_zero tb.(Tb.brandCReach) ].

Definition maxComp_invariant_tb (tb : TimebandMetrics) : bool :=
  tb.(Tb.maxCompReach) === Math_max (Fin 0 :: competitorReaches_tb tb).

(** A finite number below 1e21 in magnitude (printed by [toFixed] in
    fixed notation). *)
Definition printable (x : number) : bool :=
  match x with
  | Fin a => Qltb (Qabs a) (inject_Z (10 ^ 21))
  | _ => false
  end.

Definition is_finite (x : number) : bool :=
  match x with
  | Fin _ => true
  | _ => false
  end.

(** A rational that is a whole number of hundredths. *)
Definition hundredths (q : Q) : Prop := exists n : Z, q == inject_Z n / 100.

(** A value that is zero or came out of [toFixed 2]. *)
Definition rounded2 (x : number) : Prop := x = Fin 0 \/ exists y, x = toFixed 2 y.

(** ** Example inputs *)

Definition exampleDistrict : DistrictRecord :=
  mkDistrict "Awadh" "Awadh" "Kanpur Nagar"
    (Fin 100) (Fin 100) (Fin 0.3) (Fin 0.7) (Fin 0.7) (Fin 0.8) (Fin 0.9) (Fin 0.4)
    (Fin 0.5) (Fin 10) (Fin 50) (Fin 60) (Fin 40) (Fin 100) (Fin 50) High.

Definition ruralDistrict : DistrictRecord :=
  mkDistrict "Awadh" "Awadh" "Shravasti"
    (Fin 100) (Fin 100) (Fin 0.05) (Fin 0.4) (Fin 0.2) (Fin 0.5) (Fin 0.3) (Fin 0.05)
    (Fin 0.3) (Fin 10) (Fin 30) (Fin 40) (Fin 20) (Fin 100) (Fin 30) Low.

(** A low-reach, high-index channel outside the protected set: the one
    shape the DECREASE rule was written for. *)
Definition decreaseCandidates : list ChannelRecord :=
  [ plainChannel "Big" "GEC" (Fin 10) (Fin 20) (Fin (-10)) (Fin 5) (Fin 100) (Fin 50);
    plainChannel "Small" "GEC" (Fin 1.0) (Fin 0.5) (Fin 0.5) (Fin 1) (Fin 100) (Fin 200) ].

(** The opportunity scenario: brandAReach = 0, maxCompReach = 3.0,
    channelShare = 2.0. *)
Definition opportunityChannel : ChannelRecord :=
  plainChannel "Rival" "GEC" (Fin 0) (Fin 3.0) (Fin (-3.0)) (Fin 2.0) (Fin 100) (Fin 0).

Definition opportunityScenario : list ChannelRecord :=
  [ plainChannel "Big" "GEC" (Fin 10) (Fin 20) (Fin (-10)) (Fin 5) (Fin 100) (Fin 50);
    opportunityChannel ].

(** The increase scenario: brandAReach = 5.0, gap = -6.0, index 60,
    behind three channels of larger reach that fill the protected set at
    threshold 70. *)
Definition trailingChannel : ChannelRecord :=
  plainChannel "Trailing" "GEC" (Fin 5.0) (Fin 11.0) (Fin (-6.0)) (Fin 2) (Fin 100) (Fin 60).

Definition increaseScenario : list ChannelRecord :=
  [ plainChannel "One" "GEC" (Fin 20) (Fin 10) (Fin 10) (Fin 9) (Fin 100) (Fin 200);
    plainChannel "Two" "GEC" (Fin 15) (Fin 10) (Fin 5) (Fin 8) (Fin 100) (Fin 150);
    plainChannel "Three" "GEC" (Fin 10) (Fin 10) (Fin 0) (Fin 7) (Fin 100) (Fin 100);
    trailingChannel ].

(** Eleven channels named A to K with reaches 0 to 10, out of order. *)
Definition elevenChannels : list ChannelRecord :=
  map (fun n : Z =>
         plainChannel (String (ascii_of_nat (Z.to_nat (65 + n))) "") "GEC"
           (Fin (inject_Z n)) (Fin 1) (Fin (inject_Z n - 1)) (Fin 1)
           (Fin 100) (Fin (inject_Z n * 100)))
      [3; 0; 9; 1; 7; 2; 8; 4; 6; 5; 10]%Z.

(** Twenty-five channels named A to Y with reaches 1 to 25. *)
Definition twentyFiveChannels : list ChannelRecord :=
  map (fun n : Z =>
         plainChannel (String (ascii_of_nat (Z.to_nat (64 + n))) "") "GEC"
           (Fin (inject_Z n)) (Fin 1) (Fin (inject_Z n - 1)) (Fin 1)
           (Fin 100) (Fin (inject_Z n * 100)))
      (map Z.of_nat (seq 1 25)).

(** A channel as the optimizer's [ChannelRecord] and the district table
    of the application carry it: the two competitors are brandDReach
    and brandEReach, the bands are the sample bands of
    [generateSampleTimebandData]. *)
Definition brandEChannel (name : string) (reach brandD brandE share : Q) : ChannelRecord :=
  let maxComp := Qmax brandD brandE in
  let base :=
    Ch.mk name "GEC" (Fin reach) (Fin maxComp) (Fin (reach - maxComp))
          (Fin share) (Fin 100) (Fin (reach / maxComp * 100))
          (Some (Fin brandD)) None (Some (Fin brandE)) None None None None
          None None None None None in
  Ch.mk name "GEC" (Fin reach) (Fin maxComp) (Fin (reach - maxComp))
        (Fin share) (Fin 100) (Fin (reach / maxComp * 100))
        (Some (Fin brandD)) None (Some (Fin brandE)) None None None None
        (Some (generateSampleTimebandData base "UP")) None None None None.

Definition brandEChannels : list ChannelRecord :=
  [ brandEChannel "Zee TV" 10 8 6 10; brandEChannel "Tiny" 0.1 1 2 0.1 ].

(** The four bands with reaches 1, 2, 8, 3. *)
Definition focusScenario : list TimebandMetrics :=
  [ plainTimeband "NPT" (Fin 1); plainTimeband "NCPT_EARLY" (Fin 2);
    plainTimeband "CPT" (Fin 8); plainTimeband "NCPT_LATE" (Fin 3) ].

(** A timeband of an Uttar Pradesh channel: competitors brandD and lux,
    maxCompReach their maximum, gap the difference. *)
Definition upTimeband (label : string) (reach brandD lux : Q) : TimebandMetrics :=
  Tb.mk label (Fin reach) (Fin reach) (Fin (reach * 2))
        (Some (Fin brandD)) (Some (Fin lux)) None None None
        (Fin (Qmax brandD lux)) (Fin (reach - Qmax brandD lux)) None
        (daypartOf label).(dp_isPrime) (daypartOf label).(dp_category).

Definition upChannel (name genre_ : string) (reach brandD lux share : Q)
    (tbs : list TimebandMetrics) : ChannelRecord :=
  Ch.mk name genre_ (Fin reach) (Fin (Qmax brandD lux)) (Fin (reach - Qmax brandD lux))
        (Fin share) (Fin 100) (Fin (reach / Qmax brandD lux * 100))
        (Some (Fin brandD)) (Some (Fin lux)) None None None None None
        (Some tbs) None None None None.

Definition exampleChannels : list ChannelRecord :=
  [ upChannel "Zee TV" "GEC" 10 8 6 10
      [ upTimeband "NPT" 3 2 1; upTimeband "NCPT_EARLY" 1 1 1;
        upTimeband "CPT" 5 4 3; upTimeband "NCPT_LATE" 1 1 1 ];
    upChannel "Aaj Tak Action Utsav" "GEC" 6 2 10 1
      [ upTimeband "NPT" 2 1 3; upTimeband "NCPT_EARLY" 1 1 1;
        upTimeband "CPT" 3 1 5; upTimeband "NCPT_LATE" 1 1 1 ];
    upChannel "Tiny" "GEC" 0.1 2 1 0.1
      [ upTimeband "NPT" 0.1 1 1; upTimeband "NCPT_EARLY" 0 1 1;
        upTimeband "CPT" 0 1 1; upTimeband "NCPT_LATE" 0 1 1 ] ].

(* ================================================================== *)
(** ** Channel optimizer: relevance filter and summary *)
(* ================================================================== *)

(** The [filterMode] argument, 'actionable' or 'all'. *)
Inductive FilterMode : Type := mode_actionable | mode_all.

(** Tier 1: active Brand A channels with meaningful presence. *)
Definition isActiveBrandAChannel (ch : ChannelRecord) : bool :=
  (ch.(Ch.brandAReach) >? Fin 1.0)
  || ((ch.(Ch.brandAReach) >? Fin 0.5) && (ch.(Ch.channelShare) >? Fin 0.5)).

(** Tier 2: real opportunities. *)
Definition isRealOpportunity (ch : ChannelRecord) : bool :=
  (ch.(Ch.brandAReach) === Fin 0) && (ch.(Ch.maxCompReach) >=? Fin 2.0)
  && (ch.(Ch.channelShare) >=? Fin 1.0).

(** Tier 3: emerging channels. *)
Definition isEmergingChannel (ch : ChannelRecord) : bool :=
  (ch.(Ch.brandAReach) >? Fin 0.5) && (ch.(Ch.brandAReach) <=? Fin 1.0)
  && (ch.(Ch.channelShare) >? Fin 0.5).

Definition filterRelevantChannels (channels : list ChannelRecord) (filterMode : FilterMode)
  : list ChannelRecord :=
  match filterMode with
  | mode_all => channels
  | mode_actionable =>
      List.filter
        (fun ch => isActiveBrandAChannel ch || isRealOpportunity ch || isEmergingChannel ch)
        channels
  end.

Definition Recommendation_eqb (x y : Recommendation) : bool :=
  match x, y with
  | INCREASE, INCREASE => true
  | MAINTAIN, MAINTAIN => true
  | ADD, ADD => true
  | DECREASE, DECREASE => true
  | _, _ => false
  end.

Definition Priority_eqb (x y : Priority) : bool :=
  match x, y with
  | HIGH, HIGH => true
  | MEDIUM, MEDIUM => true
  | LOW, LOW => true
  | _, _ => false
  end.

Module Summary.
Record OptimizationSummary : Type := mk {
  increase : nat;
  maintain : nat;
  add : nat;
  decrease : nat;
  highPriority : nat
}.
End Summary.

(** [[...results.values()]] and the five counts over it. *)
Definition getOptimizationSummary (results : gmap string OptimizationResult)
  : Summary.OptimizationSummary :=
  let arr := map snd (map_to_list results) in
  let count (p : OptimizationResult -> bool) := length (List.filter p arr) in
  Summary.mk
    (count (fun r => Recommendation_eqb r.(Res.recommendation) INCREASE))
    (count (fun r => Recommendation_eqb r.(Res.recommendation) MAINTAIN))
    (count (fun r => Recommendation_eqb r.(Res.recommendation) ADD))
    (count (fun r => Recommendation_eqb r.(Res.recommendation) DECREASE))
    (count (fun r => Priority_eqb r.(Res.priority) HIGH)).

(** The recommendation and priority of an entry, without its reason. *)
Definition verdict (r : OptimizationResult) : Recommendation * Priority :=
  (r.(Res.recommendation), r.(Res.priority)).

(* ================================================================== *)
(** ** Timeband processing: aggregates and enrichment *)
(* ================================================================== *)



(** The [metric] argument of [findPeakTimeband] and the field it names. *)
Inductive PeakMetric : Type := metric_brandAReach | metric_gap.

Definition metricOf (metric : PeakMetric) (tb : TimebandMetrics) : number :=
  match metric with
  | metric_brandAReach => tb.(Tb.brandAReach)
  | metric_gap => tb.(Tb.gap)
  end.

(** [sorted[0].timeband] of the copy sorted in descending order of the
    metric; the sort keeps the length, so [sorted[0]] exists. *)
Definition findPeakTimeband (timebands : list TimebandMetrics) (metric : PeakMetric)
  : string :=
  if (length timebands =? 0)%nat then ""
  else
    match sort_by (fun a b => metricOf metric b - metricOf metric a) timebands with
    | tb :: _ => tb.(Tb.timeband)
    | [] => ""
    end.


(** The value a row contributes, as the first loop of
    [parseTimebandData] reads it. *)
Definition rowValue (row : RawRow) : number :=
  match row.(Value) with
  | RawNA => Fin 0
  | RawNull => Fin 0
  | RawOther n => n
  end.

(** The rows of a channel and (normalised) timeband that the first loop
    does not skip. *)
Definition rowInBand (channel timeband : string) (row : RawRow) : bool :=
  negb (falsy_string row.(Channel) || falsy_string row.(TimeBand))
  && String.eqb (default "" row.(Channel)) channel
  && String.eqb (normalizeTimebandString (default "" row.(TimeBand))) timeband.

(** The values of such rows for one metric, in the order of the rows;
    the reach metric is kept for the target group 'Brand A' only. *)
Definition reachValues (channel timeband : string) (rawData : list RawRow) : list number :=
  map rowValue
    (List.filter (fun row => rowInBand channel timeband row
                             && String.eqb row.(Metric) "Cume Rch% Curve [1+]"
                             && String.eqb row.(Target_Group) "Brand A") rawData).

Definition shareValues (channel timeband : string) (rawData : list RawRow) : list number :=
  map rowValue
    (List.filter (fun row => rowInBand channel timeband row
                             && String.eqb row.(Metric) "rat%") rawData).

Definition otsValues (channel timeband : string) (rawData : list RawRow) : list number :=
  map rowValue
    (List.filter (fun row => rowInBand channel timeband row
                             && String.eqb row.(Metric) "Ots") rawData).

(** The prime flags and categories of the four bands, in label order. *)
Definition TIMEBAND_PRIME_FLAGS : list bool := [false; true; true; true].

Definition TIMEBAND_CATEGORIES : list DaypartCategory :=
  [non_prime; non_core_prime; core_prime; non_core_prime].

(** A string without colon, dash and white space. *)
Definition plain_char (c : ascii) : bool :=
  negb (Ascii.eqb c ":") && negb (Ascii.eqb c "-") && negb (is_space c).

Fixpoint plain_string (s : string) : bool :=
  match s with
  | EmptyString => true
  | String c rest => plain_char c && plain_string rest
  end.

(** Raw rows of one channel: two months of Brand A reach in core prime
    time, a competitor, a rating and an OTS row, a row of a clock-time
    band and a row without channel. *)
Definition exampleRows : list RawRow :=
  [ mkRow (Some "Zee TV") (Some "CPT") (RawOther (Fin 4)) "Cume Rch% Curve [1+]" "Brand A";
    mkRow (Some "Zee TV") (Some "CPT") (RawOther (Fin 3)) "Cume Rch% Curve [1+]" "Brand D";
    mkRow (Some "Zee TV") (Some "CPT") RawNA "Cume Rch% Curve [1+]" "Brand A";
    mkRow (Some "Zee TV") (Some "CPT") (RawOther (Fin 5)) "Cume Rch% Curve [1+]" "Brand A";
    mkRow (Some "Zee TV") (Some "CPT") (RawOther (Fin 1.5)) "rat%" "Brand A";
    mkRow (Some "Zee TV") (Some "NPT") (RawOther (Fin 2)) "Ots" "Brand A";
    mkRow (Some "Zee TV") (Some "02:00:00 - 05:00:00") (RawOther (Fin 9))
          "Cume Rch% Curve [1+]" "Brand A";
    mkRow None (Some "CPT") (RawOther (Fin 7)) "Cume Rch% Curve [1+]" "Brand A" ].

(* ================================================================== *)
(** ** Cross-geography analysis: comparisons *)
(* ================================================================== *)

(** Get timeband reach for a specific channel and timeband in a market. *)
Definition getTimebandReach (channels : list ChannelRecord)
    (channelName timeband : string) : number :=
  match List.find (fun ch => String.eqb ch.(Ch.channel) channelName) channels with
  | None => Fin 0
  | Some channel =>
      match channel.(Ch.timebands) with
      | None => Fin 0
      | Some tbs =>
          let timebandData :=
            List.find (fun tb => String.eqb tb.(Tb.timeband) timeband) tbs in
          or_zero (option_map Tb.brandAReach timebandData)
      end
  end.

Record AllMarketData : Type := mkAllMarkets {
  data_UP : list ChannelRecord;
  data_Maharashtra : list ChannelRecord;
  data_Karnataka : list ChannelRecord
}.

(** The [timebandNames] of [compareTimebandAcrossGeographies]. *)
Definition COMPARED_TIMEBAND_NAMES : list string :=
  [ "02:00-05:00"; "05:00-08:00"; "08:00-11:00"; "11:00-14:00";
    "14:00-17:00"; "17:00-20:00"; "20:00-23:00"; "23:00-26:00" ].

(** [Math.pow(x, 2)]. *)
Definition Math_pow2 (x : number) : number := x * x.

(** The value a [markets] object holds under a market name. *)
Definition marketValue (m : Markets) (market : string) : number :=
  if String.eqb market "UP" then m.(UP)
  else if String.eqb market "Maharashtra" then m.(Maharashtra)
  else m.(Karnataka).

(** [[...new Set(names)]]: the names in the order of their first
    occurrence. *)
Definition set_values (names : list string) : list string :=
  fold_left (fun seen name => if includes seen name then seen else (seen ++ [name])%list)
            names [].

Section CrossGeo.

(** [Math.sqrt] has irrational values and is left uninterpreted: the
    comparison is modelled for every function in its place. *)
Variable Math_sqrt : number -> number.

(** The body of the [map] in [compareTimebandAcrossGeographies]; the
    assignments to [maxValue], [bestMarket], [minValue], [worstMarket]
    are threaded as pairs. *)
Definition compareTimeband (channelName : string) (allMarketData : AllMarketData)
    (tbName : string) : CrossGeoTimebandComparison :=
  let upReach := getTimebandReach allMarketData.(data_UP) channelName tbName in
  let mahReach := getTimebandReach allMarketData.(data_Maharashtra) channelName tbName in
  let karReach := getTimebandReach allMarketData.(data_Karnataka) channelName tbName in
  let values := [upReach; mahReach; karReach] in
  let avg := sum_by (fun v => v) values / Fin 3 in
  let variance := Math_sqrt (sum_by (fun v => Math_pow2 (v - avg)) values / Fin 3) in
  let best1 := if mahReach >? upReach then (mahReach, "Maharashtra") else (upReach, "UP") in
  let bestMarket := if karReach >? fst best1 then "Karnataka" else snd best1 in
  let worst1 := if mahReach <? upReach then (mahReach, "Maharashtra") else (upReach, "UP") in
  let worstMarket := if karReach <? fst worst1 then "Karnataka" else snd worst1 in
  mkComparison tbName (mkMarkets upReach mahReach karReach) bestMarket worstMarket variance.

Definition compareTimebandAcrossGeographies (channelName : string)
    (allMarketData : AllMarketData) : list CrossGeoTimebandComparison :=
  map (compareTimeband channelName allMarketData) COMPARED_TIMEBAND_NAMES.

Definition identifyDivergentTimebands (comparisons : list CrossGeoTimebandComparison)
    (varianceThreshold : number) : list CrossGeoTimebandComparison :=
  List.filter (fun c => c.(variance) >=? varianceThreshold) comparisons.

(** The average consistency score of a channel over the compared
    timebands. *)
Definition averageConsistencyScore (channel : string) (allMarketData : AllMarketData)
  : number :=
  let comparisons := compareTimebandAcrossGeographies channel allMarketData in
  let scores := map calculateMarketConsistencyScore comparisons in
  sum_by (fun v => v) scores / of_nat (length scores).

Definition findConsistentChannels (allMarketData : AllMarketData)
    (consistencyThreshold : number) : list string :=
  let upChannels := set_values (map Ch.channel allMarketData.(data_UP)) in
  let mahChannels := set_values (map Ch.channel allMarketData.(data_Maharashtra)) in
  let karChannels := set_values (map Ch.channel allMarketData.(data_Karnataka)) in
  let commonChannels :=
    List.filter (fun ch => includes mahChannels ch && includes karChannels ch) upChannels in
  List.filter
    (fun channel => averageConsistencyScore channel allMarketData >=? consistencyThreshold)
    commonChannels.

End CrossGeo.

Record TimebandMarketPenetration : Type := mkPenetration {
  pen_timeband : string;
  totalChannels : nat;
  channelsWithActivity : nat;
  penetrationRate : number;
  avgReach : number
}.

(** [ch.timebands?.find(t => t.timeband === timeband)]. *)
Definition findBand (ch : ChannelRecord) (timeband : string) : option TimebandMetrics :=
  match ch.(Ch.timebands) with
  | None => None
  | Some tbs => List.find (fun t => String.eqb t.(Tb.timeband) timeband) tbs
  end.

Definition calculateTimebandMarketPenetration (channels : list ChannelRecord)
    (timeband : string) : TimebandMarketPenetration :=
  let channelsWithTimebands :=
    List.filter (fun ch => match ch.(Ch.timebands) with
                           | Some tbs => (0 <? length tbs)%nat
                           | None => false
                           end) channels in
  let channelsWithActivity :=
    List.filter (fun ch => match findBand ch timeband with
                           | Some tb => tb.(Tb.brandAReach) >? Fin 0
                           | None => false
                           end) channelsWithTimebands in
  let totalReach :=
    sum_by (fun ch => or_zero (option_map Tb.brandAReach (findBand ch timeband)))
           channelsWithTimebands in
  let avgReach :=
    if (0 <? length channelsWithTimebands)%nat
    then totalReach / of_nat (length channelsWithTimebands) else Fin 0 in
  let penetrationRate :=
    if (0 <? length channelsWithTimebands)%nat
    then (of_nat (length channelsWithActivity) / of_nat (length channelsWithTimebands))
         * Fin 100
    else Fin 0 in
  mkPenetration timeband (length channelsWithTimebands) (length channelsWithActivity)
                penetrationRate avgReach.

(** Three markets that share the channel "Zee TV"; the bands carry the
    four labels. *)
Definition exampleMarkets : AllMarketData :=
  mkAllMarkets exampleChannels
    [ upChannel "Zee TV" "GEC" 7 5 4 8
        [ upTimeband "NPT" 2 1 1; upTimeband "NCPT_EARLY" 1 1 1;
          upTimeband "CPT" 3 2 1; upTimeband "NCPT_LATE" 1 1 1 ];
      upChannel "Sony" "GEC" 3 2 1 4 [] ]
    [ upChannel "Zee TV" "GEC" 2 1 1 3
        [ upTimeband "NPT" 1 1 1; upTimeband "NCPT_EARLY" 0 0 0;
          upTimeband "CPT" 1 1 1; upTimeband "NCPT_LATE" 0 0 0 ] ].

(** Data whose bands all carry one of the four band labels. *)
Definition four_band_channel (ch : ChannelRecord) : bool :=
  match ch.(Ch.timebands) with
  | None => true
  | Some tbs => forallb (fun tb => includes TIMEBAND_LABELS tb.(Tb.timeband)) tbs
  end.

Definition four_band_data (allMarketData : AllMarketData) : bool :=
  forallb four_band_channel allMarketData.(data_UP)
  && forallb four_band_channel allMarketData.(data_Maharashtra)
  && forallb four_band_channel allMarketData.(data_Karnataka).

Definition MARKET_NAMES : list string := ["UP"; "Maharashtra"; "Karnataka"].




(** A channel whose two aggregates, where present, are finite. *)
Definition finite_aggregates (ch : ChannelRecord) : bool :=
  is_finite (or_zero ch.(Ch.primetimeReach))
  && is_finite (or_zero ch.(Ch.nonPrimetimeReach)).

(* ================================================================== *)
(** ** District disaggregation: selection and summary *)
(* ================================================================== *)

Definition getDistrictsForSer (allDistricts : list DistrictRecord) (scrKey_ : string)
  : list DistrictRecord :=
  List.filter (fun d => String.eqb d.(scrKey) scrKey_) allDistricts.

Module DSum.
Record DistrictSummary : Type := mk {
  cdmiScore : number;
  reachOverall : number;
  brandAChannels : nat;
  opportunities : nat;
  avgGap : number;
  confidence : Confidence
}.
End DSum.

(** Compute district summary from scaled channels. *)
Definition calculateDistrictSummary (d : DistrictRecord) (channels : list ChannelRecord)
  : DSum.DistrictSummary :=
  let withBrandA := List.filter (fun c => c.(Ch.brandAReach) >? Fin 0) channels in
  let opportunities :=
    List.filter (fun c => (c.(Ch.brandAReach) === Fin 0) && (c.(Ch.maxCompReach) >=? Fin 2.0)
                          && (c.(Ch.channelShare) >=? Fin 1.0)) channels in
  let avgGap :=
    if (0 <? length withBrandA)%nat
    then sum_by Ch.gap withBrandA / of_nat (length withBrandA)
    else Fin 0 in
  DSum.mk d.(cdmiScore) d.(reachOverall) (length withBrandA) (length opportunities)
          (toFixed 2 avgGap) d.(confidence).

(** A district whose figures are finite numbers. *)
Definition finite_district (d : DistrictRecord) : bool :=
  is_finite d.(urbanPct) && is_finite d.(literacyPct) && is_finite d.(cdmiScore).

(** A region-level channel list with finite shares, and reaches that are
    0 or at least 0.02. *)
Definition reach_floor (ch : ChannelRecord) : bool :=
  negb (ch.(Ch.brandAReach) >? Fin 0) || (ch.(Ch.brandAReach) >=? Fin 0.02).

(* ================================================================== *)
(** ** Planner insights: opportunity score, top action, recommendation *)
(* ================================================================== *)

(** [Math.round]: the nearest integer, a tie going up. *)
Definition Math_round (x : number) : number :=
  match x with
  | Fin a => Fin (inject_Z (Qfloor (a + (1 # 2))))
  | _ => x
  end.

Definition calculateOpportunityScore (timebands : list TimebandMetrics) : number :=
  let vulnerableBands := List.filter (fun tb => tb.(Tb.gap) <? Fin (-2)) timebands in
  if (length vulnerableBands =? 0)%nat then Fin 0
  else
    let totalVulnerableGap := sum_by (fun tb => Math_abs tb.(Tb.gap)) vulnerableBands in
    let score := Math_min [Fin 100; totalVulnerableGap * Fin 10] in
    Math_round score.

Module Act.
Inductive Action : Type := INVEST | MAINTAIN | REDUCE.
End Act.

(** The [reason] of a top action: the template and the values it cites;
    the band is kept by its key, the text shows its display label. *)
Inductive ActionReason : Type :=
  | StrongPosition (gap : number)
  | BehindCompetitor (absGap : number) (timeband : string) (estimatedUplift : number).

Module Top.
Record TopAction : Type := mk {
  priority : Priority;
  timeband : string;
  action : Act.Action;
  reason : ActionReason;
  estimatedUplift : number
}.
End Top.

(** One round of the loop over [worstBand] and [worstGap]. *)
Definition worstStep (acc : option TimebandMetrics * number) (tb : TimebandMetrics)
  : option TimebandMetrics * number :=
  if tb.(Tb.gap) <? snd acc then (Some tb, tb.(Tb.gap)) else acc.

(** The branch taken when there is no significant gap. *)
Definition strongestBandAction (timebands : list TimebandMetrics) : option Top.TopAction :=
  let strongBands := List.filter (fun tb => tb.(Tb.gap) >? Fin 5) timebands in
  if (0 <? length strongBands)%nat then
    match sort_by (fun a b => b.(Tb.gap) - a.(Tb.gap)) strongBands with
    | best :: _ =>
        Some (Top.mk LOW best.(Tb.timeband) Act.MAINTAIN
                     (StrongPosition best.(Tb.gap)) (Fin 0))
    | [] => None
    end
  else None.

Definition findTopAction (timebands : list TimebandMetrics) : option Top.TopAction :=
  let worst := fold_left worstStep timebands (None, Fin 0) in
  let worstGap := snd worst in
  match fst worst with
  | None => strongestBandAction timebands
  | Some worstBand =>
      if worstGap >? Fin (-1) then strongestBandAction timebands
      else
        let priority :=
          if String.eqb worstBand.(Tb.timeband) "CPT" && (worstGap <? Fin (-5)) then HIGH
          else if Math_abs worstGap >? Fin 5 then HIGH
          else if Math_abs worstGap <? Fin 2 then LOW
          else MEDIUM in
        let estimatedUplift := Math_abs worstGap * Fin 0.4 in
        Some (Top.mk priority worstBand.(Tb.timeband) Act.INVEST
                     (BehindCompetitor (Math_abs worstGap) worstBand.(Tb.timeband)
                                       estimatedUplift)
                     estimatedUplift)
  end.

(** The three sentences of the recommendation, each by its template
    and the values it cites. *)
Inductive PrimeSentence : Type :=
  | HeavilyPrimeDependent (primePct : number)
  | BalancedDistribution (primePct nonPrimePct : number).

Inductive ActionSentence : Type :=
  | FocusInvestment (timeband : string)
  | MaintainStrategy
  | NoActionSentence.

Inductive InsightSentence : Type :=
  | NptUnderperforming
  | DominantCpt
  | MonitorMovements.

Inductive RecommendationText : Type :=
  | NoTimebandData
  | Sentences (first : PrimeSentence) (second : ActionSentence) (third : InsightSentence).

Definition generateRecommendation (timebands : list TimebandMetrics)
    (primeTimeFocus : number) (topAction : option Top.TopAction) : RecommendationText :=
  let isPrimeDependent := primeTimeFocus >? Fin 70 in
  let cpt := List.find (fun tb => String.eqb tb.(Tb.timeband) "CPT") timebands in
  let npt := List.find (fun tb => String.eqb tb.(Tb.timeband) "NPT") timebands in
  let first :=
    if isPrimeDependent then HeavilyPrimeDependent primeTimeFocus
    else BalancedDistribution primeTimeFocus (Fin 100 - primeTimeFocus) in
  let second :=
    match topAction with
    | Some a =>
        match a.(Top.action) with
        | Act.INVEST => FocusInvestment a.(Top.timeband)
        | Act.MAINTAIN => MaintainStrategy
        | Act.REDUCE => NoActionSentence
        end
    | None => NoActionSentence
    end in
  let third :=
    if match npt with
       | Some n => (n.(Tb.brandAReach) <? Fin 1.0) && isPrimeDependent
       | None => false
       end
    then NptUnderperforming
    else if match cpt with
            | Some c => c.(Tb.gap) >? Fin 5
            | None => false
            end
    then DominantCpt
    else MonitorMovements in
  Sentences first second third.

(** [topActionPriority]: a priority or 'NONE'. *)
Inductive ActionPriority : Type :=
  | PriorityOf (p : Priority)
  | NONE.

(** The [topAction] of the insights: the top action without its
    priority. *)
Module TopOut.
Record TopAction : Type := mk {
  timeband : string;
  action : Act.Action;
  reason : ActionReason;
  estimatedUplift : number
}.
End TopOut.

Module Ins.
Record SimplifiedPlannerInsights : Type := mk {
  primeTimeFocus : number;
  opportunityScore : number;
  topActionPriority : ActionPriority;
  topAction : option TopOut.TopAction;
  recommendation : RecommendationText
}.
End Ins.

Definition getEmptySimplifiedInsights : Ins.SimplifiedPlannerInsights :=
  Ins.mk (Fin 0) (Fin 0) NONE None NoTimebandData.

(** The market and the other channels are not used. *)
Definition generateSimplifiedInsights (channel : ChannelRecord) (_market : string)
    (_allChannelsInMarket : list ChannelRecord) : Ins.SimplifiedPlannerInsights :=
  match channel.(Ch.timebands) with
  | None => getEmptySimplifiedInsights
  | Some timebands =>
      if (length timebands =? 0)%nat then getEmptySimplifiedInsights
      else
        let primeTimeFocus := calculatePrimeTimeFocus timebands in
        let opportunityScore := calculateOpportunityScore timebands in
        let topAction := findTopAction timebands in
        let recommendation := generateRecommendation timebands primeTimeFocus topAction in
        Ins.mk primeTimeFocus opportunityScore
               (match topAction with
                | Some a => PriorityOf a.(Top.priority)
                | None => NONE
                end)
               (option_map (fun a => TopOut.mk a.(Top.timeband) a.(Top.action)
                                               a.(Top.reason) a.(Top.estimatedUplift))
                           topAction)
               recommendation
  end.

(** Four bands with the given gaps, reach 1 each. *)
Definition gapScenario (g0 g1 g2 g3 : Q) : list TimebandMetrics :=
  [ Tb.mk "NPT" (Fin 1) (Fin 0) (Fin 0) None None None None None
          (Fin (1 - g0)) (Fin g0) None false non_prime;
    Tb.mk "NCPT_EARLY" (Fin 1) (Fin 0) (Fin 0) None None None None None
          (Fin (1 - g1)) (Fin g1) None true non_core_prime;
    Tb.mk "CPT" (Fin 1) (Fin 0) (Fin 0) None None None None None
          (Fin (1 - g2)) (Fin g2) None true core_prime;
    Tb.mk "NCPT_LATE" (Fin 1) (Fin 0) (Fin 0) None None None None None
          (Fin (1 - g3)) (Fin g3) None true non_core_prime ].

(** A value that is +Infinity or a finite number of at least [k]. *)
Definition at_least (k : Q) (x : number) : Prop :=
  x = PosInf \/ exists t : Q, x = Fin t /\ (k <= t)%Q.

(** A channel whose bands have the gaps -1, -3, -6 and 2. *)
Definition insightChannel : ChannelRecord :=
  Ch.mk "Zee TV" "GEC" (Fin 4) (Fin 7) (Fin (-3)) (Fin 2) (Fin 100) (Fin 57)
        None None None None None None None
        (Some (gapScenario (-1) (-3) (-6) 2)) None None None None.

(* ================================================================== *)
(** ** Channel language filter *)
(* ================================================================== *)

(** The members of the set [HINDI_CHANNELS], in the order of the
    source. *)
Definition HINDI_CHANNELS : list string :=
  [ "BIG TV"; "Shemaroo Josh"; "Dangal 2"; "Goldmines"; "Ishara TV";
    "Manoranjan Prime"; "NKTV Plus"; "ON TV"; "Unique TV"; "Anmol TV"; "Big Magic";
    "Colors"; "Colors HD"; "Dangal"; "E24"; "Manoranjan TV"; "Manoranjan Grand"; "MTV";
    "Colors Rishtey"; "Sony Entertainment Television";
    "Sony Entertainment Television HD"; "Sony Pal"; "SONY SAB"; "SONY SAB HD";
    "STAR Bharat"; "STAR Bharat HD"; "STAR Plus HD"; "STAR Plus"; "STAR Utsav";
    "The Q"; "Zee TV"; "Zee TV HD"; "Zing"; "Zoom"; "&TV"; "&TV HD"; "Shemaroo TV";
    "Shemaroo Umang"; "Bflix(na)"; "Colors Cineplex Superhits";
    "Colors Cineplex Bollywood"; "Dabangg(na)"; "Goldmines Bollywood";
    "Goldmines Movies"; "Anmol Cinema"; "Anmol Cinema 2"; "Studio One Plus"; "Sun Neo";
    "Sun Neo HD"; "Zee Power"; "Zee Power HD"; "&pictures"; "&pictures HD";
    "&Xplor HD"; "B4U Movies"; "B4U Kadak"; "Colors Cineplex"; "Colors Cineplex HD";
    "Sony MAX 2"; "Sony Wah"; "STAR Gold 2"; "STAR Gold 2 HD"; "STAR Gold";
    "STAR Gold HD"; "STAR Gold Romance"; "STAR Gold Thrills"; "STAR Gold Select HD";
    "STAR Gold Select SD"; "STAR Utsav Movies"; "Zee Action"; "Zee Bollywood";
    "Zee Cinema"; "Zee Cinema HD"; "Zee Classic"; "Sony MAX1"; "Bharat Express(na)";
    "DD News HD"; "News18 Jammu/Kashmir/Ladakh/Himachal"; "1st India News";
    "India TV Speed News HD"; "India Daily 24x7"; "News 24 Madhyapradesh-Chattisgarh";
    "JKL 24x7 News"; "News State Bihar-Jharkhand"; "ND24- Newsdaily24.in";
    "News1 India(na)"; "NL TV"; "NB News(na)"; "NDTV Rajasthan";
    "NDTV Madhya Pradesh-Chhattisgarh"; "News State Punjab-Haryana-Himachal";
    "Swadesh News"; "Good News Today"; "Vistaar News"; "Zee Rajasthan"; "Zee Bharat";
    "Zee Delhi NCR Haryana"; "News State UP"; "TV 100(na)"; "Aaj Tak"; "Aaj Tak HD";
    "ABP News"; "Bansal News"; "Bharat Samachar"; "News18 Bihar Jharkhand";
    "News18 Madhya Pradesh Chattisgarh"; "News18 Rajasthan";
    "News18 Uttar Pradesh Uttarakhand"; "Gulistan News"; "IBC 24"; "News18 India";
    "India TV"; "INH 24x7"; "Khabar Fast"; "Khabrain Abhi Tak"; "Living India News";
    "Janta TV"; "News State Madhya Pradesh/Chhattisgarh"; "NDTV India"; "News 24";
    "News Nation"; "Republic Bharat"; "Sudarshan News"; "Swaraj Express SMBC";
    "Total TV"; "TV9 Bharatvarsh"; "Zee Business"; "Zee Madhya Pradesh Chhattisgarh";
    "Zee News"; "Zee Uttar Pradesh Uttarakhand"; "Zee Punjab Haryana Himachal";
    "Zee Bihar Jharkhand"; "Super Hungama(v)"; "ETV Bal Bharat SD(v)"; "Nazara";
    "Mastiii(na)"; "9X Jalwa"; "9XM"; "B4U Music"; "Music India"; "ShowBox";
    "STAR Sports Khel"; "Sony Sports Ten 5(v)"; "Sony Sports Ten 5 HD(v)";
    "Sony Sports Ten 3 Hindi HD"; "Sony Sports Ten 3 Hindi"; "STAR Sports 1 Hindi";
    "STAR Sports 1 HD Hindi"; "DD Sports"; "STAR Sports 2 Hindi(v)";
    "STAR Sports 2 Hindi HD(v)"; "Sony Sports Ten 4(v)(na)";
    "Sony Sports Ten 4 HD(v)(na)"; "OM TV"; "Prarthana Life"; "Satsang"; "Aastha";
    "Divya"; "Sanskar"; "CNBC Awaaz"; "CNBC Bazar"; "Food Food"; "DD Kisan";
    "DD Uttar Pradesh"; "DD Madhya Pradesh"; "DD National"; "DD News"; "DD Rajasthan";
    "All Time Movies"; "Asianet Movies HD"; "Epic TV(v)"; "Animal Planet HD(v)";
    "CBeebies(v)"; "Discovery HD(v)"; "Disney Channel HD(v)" ].

(** [HINDI_CHANNELS.has(channelName)]. *)
Definition isHindiChannel (channelName : string) : bool :=
  includes HINDI_CHANNELS channelName.

Definition filterChannelsForMarket (channels : list ChannelRecord) (market : string)
  : list ChannelRecord :=
  if String.eqb market "Karnataka" || String.eqb market "Maharashtra" then
    List.filter (fun channel => negb (isHindiChannel channel.(Ch.channel))) channels
  else channels.

Record FilteredChannelCount : Type := mkFilteredCount {
  original : nat;
  filtered : nat;
  removed : Z
}.

(** [removed] is the difference of two lengths. *)
Definition getFilteredChannelCount (channels : list ChannelRecord) (market : string)
  : FilteredChannelCount :=
  let original := length channels in
  let filtered := filterChannelsForMarket channels market in
  let filteredCount := length filtered in
  mkFilteredCount original filteredCount (Z.of_nat original - Z.of_nat filteredCount)%Z.

(* ================================================================== *)
(** ** Planner insights: the earlier, detailed report *)
(* ================================================================== *)

Module Pos.
End Pos.




Module Budget.
End Budget.



Module Prime.
End Prime.



Module Bench.
End Bench.



Module ActL.
Inductive Action : Type := ADD | INCREASE | DECREASE | MAINTAIN | EXIT.
End ActL.







Module Dyn.
End Dyn.


Module Legacy.
End Legacy.


Section LegacyInsights.

(** [Math.sqrt] is left uninterpreted, as in the comparison across
    markets. *)
Variable Math_sqrt : number -> number.



End LegacyInsights.

(** Four bands without reach, as a district leaves them for an absent
    channel. *)
Definition zeroBandsChannel : ChannelRecord :=
  absentChannel
    (upChannel "Tiny" "GEC" 0.1 2 1 0.1
       [ upTimeband "NPT" 0.1 1 1; upTimeband "NCPT_EARLY" 0 1 1;
         upTimeband "CPT" 0 1 1; upTimeband "NCPT_LATE" 0 1 1 ]).

(* ================================================================== *)
(** * Properties *)
(* ================================================================== *)

(** ** Facts about the number model *)

Lemma Qltb_lt (a b : Q) : Qltb a b = true <-> (a < b)%Q.
Proof.
  unfold Qltb. rewrite negb_true_iff.
  destruct (Qle_bool b a) eqn:E.
  - apply Qle_bool_iff in E. split; [discriminate | intros H; lra].
  - split; [intros _ | reflexivity].
    destruct (Qlt_le_dec a b) as [H | H]; [exact H |].
    apply Qle_bool_iff in H. congruence.
Qed.

Lemma Qltb_ge (a b : Q) : Qltb a b = false <-> (b <= a)%Q.
Proof.
  unfold Qltb. rewrite negb_false_iff. apply Qle_bool_iff.
Qed.

Lemma gt_fin_ge_fin (x : number) (a b : Q) :
  (b <= a)%Q -> (x >? Fin a) = true -> (x >=? Fin b) = true.
Proof.
  intros Hab. destruct x as [ | | | q]; simpl; try discriminate; try reflexivity.
  unfold gt, ge, lt, le. intros H%Qltb_lt. apply Qle_bool_iff. lra.
Qed.

Lemma gt_zero_not_zero (x : number) : (x >? Fin 0) = true -> (x === Fin 0) = false.
Proof.
  destruct x as [ | | | q]; simpl; try discriminate; try reflexivity.
  unfold gt, lt. intros H%Qltb_lt.
  destruct (Qeq_bool q 0) eqn:E; [apply Qeq_bool_iff in E; lra | reflexivity].
Qed.

(** ** Status ladder *)

(** C1.  For every channel record, [calculateStatus] returns the label of
    the first step of the five-step ladder whose guard holds (INACTIVE,
    OPPORTUNITY, INACTIVE, MONOPOLY, then DOMINANT / LEADING / CLOSE /
    BEHIND by the competitive index, CRITICAL otherwise), and the label
    returned is always one of the eight defined status labels. *)
Theorem calculateStatus_first_match_total (ch : ChannelRecord) :
  calculateStatus ch = first_match (status_ladder ch) "CRITICAL"
  /\ In (calculateStatus ch) status_labels.
Proof.
  unfold calculateStatus, status_ladder, status_labels; cbn [first_match].
  destruct (ch.(Ch.brandAReach) === Fin 0) eqn:Ha;
  destruct (ch.(Ch.maxCompReach) === Fin 0) eqn:Hm;
  destruct (ch.(Ch.maxCompReach) >=? Fin 2.0) eqn:Hm2;
  destruct (ch.(Ch.channelShare) >=? Fin 1.0) eqn:Hs;
  destruct (ch.(Ch.maxCompReach) >? Fin 0) eqn:Hm0;
  destruct (ch.(Ch.brandAReach) >? Fin 0) eqn:Ha0;
  destruct (ch.(Ch.indexVsCompetition) >=? Fin 150);
  destruct (ch.(Ch.indexVsCompetition) >=? Fin 100);
  destruct (ch.(Ch.indexVsCompetition) >=? Fin 80);
  destruct (ch.(Ch.indexVsCompetition) >=? Fin 50);
  cbn [andb negb In]; (split; [reflexivity | tauto]).
Qed.

(** ** Channel optimizer *)

Section OptimizerLoop.
Variables (P : list string) (intensity threshold : number).

Let step (results : gmap string OptimizationResult) (ch : ChannelRecord) :=
  match optimizeChannel P intensity threshold ch with
  | Some r => <[ch.(Ch.channel) := r]> results
  | None => results
  end.

(** Channels of other names leave the entry of [name] alone. *)
Lemma loop_lookup_other (l : list ChannelRecord) acc (name : string) :
  ~ In name (map Ch.channel l) ->
  fold_left step l acc !! name = acc !! name.
Proof.
  revert acc. induction l as [| c l IH]; intros acc Hn; [reflexivity |].
  cbn [fold_left]. rewrite IH by (intros H; apply Hn; right; exact H).
  unfold step. destruct (optimizeChannel P intensity threshold c); [| reflexivity].
  apply lookup_insert_ne. intros E. apply Hn. left. exact E.
Qed.

(** With distinct names, the entry of a channel is what its own
    iteration decided. *)
Lemma loop_lookup_own (l : list ChannelRecord) acc (ch : ChannelRecord) :
  List.NoDup (map Ch.channel l) -> In ch l ->
  fold_left step l acc !! ch.(Ch.channel) =
    match optimizeChannel P intensity threshold ch with
    | Some r => Some r
    | None => acc !! ch.(Ch.channel)
    end.
Proof.
  revert acc. induction l as [| c l IH]; intros acc Hnd Hin; [destruct Hin |].
  cbn [map] in Hnd. apply List.NoDup_cons_iff in Hnd as [Hc Hnd].
  cbn [fold_left]. destruct Hin as [-> | Hin].
  - rewrite loop_lookup_other by exact Hc.
    unfold step. destruct (optimizeChannel P intensity threshold ch).
    + apply lookup_insert_eq.
    + reflexivity.
  - rewrite IH by assumption.
    destruct (optimizeChannel P intensity threshold ch); [reflexivity |].
    unfold step. destruct (optimizeChannel P intensity threshold c); [| reflexivity].
    apply lookup_insert_ne. intros E. apply Hc. rewrite E.
    apply in_map. exact Hin.
Qed.

(** Every entry of the map was decided by the iteration of some
    channel of the list. *)
Lemma loop_entry_origin (l : list ChannelRecord) acc (name : string) r :
  fold_left step l acc !! name = Some r ->
  acc !! name = Some r \/
  exists ch, In ch l /\ optimizeChannel P intensity threshold ch = Some r.
Proof.
  revert acc. induction l as [| c l IH]; intros acc H; [left; exact H |].
  cbn [fold_left] in H. apply IH in H as [H | (ch & Hin & Hch)].
  - unfold step in H.
    destruct (optimizeChannel P intensity threshold c) as [rc |] eqn:Ec.
    + destruct (decide (c.(Ch.channel) = name)) as [<- | Hne].
      * rewrite lookup_insert_eq in H. injection H as <-.
        right. exists c. split; [left; reflexivity | exact Ec].
      * rewrite lookup_insert_ne in H by exact Hne. left. exact H.
    + left. exact H.
  - right. exists ch. split; [right; exact Hin | exact Hch].
Qed.
End OptimizerLoop.

(** The loop body never decides DECREASE: its guard asks for an index
    above 120 after the MAINTAIN rule has taken every index of at least
    100. *)
Lemma optimizeChannel_not_decrease P intensity threshold ch r :
  optimizeChannel P intensity threshold ch = Some r ->
  r.(Res.recommendation) <> DECREASE.
Proof.
  unfold optimizeChannel.
  destruct ((ch.(Ch.brandAReach) === Fin 0) && (ch.(Ch.maxCompReach) === Fin 0));
    [discriminate |].
  destruct ((ch.(Ch.brandAReach) === Fin 0) && (ch.(Ch.maxCompReach) >=? Fin 2.0)
            && (ch.(Ch.channelShare) >=? Fin 1.0)).
  { intros [= <-]. discriminate. }
  destruct ((ch.(Ch.brandAReach) >? Fin 0) && (ch.(Ch.gap) <? gapThreshold intensity)
            && (ch.(Ch.indexVsCompetition) <? indexThreshold intensity)).
  { intros [= <-]. discriminate. }
  destruct (includes P ch.(Ch.channel)); cbn [orb negb andb].
  { intros [= <-]. discriminate. }
  destruct (ch.(Ch.indexVsCompetition) >=? Fin 100) eqn:E100.
  { intros [= <-]. discriminate. }
  destruct (ch.(Ch.indexVsCompetition) >? Fin 120) eqn:E120.
  { apply (gt_fin_ge_fin _ 120 100) in E120; [congruence | lra]. }
  rewrite andb_false_r.
  destruct (ch.(Ch.brandAReach) >? Fin 0); [| discriminate].
  intros [= <-]. discriminate.
Qed.

(** C2.  For every channel list, intensity and threshold, no entry of the
    map returned by [runOptimization] recommends DECREASE. *)
Theorem runOptimization_never_decrease
    (channels : list ChannelRecord) (intensity threshold : number)
    (name : string) (r : OptimizationResult) :
  runOptimization channels intensity threshold !! name = Some r ->
  r.(Res.recommendation) <> DECREASE.
Proof.
  unfold runOptimization. intros H.
  apply loop_entry_origin in H as [H | (ch & _ & Hch)].
  - rewrite lookup_empty in H. discriminate.
  - eapply optimizeChannel_not_decrease. exact Hch.
Qed.

(** The low-reach, high-index channel is kept (MAINTAIN), not cut. *)
Lemma runOptimization_never_decrease_witness :
  runOptimization decreaseCandidates (Fin 15) (Fin 50) !! "Small"
  = Some (Res.mk "Small" MAINTAIN LOW LeadingCompetition)
  /\ (Res.mk "Small" MAINTAIN LOW LeadingCompetition).(Res.recommendation) <> DECREASE.
Proof.
  split.
  - vm_compute. reflexivity.
  - apply (runOptimization_never_decrease decreaseCandidates (Fin 15) (Fin 50) "Small").
    vm_compute. reflexivity.
Defined.

Lemma ge_pos_not_zero (x : number) (a : Q) :
  (0 < a)%Q -> (x >=? Fin a) = true -> (x === Fin 0) = false.
Proof.
  intros Ha. destruct x as [ | | | q]; simpl; try discriminate; try reflexivity.
  unfold ge, le. intros H%Qle_bool_iff.
  destruct (Qeq_bool q 0) eqn:E; [apply Qeq_bool_iff in E; lra | reflexivity].
Qed.

(** C3.  A channel with brandAReach = 0, maxCompReach >= 2.0 and
    channelShare >= 1.0 has status OPPORTUNITY, and its iteration of the
    optimizer loop sets the entry ADD, with priority HIGH if
    maxCompReach > 5, MEDIUM if maxCompReach > 3, else LOW; when the
    channel names of the list are distinct, that entry is the one the
    returned map holds for the channel. *)
Theorem runOptimization_opportunity_add
    (channels : list ChannelRecord) (intensity threshold : number) (ch : ChannelRecord) :
  (ch.(Ch.brandAReach) === Fin 0) = true ->
  (ch.(Ch.maxCompReach) >=? Fin 2.0) = true ->
  (ch.(Ch.channelShare) >=? Fin 1.0) = true ->
  let entry :=
    Res.mk ch.(Ch.channel) ADD
      (if ch.(Ch.maxCompReach) >? Fin 5 then HIGH
       else if ch.(Ch.maxCompReach) >? Fin 3 then MEDIUM else LOW)
      (CompetitorAtShare ch.(Ch.maxCompReach) ch.(Ch.channelShare)) in
  calculateStatus ch = "OPPORTUNITY"
  /\ optimizeChannel (getProtectedChannels channels threshold) intensity threshold ch
     = Some entry
  /\ (List.NoDup (map Ch.channel channels) -> In ch channels ->
      runOptimization channels intensity threshold !! ch.(Ch.channel) = Some entry).
Proof.
  intros Ha Hm Hs entry.
  assert (Hm0 : (ch.(Ch.maxCompReach) === Fin 0) = false)
    by (apply (ge_pos_not_zero _ 2.0); [reflexivity | exact Hm]).
  assert (Hbody : optimizeChannel (getProtectedChannels channels threshold)
                    intensity threshold ch = Some entry).
  { unfold optimizeChannel. rewrite Ha, Hm0, Hm, Hs. reflexivity. }
  split; [| split; [exact Hbody |]].
  - unfold calculateStatus. rewrite Ha, Hm0, Hm, Hs. reflexivity.
  - intros Hnd Hin. unfold runOptimization.
    rewrite loop_lookup_own by assumption. rewrite Hbody. reflexivity.
Qed.

(** The scenario of the specification: brandAReach = 0, maxCompReach =
    3.0, channelShare = 2.0. *)
Lemma runOptimization_opportunity_add_witness :
  calculateStatus opportunityChannel = "OPPORTUNITY"
  /\ runOptimization opportunityScenario (Fin 15) (Fin 70) !! "Rival" =
       Some (Res.mk "Rival" ADD LOW (CompetitorAtShare (Fin 3.0) (Fin 2.0))).
Proof.
  destruct (runOptimization_opportunity_add opportunityScenario (Fin 15) (Fin 70)
              opportunityChannel) as (Hstatus & _ & Hmap).
  - reflexivity.
  - reflexivity.
  - reflexivity.
  - split; [exact Hstatus |]. apply Hmap.
    + apply NoDup_ListNoDup. apply (bool_decide_unpack _). vm_compute. reflexivity.
    + right. left. reflexivity.
Defined.

(** C4.  The two thresholds derive from the intensity as -3 / -2 / -1 and
    70 / 80 / 90 at the cut points 10 and 20.  For a channel with
    brandAReach > 0, gap below the gap threshold and index below the
    index threshold (the ADD rule cannot match it), the iteration of the
    optimizer loop sets the entry INCREASE, with priority HIGH if
    gap < -5, MEDIUM if gap < -2, else LOW; when the channel names of
    the list are distinct, that entry is the one the returned map holds
    for the channel. *)
Theorem runOptimization_increase
    (channels : list ChannelRecord) (intensity threshold : number) (ch : ChannelRecord) :
  (ch.(Ch.brandAReach) >? Fin 0) = true ->
  (ch.(Ch.gap) <? gapThreshold intensity) = true ->
  (ch.(Ch.indexVsCompetition) <? indexThreshold intensity) = true ->
  let entry :=
    Res.mk ch.(Ch.channel) INCREASE
      (if ch.(Ch.gap) <? Fin (-5) then HIGH
       else if ch.(Ch.gap) <? Fin (-2) then MEDIUM else LOW)
      (GapOfIndex ch.(Ch.gap) ch.(Ch.indexVsCompetition)) in
  ((intensity <=? Fin 10) = true ->
     gapThreshold intensity = Fin (-3) /\ indexThreshold intensity = Fin 70)
  /\ ((intensity <=? Fin 10) = false -> (intensity <=? Fin 20) = true ->
     gapThreshold intensity = Fin (-2) /\ indexThreshold intensity = Fin 80)
  /\ ((intensity <=? Fin 10) = false -> (intensity <=? Fin 20) = false ->
     gapThreshold intensity = Fin (-1) /\ indexThreshold intensity = Fin 90)
  /\ ((ch.(Ch.brandAReach) === Fin 0) && (ch.(Ch.maxCompReach) >=? Fin 2.0)
      && (ch.(Ch.channelShare) >=? Fin 1.0)) = false
  /\ optimizeChannel (getProtectedChannels channels threshold) intensity threshold ch
     = Some entry
  /\ (List.NoDup (map Ch.channel channels) -> In ch channels ->
      runOptimization channels intensity threshold !! ch.(Ch.channel) = Some entry).
Proof.
  intros Ha Hg Hi entry.
  assert (Hbody : optimizeChannel (getProtectedChannels channels threshold)
                    intensity threshold ch = Some entry).
  { unfold optimizeChannel.
    rewrite (gt_zero_not_zero _ Ha), Ha, Hg, Hi. reflexivity. }
  split; [| split; [| split; [| split; [| split; [exact Hbody |]]]]].
  - intros H10. unfold gapThreshold, indexThreshold. rewrite H10. split; reflexivity.
  - intros H10 H20. unfold gapThreshold, indexThreshold. rewrite H10, H20.
    split; reflexivity.
  - intros H10 H20. unfold gapThreshold, indexThreshold. rewrite H10, H20.
    split; reflexivity.
  - rewrite (gt_zero_not_zero _ Ha). reflexivity.
  - intros Hnd Hin. unfold runOptimization.
    rewrite loop_lookup_own by assumption. rewrite Hbody. reflexivity.
Qed.

(** The scenario of the specification: brandAReach = 5.0, gap = -6.0,
    index 60, intensity 15, threshold 70, the channel outside the
    protected set. *)
Lemma runOptimization_increase_witness :
  includes (getProtectedChannels increaseScenario (Fin 70)) "Trailing" = false
  /\ gapThreshold (Fin 15) = Fin (-2) /\ indexThreshold (Fin 15) = Fin 80
  /\ runOptimization increaseScenario (Fin 15) (Fin 70) !! "Trailing" =
       Some (Res.mk "Trailing" INCREASE HIGH (GapOfIndex (Fin (-6.0)) (Fin 60))).
Proof.
  split; [vm_compute; reflexivity |].
  destruct (runOptimization_increase increaseScenario (Fin 15) (Fin 70) trailingChannel)
    as (_ & H2 & _ & _ & _ & Hmap).
  - reflexivity.
  - reflexivity.
  - reflexivity.
  - destruct H2 as [Hg Hi]; [reflexivity | reflexivity |].
    split; [exact Hg |]. split; [exact Hi |]. apply Hmap.
    + apply NoDup_ListNoDup. apply (bool_decide_unpack _). vm_compute. reflexivity.
    + do 3 right. left. reflexivity.
Defined.

(** ** Protected channels *)

Lemma le_trans (x y z : number) :
  (x <=? y) = true -> (y <=? z) = true -> (x <=? z) = true.
Proof.
  destruct x as [ | | | a], y as [ | | | b], z as [ | | | c];
    cbn; try discriminate; try reflexivity.
  intros H1%Qle_bool_iff H2%Qle_bool_iff. apply Qle_bool_iff. lra.
Qed.

Lemma sub_pos_le (x y : number) :
  (y - x >? Fin 0) = true -> (x <=? y) = true.
Proof.
  destruct x as [ | | | a], y as [ | | | b];
    cbn; try discriminate; try reflexivity.
  unfold gt, lt. intros H%Qltb_lt. apply Qle_bool_iff. lra.
Qed.

Lemma sub_not_pos_le (x y : number) :
  (x >? Fin 0) = true -> (y >? Fin 0) = true ->
  (y - x >? Fin 0) = false -> (y <=? x) = true.
Proof.
  destruct x as [ | | | a], y as [ | | | b];
    cbn; try discriminate; try reflexivity.
  unfold gt, lt. intros _ _ H%Qltb_ge. apply Qle_bool_iff. lra.
Qed.

Section DescendingSort.
(** The comparator of [getProtectedChannels] and the order it yields. *)
Let cmp (a b : ChannelRecord) : number := b.(Ch.brandAReach) - a.(Ch.brandAReach).
Let desc (a b : ChannelRecord) : Prop := (b.(Ch.brandAReach) <=? a.(Ch.brandAReach)) = true.
Let positive (c : ChannelRecord) : Prop := (c.(Ch.brandAReach) >? Fin 0) = true.

Lemma insert_by_perm (x : ChannelRecord) (l : list ChannelRecord) :
  Permutation (insert_by cmp x l) (x :: l).
Proof.
  induction l as [| y l IH]; cbn [insert_by]; [reflexivity |].
  destruct (cmp x y >? Fin 0); [| reflexivity].
  rewrite IH. apply perm_swap.
Qed.

Lemma sort_by_perm (l : list ChannelRecord) : Permutation (sort_by cmp l) l.
Proof.
  induction l as [| x l IH]; cbn; [reflexivity |].
  fold (sort_by cmp l). rewrite insert_by_perm, IH. reflexivity.
Qed.

Lemma insert_by_sorted (x : ChannelRecord) (l : list ChannelRecord) :
  positive x -> Forall positive l ->
  StronglySorted desc l -> StronglySorted desc (insert_by cmp x l).
Proof.
  intros Hx Hl Hs. induction Hs as [| y l Hs IH Hy]; cbn [insert_by].
  - repeat constructor.
  - apply Forall_cons_iff in Hl as [Hpy Hpl].
    destruct (cmp x y >? Fin 0) eqn:E.
    + constructor; [apply IH; exact Hpl |].
      rewrite (insert_by_perm x l). constructor; [| exact Hy].
      apply sub_pos_le. exact E.
    + assert (Hyx : desc x y) by (apply sub_not_pos_le; assumption).
      constructor; [constructor; assumption |].
      constructor; [exact Hyx |].
      eapply Forall_impl; [exact Hy |]. intros z Hz.
      unfold desc in *. eapply le_trans; eassumption.
Qed.

Lemma sort_by_sorted (l : list ChannelRecord) :
  Forall positive l -> StronglySorted desc (sort_by cmp l).
Proof.
  induction l as [| x l IH]; intros Hl; cbn; [constructor |].
  apply Forall_cons_iff in Hl as [Hx Hl]. fold (sort_by cmp l).
  apply insert_by_sorted; [exact Hx | | apply IH; exact Hl].
  rewrite sort_by_perm. exact Hl.
Qed.
End DescendingSort.


(** ** Rounding to binary64 *)

Section Binary64Rounding.
Local Open Scope Q_scope.

(** *** Powers of two *)

Lemma pow2_pos (e : Z) : 0 < 2 ^ e.
Proof. apply Qpower_0_lt. reflexivity. Qed.

Lemma pow2_plus (a b : Z) : 2 ^ (a + b) == 2 ^ a * 2 ^ b.
Proof. apply Qpower_plus. discriminate. Qed.

Lemma pow2_le (a b : Z) : (a <= b)%Z -> 2 ^ a <= 2 ^ b.
Proof. intros H. apply Qpower_le_compat_l; [exact H | discriminate]. Qed.

Lemma pow2_inject (k : Z) : (0 <= k)%Z -> inject_Z (2 ^ k) == 2 ^ k.
Proof. intros H. apply (Zpower_Qpower 2 k H). Qed.

(** The bracket [2^(log2 n) <= n < 2^(log2 n + 1)] of a positive
    integer, read in Q. *)
Lemma log2_bracket (n : Z) :
  (0 < n)%Z ->
  2 ^ Z.log2 n <= inject_Z n /\ inject_Z n < 2 ^ (Z.log2 n + 1).
Proof.
  intros Hn. destruct (Z.log2_spec n Hn) as [Hlo Hhi].
  pose proof (Z.log2_nonneg n) as H0.
  rewrite <- !pow2_inject by lia. rewrite <- Zle_Qle, <- Zlt_Qlt.
  split; [exact Hlo | exact Hhi].
Qed.

Lemma Qlog2_spec (a : Q) :
  0 < a -> 2 ^ Qlog2 a <= a /\ a < 2 ^ (Qlog2 a + 1).
Proof.
  intros Ha. unfold Qlog2.
  destruct a as [n d]. cbn [Qnum Qden].
  assert (Hn : (0 < n)%Z) by (unfold Qlt in Ha; cbn in Ha; lia).
  destruct (log2_bracket n Hn) as [Hn1 Hn2].
  destruct (log2_bracket (Zpos d) eq_refl) as [Hd1 Hd2].
  set (ln := Z.log2 n) in *. set (ld := Z.log2 (Zpos d)) in *.
  assert (E : (n # d) * inject_Z (Zpos d) == inject_Z n).
  { rewrite (Qmake_Qdiv n d). field. discriminate. }
  pose proof (pow2_pos ld) as Pd.
  destruct (Qle_bool (2 ^ (ln - ld)) (n # d)) eqn:T.
  - apply Qle_bool_iff in T. split; [exact T |].
    pose proof (pow2_plus (ln - ld + 1) ld) as Ep.
    replace (ln - ld + 1 + ld)%Z with (ln + 1)%Z in Ep by lia.
    pose proof (pow2_pos (ln - ld + 1)) as Pe.
    set (p := 2 ^ (ln - ld + 1)) in *. set (pd := 2 ^ ld) in *.
    set (pn := 2 ^ (ln + 1)) in *.
    set (D := inject_Z (Zpos d)) in *. set (a := n # d) in *.
    clearbody p pd pn D a.
    apply Qnot_le_lt. intros Hc.
    assert (H1 : p * D <= a * D) by (apply Qmult_le_compat_r; lra).
    assert (H2 : p * pd <= p * D) by (apply Qmult_le_l; lra).
    nra.
  - assert (T' : (n # d) < 2 ^ (ln - ld)).
    { apply Qnot_le_lt. intros Hc. apply Qle_bool_iff in Hc. congruence. }
    replace (ln - ld - 1 + 1)%Z with (ln - ld)%Z by lia.
    split; [| exact T'].
    pose proof (pow2_plus (ln - ld - 1) (ld + 1)) as Ep.
    replace (ln - ld - 1 + (ld + 1))%Z with ln in Ep by lia.
    pose proof (pow2_pos (ln - ld - 1)) as Pe.
    set (p := 2 ^ (ln - ld - 1)) in *. set (pd := 2 ^ (ld + 1)) in *.
    set (pn := 2 ^ ln) in *.
    set (D := inject_Z (Zpos d)) in *. set (a := n # d) in *.
    clearbody p pd pn D a.
    apply Qnot_lt_le. intros Hc.
    assert (H1 : a * D <= p * D) by (apply Qmult_le_compat_r; lra).
    assert (H2 : p * D <= p * pd) by (apply Qmult_le_l; lra).
    nra.
Qed.

Lemma Qlog2_monotone (x y : Q) : 0 < x -> x <= y -> (Qlog2 x <= Qlog2 y)%Z.
Proof.
  intros Hx Hxy.
  destruct (Qlog2_spec x Hx) as [Hx1 _].
  destruct (Qlog2_spec y) as [_ Hy2]; [lra |].
  destruct (Z_le_gt_dec (Qlog2 x) (Qlog2 y)) as [H | H]; [exact H | exfalso].
  pose proof (pow2_le (Qlog2 y + 1) (Qlog2 x)) as Hp.
  assert (Hle : (Qlog2 y + 1 <= Qlog2 x)%Z) by lia.
  specialize (Hp Hle). lra.
Qed.

(** *** Rounding to the nearest integer, ties to even *)

Lemma round_half_even_spec (u : Q) :
  let f := Qfloor u in
  (u - inject_Z f < 1 # 2 /\ round_half_even u = f)
  \/ (1 # 2 < u - inject_Z f /\ round_half_even u = (f + 1)%Z)
  \/ (u - inject_Z f == 1 # 2
      /\ round_half_even u = if Z.even f then f else (f + 1)%Z).
Proof.
  cbn zeta. unfold round_half_even.
  destruct (Qcompare_spec (u - inject_Z (Qfloor u)) (1 # 2)) as [H | H | H].
  - right. right. split; [exact H | reflexivity].
  - left. split; [exact H | reflexivity].
  - right. left. split; [exact H | reflexivity].
Qed.

Lemma floor_bracket (u : Q) :
  inject_Z (Qfloor u) <= u /\ u < inject_Z (Qfloor u) + 1.
Proof.
  split; [apply Qfloor_le |].
  pose proof (Qlt_floor u) as H. rewrite inject_Z_plus in H. exact H.
Qed.

Lemma round_half_even_near (u : Q) :
  inject_Z (round_half_even u) - (1 # 2) <= u
  /\ u <= inject_Z (round_half_even u) + (1 # 2).
Proof.
  destruct (floor_bracket u) as [Hlo Hhi].
  destruct (round_half_even_spec u) as [[H ->] | [[H ->] | [H ->]]];
    try destruct (Z.even (Qfloor u));
    rewrite ?inject_Z_plus; change (inject_Z 1) with 1; split; lra.
Qed.

Lemma round_half_even_monotone (u v : Q) :
  u <= v -> (round_half_even u <= round_half_even v)%Z.
Proof.
  intros Huv.
  pose proof (Qfloor_resp_le u v Huv) as Hf.
  destruct (floor_bracket u) as [Hu1 Hu2], (floor_bracket v) as [Hv1 Hv2].
  destruct (Z.eq_dec (Qfloor u) (Qfloor v)) as [E | N].
  - destruct (round_half_even_spec u) as [[Hu ->] | [[Hu ->] | [Hu ->]]];
      destruct (round_half_even_spec v) as [[Hv ->] | [[Hv ->] | [Hv ->]]];
      rewrite <- ?E in *; try destruct (Z.even (Qfloor u)); try lia; exfalso; lra.
  - assert (Hlt : (Qfloor u + 1 <= Qfloor v)%Z) by lia.
    assert (Hu : (round_half_even u <= Qfloor u + 1)%Z).
    { destruct (round_half_even_spec u) as [[_ ->] | [[_ ->] | [_ ->]]];
        try destruct (Z.even (Qfloor u)); lia. }
    assert (Hv : (Qfloor v <= round_half_even v)%Z).
    { destruct (round_half_even_spec v) as [[_ ->] | [[_ ->] | [_ ->]]];
        try destruct (Z.even (Qfloor v)); lia. }
    lia.
Qed.

Lemma round_half_even_Z (k : Z) : round_half_even (inject_Z k) = k.
Proof.
  destruct (round_half_even_spec (inject_Z k)) as [[_ H] | [[H _] | [H _]]];
    rewrite Qfloor_Z in *; [exact H | exfalso; lra | exfalso; lra].
Qed.

Lemma round_half_even_ge (k : Z) (u : Q) :
  inject_Z k <= u -> (k <= round_half_even u)%Z.
Proof.
  intros H. rewrite <- (round_half_even_Z k) at 1.
  apply round_half_even_monotone. exact H.
Qed.

Lemma round_half_even_le (k : Z) (u : Q) :
  u <= inject_Z k -> (round_half_even u <= k)%Z.
Proof.
  intros H. rewrite <- (round_half_even_Z k).
  apply round_half_even_monotone. exact H.
Qed.

Lemma round_half_even_comp (u v : Q) : u == v -> round_half_even u = round_half_even v.
Proof.
  intros H.
  assert (Ef : Qfloor u = Qfloor v) by (apply Qfloor_comp; exact H).
  assert (Ec : Qcompare (u - inject_Z (Qfloor u)) (1 # 2)
               = Qcompare (v - inject_Z (Qfloor v)) (1 # 2)).
  { apply Qcompare_comp; [rewrite Ef, H; reflexivity | reflexivity]. }
  unfold round_half_even. rewrite Ec, Ef. reflexivity.
Qed.

(** *** Rounding a positive rational to binary64 *)

Lemma Qdiv_pow2_le (a b : Q) (e : Z) : a <= b -> a / 2 ^ e <= b / 2 ^ e.
Proof.
  intros H. apply Qmult_le_compat_r; [exact H |].
  apply Qinv_le_0_compat. apply Qlt_le_weak, pow2_pos.
Qed.

Lemma Qdiv_pow2 (a b : Z) : 2 ^ a / 2 ^ b == 2 ^ (a - b).
Proof.
  pose proof (pow2_plus (a - b) b) as E.
  replace (a - b + b)%Z with a in E by lia.
  rewrite E. field. pose proof (pow2_pos b). lra.
Qed.

Lemma ulp_exponent_bracket (a : Q) :
  0 < a -> a < 2 ^ (ulp_exponent a + 53).
Proof.
  intros Ha. destruct (Qlog2_spec a Ha) as [_ H].
  eapply Qlt_le_trans; [exact H |]. apply pow2_le. unfold ulp_exponent. lia.
Qed.

Lemma round_pos_nonneg (a : Q) : 0 <= a -> 0 <= round_pos a.
Proof.
  intros Ha. unfold round_pos.
  apply Qmult_le_0_compat; [| apply Qlt_le_weak, pow2_pos].
  change 0 with (inject_Z 0). rewrite <- Zle_Qle.
  apply round_half_even_ge. change (inject_Z 0) with 0.
  apply Qle_shift_div_l; [apply pow2_pos | lra].
Qed.

Lemma round_pos_upper (a : Q) :
  0 < a -> round_pos a <= 2 ^ (ulp_exponent a + 53).
Proof.
  intros Ha. unfold round_pos.
  pose proof (ulp_exponent_bracket a Ha) as H.
  set (e := ulp_exponent a) in *.
  rewrite (Z.add_comm e 53), pow2_plus.
  apply Qmult_le_compat_r; [| apply Qlt_le_weak, pow2_pos].
  rewrite <- (pow2_inject 53) by lia. rewrite <- Zle_Qle.
  apply round_half_even_le. rewrite pow2_inject by lia.
  rewrite <- (Z.add_simpl_r 53 e), <- Qdiv_pow2.
  apply Qdiv_pow2_le. rewrite Z.add_comm. lra.
Qed.

Lemma round_pos_lower (a : Q) :
  0 < a -> (-1022 <= Qlog2 a)%Z -> 2 ^ Qlog2 a <= round_pos a.
Proof.
  intros Ha Hn. unfold round_pos.
  destruct (Qlog2_spec a Ha) as [H _].
  assert (E : ulp_exponent a = (Qlog2 a - 52)%Z) by (unfold ulp_exponent; lia).
  rewrite E. set (e := (Qlog2 a - 52)%Z).
  assert (El : Qlog2 a = (52 + e)%Z) by (unfold e; lia).
  rewrite El at 1. rewrite pow2_plus.
  apply Qmult_le_compat_r; [| apply Qlt_le_weak, pow2_pos].
  rewrite <- pow2_inject by lia. rewrite <- Zle_Qle.
  apply round_half_even_ge. rewrite pow2_inject by lia.
  replace 52%Z with (Qlog2 a - e)%Z by lia. rewrite <- Qdiv_pow2.
  apply Qdiv_pow2_le. exact H.
Qed.

Lemma round_pos_monotone (x y : Q) :
  0 < x -> x <= y -> round_pos x <= round_pos y.
Proof.
  intros Hx Hxy.
  assert (Hy : 0 < y) by lra.
  pose proof (Qlog2_monotone x y Hx Hxy) as Hl.
  destruct (Z.eq_dec (ulp_exponent x) (ulp_exponent y)) as [E | N].
  - unfold round_pos. rewrite E.
    apply Qmult_le_compat_r; [| apply Qlt_le_weak, pow2_pos].
    rewrite <- Zle_Qle. apply round_half_even_monotone.
    apply Qdiv_pow2_le. exact Hxy.
  - assert (Hn : (-1022 <= Qlog2 y)%Z /\ (ulp_exponent x + 53 <= Qlog2 y)%Z)
      by (unfold ulp_exponent in *; lia).
    destruct Hn as [Hn Hlt].
    eapply Qle_trans; [apply round_pos_upper; exact Hx |].
    eapply Qle_trans; [apply pow2_le; exact Hlt |].
    apply round_pos_lower; assumption.
Qed.

(** The integers up to 2^53 are binary64 values. *)
Lemma round_pos_integer (n : Z) :
  (0 < n <= 2 ^ 53)%Z -> round_pos (inject_Z n) == inject_Z n.
Proof.
  intros [Hn Hmax]. unfold round_pos.
  assert (Ha : 0 < inject_Z n) by (change 0 with (inject_Z 0); rewrite <- Zlt_Qlt; exact Hn).
  destruct (Qlog2_spec (inject_Z n) Ha) as [Hlo _].
  assert (Hl : (Qlog2 (inject_Z n) <= 53)%Z).
  { apply (Qpower_le_compat_l_inv 2); [| reflexivity].
    eapply Qle_trans; [exact Hlo |].
    rewrite <- pow2_inject by lia. rewrite <- Zle_Qle. exact Hmax. }
  assert (Hl0 : (0 <= Qlog2 (inject_Z n))%Z).
  { destruct (Qlog2_spec (inject_Z n) Ha) as [_ Hhi].
    apply Z.lt_succ_r. apply (Qpower_lt_compat_l_inv 2); [| reflexivity].
    eapply Qle_lt_trans; [| exact Hhi].
    change (2 ^ 0) with (inject_Z 1). rewrite <- Zle_Qle. lia. }
  set (e := ulp_exponent (inject_Z n)).
  assert (He : (-52 <= e <= 1)%Z) by (unfold e, ulp_exponent; lia).
  destruct (Z_le_gt_dec e 0) as [Hneg | Hpos].
  - (* the last place is at or below the units *)
    assert (E : inject_Z n / 2 ^ e == inject_Z (n * 2 ^ (- e))).
    { rewrite inject_Z_mult, pow2_inject by lia.
      rewrite Qpower_opp. field. pose proof (pow2_pos e). lra. }
    assert (R : round_half_even (inject_Z n / 2 ^ e) = (n * 2 ^ (- e))%Z).
    { rewrite (round_half_even_comp _ _ E). apply round_half_even_Z. }
    rewrite R, inject_Z_mult, pow2_inject by lia.
    rewrite Qpower_opp. field. pose proof (pow2_pos e). lra.
  - (* n = 2^53, the last place is 2 *)
    assert (E1 : e = 1%Z) by lia.
    assert (En : n = (2 ^ 53)%Z).
    { assert (Hl53 : Qlog2 (inject_Z n) = 53%Z) by (unfold e, ulp_exponent in E1; lia).
      rewrite Hl53 in Hlo. rewrite <- pow2_inject in Hlo by lia.
      rewrite <- Zle_Qle in Hlo. lia. }
    rewrite E1, En. vm_compute. reflexivity.
Qed.

Lemma Qabs_of_pos (q : Q) : 0 < q -> Qabs q = q.
Proof.
  destruct q as [[ | p | p] d]; intros H; try reflexivity;
    unfold Qlt in H; cbn in H; lia.
Qed.

Lemma binary64_zero (q : Q) : q == 0 -> binary64 q = Fin 0.
Proof.
  intros H. unfold binary64. apply Qeq_bool_iff in H. rewrite H. reflexivity.
Qed.

Lemma binary64_pos (q : Q) :
  0 < q ->
  binary64 q = if Qle_bool (2 ^ 1024) (round_pos q) then PosInf else Fin (round_pos q).
Proof.
  intros H. unfold binary64.
  assert (E0 : Qeq_bool q 0 = false).
  { destruct (Qeq_bool q 0) eqn:E; [apply Qeq_bool_iff in E; lra | reflexivity]. }
  assert (El : Qltb q 0 = false) by (apply Qltb_ge; lra).
  rewrite E0, El, (Qabs_of_pos q H). reflexivity.
Qed.

End Binary64Rounding.

(** *** Numbers that are not negative *)

(** A number that is not negative: +Infinity or a finite value that is
    at least 0. *)
Lemma nonneg_cases (x : number) :
  (Fin 0 <=? x) = true -> x = PosInf \/ exists a, x = Fin a /\ (0 <= a)%Q.
Proof.
  destruct x as [ | | | a]; cbn; try discriminate.
  - intros _. left. reflexivity.
  - intros H%Qle_bool_iff. right. exists a. split; [reflexivity | exact H].
Qed.

Lemma binary64_nonneg (q : Q) : (0 <= q)%Q -> (Fin 0 <=? binary64 q) = true.
Proof.
  intros H. destruct (Qlt_le_dec 0 q) as [Hp | Hz].
  - rewrite (binary64_pos q Hp).
    destruct (Qle_bool (2 ^ 1024) (round_pos q)); [reflexivity |].
    apply Qle_bool_iff. apply round_pos_nonneg. exact H.
  - rewrite binary64_zero by lra. reflexivity.
Qed.

Lemma binary64_monotone (x y : Q) :
  (0 <= x)%Q -> (x <= y)%Q -> (binary64 x <=? binary64 y) = true.
Proof.
  intros Hx Hxy. destruct (Qlt_le_dec 0 x) as [Hp | Hz].
  - assert (Hy : (0 < y)%Q) by lra.
    pose proof (round_pos_monotone x y Hp Hxy) as Hr.
    rewrite (binary64_pos x Hp), (binary64_pos y Hy).
    destruct (Qle_bool (2 ^ 1024) (round_pos x)) eqn:Ex.
    + apply Qle_bool_iff in Ex.
      assert (Ey : Qle_bool (2 ^ 1024) (round_pos y) = true)
        by (apply Qle_bool_iff; eapply Qle_trans; eassumption).
      rewrite Ey. reflexivity.
    + destruct (Qle_bool (2 ^ 1024) (round_pos y)); [reflexivity |].
      apply Qle_bool_iff. exact Hr.
  - rewrite (binary64_zero x) by lra. apply binary64_nonneg. lra.
Qed.

Lemma round64_monotone (x y : number) :
  (Fin 0 <=? x) = true -> (x <=? y) = true ->
  (Fin 0 <=? round64 x) = true /\ (round64 x <=? round64 y) = true.
Proof.
  intros Hx Hxy.
  destruct (nonneg_cases x Hx) as [-> | (a & -> & Ha)].
  - destruct y; try discriminate. split; reflexivity.
  - split; [apply binary64_nonneg; exact Ha |].
    destruct y as [ | | | b]; try discriminate.
    + cbn [round64]. pose proof (binary64_nonneg a Ha) as Hb.
      destruct (binary64 a); try discriminate; reflexivity.
    + apply Qle_bool_iff in Hxy. apply binary64_monotone; assumption.
Qed.

Lemma div_100_fin (a : Q) : Fin a / Fin 100 = Fin (a / 100).
Proof. reflexivity. Qed.

Lemma div_100_monotone (x y : number) :
  (Fin 0 <=? x) = true -> (x <=? y) = true ->
  (Fin 0 <=? x / Fin 100) = true /\ (x / Fin 100 <=? y / Fin 100) = true.
Proof.
  intros Hx Hxy.
  destruct (nonneg_cases x Hx) as [-> | (a & -> & Ha)].
  - destruct y; try discriminate. split; reflexivity.
  - rewrite div_100_fin.
    assert (H0 : (0 <= a / 100)%Q) by (apply Qle_shift_div_l; [reflexivity | lra]).
    split; [apply Qle_bool_iff; exact H0 |].
    destruct y as [ | | | b]; try discriminate; [reflexivity |].
    apply Qle_bool_iff in Hxy. rewrite div_100_fin.
    apply Qle_bool_iff. apply Qmult_le_compat_r; [exact Hxy | discriminate].
Qed.

Lemma of_nat_positive (n : nat) : (0 < n)%nat -> (0 < inject_Z (Z.of_nat n))%Q.
Proof. intros H. change 0%Q with (inject_Z 0). rewrite <- Zlt_Qlt. lia. Qed.

Lemma mul_of_nat_fin (n : nat) (a : Q) :
  of_nat n * Fin a = Fin (inject_Z (Z.of_nat n) * a).
Proof. reflexivity. Qed.

Lemma mul_of_nat_inf (n : nat) : (0 < n)%nat -> of_nat n * PosInf = PosInf.
Proof.
  intros H%of_nat_positive. unfold of_nat. cbn [mul].
  apply Qgt_alt in H. rewrite H. reflexivity.
Qed.

Lemma mul_of_nat_monotone (n : nat) (x y : number) :
  (0 < n)%nat -> (Fin 0 <=? x) = true -> (x <=? y) = true ->
  (Fin 0 <=? of_nat n * x) = true /\ (of_nat n * x <=? of_nat n * y) = true.
Proof.
  intros Hn Hx Hxy. pose proof (of_nat_positive n Hn) as Hp.
  destruct (nonneg_cases x Hx) as [-> | (a & -> & Ha)].
  - destruct y; try discriminate. rewrite mul_of_nat_inf by exact Hn.
    split; reflexivity.
  - rewrite mul_of_nat_fin.
    split; [apply Qle_bool_iff; apply Qmult_le_0_compat; lra |].
    destruct y as [ | | | b]; try discriminate.
    + rewrite mul_of_nat_inf by exact Hn. reflexivity.
    + apply Qle_bool_iff in Hxy. rewrite mul_of_nat_fin.
      apply Qle_bool_iff. apply Qmult_le_l; assumption.
Qed.

(** ** Protected channels: the cut-off *)

Lemma slice_end_empty (e : number) : slice_end 0 e = 0%nat.
Proof.
  destruct e as [ | | | a]; try reflexivity. unfold slice_end.
  destruct (_ <? 0)%Z eqn:E.
  - apply Z.ltb_lt in E. lia.
  - apply Nat.min_0_r.
Qed.

(** The end index that [slice] derives from the ceiling of a number
    that is not negative. *)
Lemma slice_end_ceil_fin (n : nat) (a : Q) :
  (0 <= a)%Q -> slice_end n (Math_ceil (Fin a)) = Nat.min (Z.to_nat (Qceiling a)) n.
Proof.
  intros Ha. cbn [Math_ceil]. unfold slice_end.
  assert (Hc : (0 <= Qceiling a)%Z)
    by (change 0%Z with (Qceiling 0); apply Qceiling_resp_le; exact Ha).
  assert (Hlt : Qltb (inject_Z (Qceiling a)) 0 = false).
  { apply Qltb_ge. change 0%Q with (inject_Z 0). rewrite <- Zle_Qle. exact Hc. }
  rewrite Hlt, Qfloor_Z.
  destruct (Qceiling a <? 0)%Z eqn:E; [apply Z.ltb_lt in E; lia | reflexivity].
Qed.

Lemma slice_end_ceil_monotone (n : nat) (x y : number) :
  (Fin 0 <=? x) = true -> (x <=? y) = true ->
  Nat.le (slice_end n (Math_ceil x)) (slice_end n (Math_ceil y)).
Proof.
  intros Hx Hxy.
  destruct (nonneg_cases x Hx) as [-> | (a & -> & Ha)].
  - destruct y; try discriminate. apply Nat.le_refl.
  - rewrite slice_end_ceil_fin by exact Ha.
    destruct y as [ | | | b]; try discriminate.
    + apply Nat.le_min_r.
    + apply Qle_bool_iff in Hxy. rewrite slice_end_ceil_fin by lra.
      apply Nat.min_le_compat_r. apply Z2Nat.inj_le.
      * change 0%Z with (Qceiling 0). apply Qceiling_resp_le. exact Ha.
      * change 0%Z with (Qceiling 0). apply Qceiling_resp_le. lra.
      * apply Qceiling_resp_le. exact Hxy.
Qed.

(** The number of names that [getProtectedChannels] keeps out of [n]
    sorted channels grows with the threshold. *)
Lemma cutoff_monotone (n : nat) (t1 t2 : number) :
  (Fin 0 <=? t1) = true -> (t1 <=? t2) = true ->
  Nat.le (slice_end n (Math_ceil (mul64 (of_nat n) (div64 t1 (Fin 100)))))
         (slice_end n (Math_ceil (mul64 (of_nat n) (div64 t2 (Fin 100))))).
Proof.
  intros H0 H12. destruct n as [| n]; [rewrite !slice_end_empty; apply Nat.le_refl |].
  destruct (div_100_monotone t1 t2 H0 H12) as [Hd0 Hd].
  destruct (round64_monotone _ _ Hd0 Hd) as [Hr0 Hr].
  destruct (mul_of_nat_monotone (S n) _ _ (Nat.lt_0_succ n) Hr0 Hr) as [Hm0 Hm].
  destruct (round64_monotone _ _ Hm0 Hm) as [Hc0 Hc].
  apply slice_end_ceil_monotone; assumption.
Qed.

Section Binary64Error.
Local Open Scope Q_scope.

(** Half a unit in the last place of [a] is at most [(a + 1) * 2^-53]. *)
Lemma ulp_bound (a : Q) :
  0 < a -> 2 ^ ulp_exponent a <= (a + 1) * 2 ^ (-52).
Proof.
  intros Ha. destruct (Qlog2_spec a Ha) as [Hlo _].
  pose proof (pow2_pos (-52)) as P52.
  unfold ulp_exponent. destruct (Z.max_spec (Qlog2 a - 52) (-1074)) as [[_ ->] | [_ ->]].
  - eapply Qle_trans; [apply (pow2_le (-1074) (-52)); lia |].
    rewrite <- (Qmult_1_l (2 ^ (-52))) at 1.
    apply Qmult_le_compat_r; lra.
  - replace (Qlog2 a - 52)%Z with (Qlog2 a + -52)%Z by lia. rewrite pow2_plus.
    apply Qmult_le_compat_r; lra.
Qed.

Lemma round_pos_error (a : Q) :
  0 < a ->
  round_pos a - a <= (a + 1) * (1 # 9007199254740992)
  /\ a - round_pos a <= (a + 1) * (1 # 9007199254740992).
Proof.
  intros Ha. pose proof (ulp_bound a Ha) as Hu.
  pose proof (pow2_pos (ulp_exponent a)) as Hp.
  unfold round_pos.
  destruct (round_half_even_near (a / 2 ^ ulp_exponent a)) as [Hlo Hhi].
  set (p := 2 ^ ulp_exponent a) in *.
  set (r := inject_Z (round_half_even (a / p))) in *.
  assert (E : a / p * p == a) by (field; lra).
  assert (H1 : (r - (1 # 2)) * p <= a / p * p) by (apply Qmult_le_compat_r; lra).
  assert (H2 : a / p * p <= (r + (1 # 2)) * p) by (apply Qmult_le_compat_r; lra).
  assert (E52 : 2 ^ (-52) == 1 # 4503599627370496) by reflexivity.
  rewrite E52 in Hu. rewrite E in H1, H2.
  set (rp := r * p) in *.
  assert (E1 : (r - (1 # 2)) * p == rp - p * (1 # 2)) by (unfold rp; ring).
  assert (E2 : (r + (1 # 2)) * p == rp + p * (1 # 2)) by (unfold rp; ring).
  rewrite E1 in H1. rewrite E2 in H2. clearbody rp p. split; lra.
Qed.

(** A value up to 2^64 rounds to a finite binary64 value, with a
    relative error of 2^-53 at most (and an absolute one of 2^-53 near
    zero). *)
Lemma binary64_error (x : Q) :
  0 <= x -> x <= 18446744073709551616 ->
  exists r, binary64 x = Fin r /\ 0 <= r
            /\ r - x <= (x + 1) * (1 # 9007199254740992)
            /\ x - r <= (x + 1) * (1 # 9007199254740992).
Proof.
  intros H0 Hmax. destruct (Qlt_le_dec 0 x) as [Hp | Hz].
  - destruct (round_pos_error x Hp) as [H1 H2].
    pose proof (round_pos_nonneg x H0) as Hr.
    rewrite (binary64_pos x Hp).
    assert (Hlt : Qle_bool (2 ^ 1024) (round_pos x) = false).
    { destruct (Qle_bool (2 ^ 1024) (round_pos x)) eqn:E; [| reflexivity].
      apply Qle_bool_iff in E.
      pose proof (pow2_le 65 1024 ltac:(lia)) as Hpow.
      assert (E65 : 2 ^ 65 == 36893488147419103232) by reflexivity.
      rewrite E65 in Hpow. set (big := 2 ^ 1024) in *. clearbody big. lra. }
    rewrite Hlt. exists (round_pos x). repeat split; assumption.
  - exists 0. rewrite binary64_zero by lra. repeat split; lra.
Qed.

Lemma Qceiling_near (u v : Q) :
  u - v <= 1 -> v - u <= 1 ->
  (Qceiling v - 1 <= Qceiling u <= Qceiling v + 1)%Z.
Proof.
  intros H1 H2.
  pose proof (Qle_ceiling u) as Hu. pose proof (Qceiling_lt u) as Hu'.
  pose proof (Qle_ceiling v) as Hv. pose proof (Qceiling_lt v) as Hv'.
  unfold Z.sub in Hu', Hv'. rewrite inject_Z_plus, inject_Z_opp in Hu', Hv'.
  change (inject_Z 1) with 1 in Hu', Hv'.
  assert (Ha : (Qceiling v + - (2) < Qceiling u)%Z).
  { rewrite Zlt_Qlt, inject_Z_plus, inject_Z_opp. change (inject_Z 2) with 2. lra. }
  assert (Hb : (Qceiling u < Qceiling v + 2)%Z).
  { rewrite Zlt_Qlt, inject_Z_plus. change (inject_Z 2) with 2. lra. }
  lia.
Qed.

End Binary64Error.

(** The integers up to 2^53 round to themselves. *)
Lemma binary64_integer (n : Z) :
  (0 <= n <= 2 ^ 53)%Z ->
  exists r, binary64 (inject_Z n) = Fin r /\ (r == inject_Z n)%Q.
Proof.
  intros [H0 Hmax]. destruct (Z.eq_dec n 0%Z) as [-> | Hn].
  - exists 0%Q. split; reflexivity.
  - assert (Hp : (0 < inject_Z n)%Q)
      by (change 0%Q with (inject_Z 0); rewrite <- Zlt_Qlt; lia).
    pose proof (round_pos_integer n ltac:(lia)) as E.
    rewrite (binary64_pos _ Hp).
    assert (Hlt : Qle_bool (2 ^ 1024) (round_pos (inject_Z n)) = false).
    { destruct (Qle_bool (2 ^ 1024) (round_pos (inject_Z n))) eqn:T; [| reflexivity].
      apply Qle_bool_iff in T. rewrite E in T.
      pose proof (pow2_le 54 1024 ltac:(lia)) as Hpow.
      rewrite <- (pow2_inject 54) in Hpow by lia.
      assert (Hc : (inject_Z (2 ^ 54) <= inject_Z n)%Q)
        by (eapply Qle_trans; eassumption).
      rewrite <- Zle_Qle in Hc. lia. }
    rewrite Hlt. exists (round_pos (inject_Z n)). split; [reflexivity | exact E].
Qed.

(** A threshold of 100 or more keeps every one of up to 2^53 sorted
    channels. *)
Lemma cutoff_full (n : nat) (q : Q) :
  (100 <= q)%Q -> (Z.of_nat n <= 2 ^ 53)%Z ->
  slice_end n (Math_ceil (mul64 (of_nat n) (div64 (Fin q) (Fin 100)))) = n.
Proof.
  intros Hq Hn. destruct n as [| n]; [apply slice_end_empty |].
  set (N := S n) in *. assert (HN : (0 < N)%nat) by (unfold N; lia).
  pose proof (of_nat_positive N HN) as Hpos.
  unfold div64. rewrite div_100_fin. cbn [round64].
  assert (H1 : (1 <= q / 100)%Q) by (apply Qle_shift_div_l; [reflexivity | lra]).
  assert (Ha : (Fin 1 <=? binary64 (q / 100)) = true).
  { eapply le_trans; [| apply (binary64_monotone 1 (q / 100)); lra].
    vm_compute. reflexivity. }
  unfold mul64.
  destruct (binary64 (q / 100)) as [ | | | a]; try discriminate.
  - rewrite mul_of_nat_inf by exact HN. cbn [round64 Math_ceil]. reflexivity.
  - apply Qle_bool_iff in Ha. rewrite mul_of_nat_fin. cbn [round64].
    destruct (binary64_integer (Z.of_nat N)) as (r & Er & Hr); [lia |].
    assert (Hb : (Fin r <=? binary64 (inject_Z (Z.of_nat N) * a)) = true).
    { rewrite <- Er. apply binary64_monotone; [lra |].
      rewrite <- (Qmult_1_r (inject_Z (Z.of_nat N))) at 1.
      apply Qmult_le_l; assumption. }
    destruct (binary64 (inject_Z (Z.of_nat N) * a)) as [ | | | b]; try discriminate.
    + reflexivity.
    + apply Qle_bool_iff in Hb. rewrite slice_end_ceil_fin by lra.
      apply Nat.min_r.
      assert (Hc : (Z.of_nat N <= Qceiling b)%Z).
      { rewrite <- (Qceiling_Z (Z.of_nat N)). apply Qceiling_resp_le. lra. }
      lia.
Qed.

(** For a threshold between 0 and 100 and fewer than 2^32 sorted
    channels (the most an array holds) the quotient and the product are
    finite binary64 values, and the ceiling of the product is the
    ceiling of the exact [n * q / 100] or differs from it by one. *)
Lemma cutoff_below_100 (n : nat) (q : Q) :
  (0 <= q)%Q -> (q <= 100)%Q -> (Z.of_nat n < 2 ^ 32)%Z ->
  exists a b : Q,
    binary64 (q / 100) = Fin a
    /\ binary64 (inject_Z (Z.of_nat n) * a) = Fin b
    /\ (0 <= b)%Q
    /\ (Qceiling (inject_Z (Z.of_nat n) * (q / 100)) - 1 <= Qceiling b
        <= Qceiling (inject_Z (Z.of_nat n) * (q / 100)) + 1)%Z.
Proof.
  intros Hq Hq' Hn.
  assert (HN : (0 <= inject_Z (Z.of_nat n))%Q)
    by (change 0%Q with (inject_Z 0); rewrite <- Zle_Qle; lia).
  assert (HN' : (inject_Z (Z.of_nat n) <= 4294967296)%Q).
  { change 4294967296%Q with (inject_Z (2 ^ 32)). rewrite <- Zle_Qle. lia. }
  assert (Hx0 : (0 <= q / 100)%Q) by (apply Qle_shift_div_l; [reflexivity | lra]).
  assert (Hx1 : (q / 100 <= 1)%Q) by (apply Qle_shift_div_r; [reflexivity | lra]).
  destruct (binary64_error (q / 100)) as (a & Ea & Ha0 & Ha1 & Ha2); [lra | lra |].
  set (x := (q / 100)%Q) in *. set (N := inject_Z (Z.of_nat n)) in *.
  assert (Hy1 : (N * a <= N * (x + (1 # 4503599627370496)))%Q)
    by (apply Qmult_le_compat_nonneg; split; lra).
  assert (Hy2 : (N * (x - (1 # 4503599627370496)) <= N * a)%Q).
  { destruct (Qlt_le_dec 0 N) as [Hp | Hz].
    - apply Qmult_le_l; [exact Hp | lra].
    - assert (E0 : (N == 0)%Q) by lra. rewrite E0. lra. }
  assert (Hx : (N * x <= N * 1)%Q) by (apply Qmult_le_compat_nonneg; split; lra).
  assert (Hy0 : (0 <= N * a)%Q) by (apply Qmult_le_0_compat; assumption).
  assert (E1 : (N * (x + (1 # 4503599627370496))
                == N * x + N * (1 # 4503599627370496))%Q) by ring.
  assert (E2 : (N * (x - (1 # 4503599627370496))
                == N * x - N * (1 # 4503599627370496))%Q) by ring.
  rewrite E1 in Hy1. rewrite E2 in Hy2. rewrite Qmult_1_r in Hx.
  destruct (binary64_error (N * a)) as (b & Eb & Hb0 & Hb1 & Hb2); [lra | lra |].
  exists a, b. split; [exact Ea |]. split; [exact Eb |]. split; [exact Hb0 |].
  set (M := (N * x)%Q) in *. set (Y := (N * a)%Q) in *.
  apply Qceiling_near; lra.
Qed.

Lemma firstn_min_length {A} (k : nat) (l : list A) :
  firstn (Nat.min k (length l)) l = firstn k l.
Proof.
  destruct (Nat.le_ge_cases k (length l)) as [Hk | Hk].
  - rewrite Nat.min_l by exact Hk. reflexivity.
  - rewrite Nat.min_r by exact Hk.
    rewrite firstn_all. symmetry. apply firstn_all2. exact Hk.
Qed.

(** Counterexample to C5 as stated: of 25 channels with reach, the
    threshold 56 protects 15, not ceil(25 * 56 / 100) = 14: the quotient
    56 / 100 rounds up to a binary64 value above 0.56, and 25 times it
    rounds to 14.000000000000002. *)
Lemma getProtectedChannels_exact_count_counterexample :
  let sorted :=
    sort_by (fun a b => b.(Ch.brandAReach) - a.(Ch.brandAReach))
            (List.filter (fun ch => ch.(Ch.brandAReach) >? Fin 0) twentyFiveChannels) in
  length sorted = 25%nat
  /\ Qceiling (inject_Z 25 * (56 / 100)) = 14%Z
  /\ (mul64 (of_nat 25) (div64 (Fin 56) (Fin 100))
      === Fin (14 + (1 # 562949953421312))) = true
  /\ length (getProtectedChannels twentyFiveChannels (Fin 56)) = 15%nat
  /\ getProtectedChannels twentyFiveChannels (Fin 56)
     <> map Ch.channel (firstn 14 sorted).
Proof.
  cbn zeta.
  split; [vm_compute; reflexivity |].
  split; [vm_compute; reflexivity |].
  split; [vm_compute; reflexivity |].
  split; [vm_compute; reflexivity |].
  intros H. apply (f_equal (@length string)) in H. vm_compute in H. discriminate H.
Qed.

(** C5 (amended).  For a fixed channel list, the channels with
    brandAReach > 0 are put in descending order of brandAReach and the
    protected names are those of a prefix of that order.  For a
    threshold [q] between 0 and 100 the prefix has ceil(b) channels,
    where b is the binary64 product of N and the binary64 quotient
    q / 100; ceil(b) is ceil(N * q / 100) or differs from it by one.  A
    threshold of 100 or more protects all of them.  For thresholds
    [0 <= t1 <= t2] the protected list at [t1] is a prefix of the one at
    [t2], so every name protected at [t1] is protected at [t2]. *)
Theorem getProtectedChannels_prefix_monotone
    (channels : list ChannelRecord) (t1 t2 : number) :
  (Fin 0 <=? t1) = true -> (t1 <=? t2) = true ->
  let withBrandA := List.filter (fun ch => ch.(Ch.brandAReach) >? Fin 0) channels in
  let sorted := sort_by (fun a b => b.(Ch.brandAReach) - a.(Ch.brandAReach)) withBrandA in
  let N := Z.of_nat (length sorted) in
  Permutation sorted withBrandA
  /\ StronglySorted
       (fun a b => (b.(Ch.brandAReach) <=? a.(Ch.brandAReach)) = true) sorted
  /\ (forall q : Q, (0 <= q)%Q -> (q <= 100)%Q -> (N < 2 ^ 32)%Z ->
        exists a b : Q,
          binary64 (q / 100) = Fin a
          /\ binary64 (inject_Z N * a) = Fin b
          /\ getProtectedChannels channels (Fin q)
             = map Ch.channel (firstn (Z.to_nat (Qceiling b)) sorted)
          /\ (Qceiling (inject_Z N * (q / 100)) - 1 <= Qceiling b
              <= Qceiling (inject_Z N * (q / 100)) + 1)%Z)
  /\ (forall q : Q, (100 <= q)%Q -> (N <= 2 ^ 53)%Z ->
        getProtectedChannels channels (Fin q) = map Ch.channel sorted)
  /\ (exists rest,
        getProtectedChannels channels t2 = (getProtectedChannels channels t1 ++ rest)%list)
  /\ (forall name, In name (getProtectedChannels channels t1) ->
                   In name (getProtectedChannels channels t2)).
Proof.
  intros H0 H12 withBrandA sorted N.
  assert (Hprefix : exists rest,
    getProtectedChannels channels t2 = (getProtectedChannels channels t1 ++ rest)%list).
  { unfold getProtectedChannels, slice0.
    fold withBrandA. fold sorted.
    pose proof (cutoff_monotone (length sorted) t1 t2 H0 H12) as Hk.
    set (k1 := slice_end (length sorted)
                 (Math_ceil (mul64 (of_nat (length sorted)) (div64 t1 (Fin 100))))) in *.
    set (k2 := slice_end (length sorted)
                 (Math_ceil (mul64 (of_nat (length sorted)) (div64 t2 (Fin 100))))) in *.
    exists (map Ch.channel (skipn k1 (firstn k2 sorted))).
    rewrite <- map_app. f_equal.
    rewrite <- (firstn_skipn k1 (firstn k2 sorted)) at 1.
    f_equal. rewrite firstn_firstn. f_equal. unfold Nat.le in Hk. lia. }
  split; [apply sort_by_perm |].
  split.
  { apply sort_by_sorted. apply Forall_forall. intros c Hc.
    apply list_elem_of_In, filter_In in Hc. apply Hc. }
  split.
  { intros q Hq Hq' HN.
    destruct (cutoff_below_100 (length sorted) q Hq Hq' HN)
      as (a & b & Ea & Eb & Hb & Hnear).
    exists a, b. split; [exact Ea |]. split; [exact Eb |]. split; [| exact Hnear].
    unfold getProtectedChannels, slice0. fold withBrandA. fold sorted.
    unfold div64, mul64. rewrite div_100_fin. cbn [round64]. rewrite Ea.
    rewrite mul_of_nat_fin. cbn [round64]. fold N in Eb |- *. rewrite Eb.
    rewrite slice_end_ceil_fin by exact Hb.
    rewrite firstn_min_length. reflexivity. }
  split.
  { intros q Hq HN. unfold getProtectedChannels, slice0. fold withBrandA. fold sorted.
    rewrite cutoff_full by assumption. rewrite firstn_all. reflexivity. }
  split; [exact Hprefix |].
  intros name Hin. destruct Hprefix as [rest ->].
  apply in_or_app. left. exact Hin.
Qed.

(** Ten channels with reach, thresholds 50 and 70: five names, then
    seven. *)
Lemma getProtectedChannels_prefix_monotone_witness :
  getProtectedChannels elevenChannels (Fin 50) = ["K"; "J"; "I"; "H"; "G"]
  /\ getProtectedChannels elevenChannels (Fin 70) = ["K"; "J"; "I"; "H"; "G"; "F"; "E"]
  /\ (forall name, In name (getProtectedChannels elevenChannels (Fin 50)) ->
                   In name (getProtectedChannels elevenChannels (Fin 70))).
Proof.
  split; [vm_compute; reflexivity |].
  split; [vm_compute; reflexivity |].
  apply (getProtectedChannels_prefix_monotone elevenChannels (Fin 50) (Fin 70));
    reflexivity.
Defined.

(** ** Prime-time focus *)

(** C10.  For the four bands NPT, NCPT_EARLY, CPT, NCPT_LATE with finite
    reaches a, b, c, d, primeTimeFocus is 0 when a + b + c + d is 0 and
    (b + c + d) / (a + b + c + d) * 100 otherwise. *)
Theorem calculatePrimeTimeFocus_four_bands
    (t0 t1 t2 t3 : TimebandMetrics) (a b c d : Q) :
  t0.(Tb.timeband) = "NPT" -> t1.(Tb.timeband) = "NCPT_EARLY" ->
  t2.(Tb.timeband) = "CPT" -> t3.(Tb.timeband) = "NCPT_LATE" ->
  t0.(Tb.brandAReach) = Fin a -> t1.(Tb.brandAReach) = Fin b ->
  t2.(Tb.brandAReach) = Fin c -> t3.(Tb.brandAReach) = Fin d ->
  exists r : Q,
    calculatePrimeTimeFocus [t0; t1; t2; t3] = Fin r
    /\ (a + b + c + d == 0 -> r == 0)
    /\ (~ a + b + c + d == 0 -> r == (b + c + d) / (a + b + c + d) * 100).
Proof.
  intros N0 N1 N2 N3 R0 R1 R2 R3.
  unfold calculatePrimeTimeFocus, isPrimeBand, sum_by.
  cbn [List.filter fold_left]. rewrite N0, N1, N2, N3.
  cbn [String.eqb Ascii.eqb Bool.eqb orb fold_left].
  rewrite R0, R1, R2, R3. cbn [add strict_eq].
  destruct (Qeq_bool (0 + a + b + c + d) 0) eqn:E.
  - exists 0%Q. apply Qeq_bool_iff in E.
    split; [reflexivity |]. split; [reflexivity |].
    intros H. exfalso. apply H. lra.
  - assert (Hne : ~ 0 + a + b + c + d == 0).
    { intros H. apply Qeq_bool_iff in H. congruence. }
    unfold div. rewrite E. cbn [mul].
    eexists. split; [reflexivity |]. split.
    + intros H. exfalso. apply Hne. lra.
    + intros _. field. intros H. apply Hne. lra.
Qed.

(** The scenario of the specification: reaches 1, 2, 8, 3 give
    (2+8+3)/(1+2+8+3)*100 = 92.857...  *)
Lemma calculatePrimeTimeFocus_four_bands_witness :
  exists r : Q,
    calculatePrimeTimeFocus focusScenario = Fin r
    /\ r == (2 + 8 + 3) / (1 + 2 + 8 + 3) * 100
    /\ (92.857 < r)%Q /\ (r < 92.858)%Q.
Proof.
  destruct (calculatePrimeTimeFocus_four_bands
              (plainTimeband "NPT" (Fin 1)) (plainTimeband "NCPT_EARLY" (Fin 2))
              (plainTimeband "CPT" (Fin 8)) (plainTimeband "NCPT_LATE" (Fin 3))
              1 2 8 3) as (r & Hr & _ & Hval); try reflexivity.
  exists r. split; [exact Hr |].
  assert (Hq : r == (2 + 8 + 3) / (1 + 2 + 8 + 3) * 100)
    by (apply Hval; discriminate).
  split; [exact Hq |].
  rewrite Hq. split; reflexivity.
Defined.

(** ** Market consistency score *)



(** ** The hash and the jitter as programs *)

Section JitterPrograms.
Import Prog.

Lemma to_int32_range (z : Z) : in_int32 (to_int32 z).
Proof.
  unfold in_int32, to_int32.
  pose proof (Z.mod_pos_bound (z + 2 ^ 31) (2 ^ 32) eq_refl). lia.
Qed.

Lemma to_int32_id (z : Z) : in_int32 z -> to_int32 z = z.
Proof.
  unfold in_int32, to_int32. intros H. rewrite Z.mod_small by lia. lia.
Qed.

Lemma trunc_Z (z : Z) : trunc (inject_Z z) = z.
Proof.
  unfold trunc. destruct (Qltb (inject_Z z) 0); [apply Qceiling_Z | apply Qfloor_Z].
Qed.

Lemma ToInt32_of_Z (z : Z) : ToInt32 (of_Z z) = to_int32 z.
Proof. unfold ToInt32, of_Z. rewrite trunc_Z. reflexivity. Qed.

Lemma sub_of_Z (a b : Z) : of_Z a - of_Z b = of_Z (a - b).
Proof.
  unfold of_Z, sub, neg, add, inject_Z, Qplus, Qopp. cbn. f_equal. f_equal. lia.
Qed.

Lemma add_of_Z (a b : Z) : of_Z a + of_Z b = of_Z (a + b).
Proof.
  unfold of_Z, add, inject_Z, Qplus. cbn. f_equal. f_equal. lia.
Qed.

Lemma get_list_ascii (s : string) (k : nat) :
  String.get k s = nth_error (list_ascii_of_string s) k.
Proof.
  revert k. induction s as [| c s IH]; intros [| k]; cbn; try reflexivity. apply IH.
Qed.

Lemma length_list_ascii (s : string) :
  length (list_ascii_of_string s) = String.length s.
Proof. induction s as [| c s IH]; cbn; [reflexivity | f_equal; exact IH]. Qed.

Lemma charCodeAt_of_nat (s : string) (k : nat) (c : ascii) :
  nth_error (list_ascii_of_string s) k = Some c ->
  charCodeAt s (of_nat k) = of_nat (nat_of_ascii c).
Proof.
  intros H. unfold charCodeAt, of_nat.
  assert (E : Qltb (inject_Z (Z.of_nat k)) 0 = false).
  { apply Qltb_ge. change 0%Q with (inject_Z 0). rewrite <- Zle_Qle. lia. }
  rewrite E, Qfloor_Z, Nat2Z.id, get_list_ascii, H. reflexivity.
Qed.

(** One round of the loop: the next character is read at [i] and
    folded into [hash]. *)
Lemma simpleHash_round_run (str : string) (done rest : list ascii) (c : ascii)
    (h : Z) (w : World) :
  list_ascii_of_string str = (done ++ c :: rest)%list -> in_int32 h ->
  exec no_calls
       [("i", VNum (of_nat (length done))); ("hash", VNum (of_Z h)); ("str", VStr str)]
       w simpleHash_round
  = Some (Normal [ ("char", VNum (of_nat (nat_of_ascii c)));
                   ("i", VNum (of_nat (length done)));
                   ("hash", VNum (of_Z (hash_step h c)));
                   ("str", VStr str) ], w).
Proof.
  intros Hs Hh.
  assert (Hc : charCodeAt str (of_nat (length done)) = of_nat (nat_of_ascii c)).
  { apply charCodeAt_of_nat. rewrite Hs, nth_error_app2 by apply Nat.le_refl.
    rewrite Nat.sub_diag. reflexivity. }
  unfold simpleHash_round.
  cbn [block fold_right exec eval lookup_var assign_var option_map
       String.eqb Ascii.eqb Bool.eqb binop_number].
  rewrite Hc. change (of_nat (nat_of_ascii c)) with (of_Z (Z.of_nat (nat_of_ascii c))).
  assert (Es : shl (of_Z h) (Fin 5) = of_Z (to_int32 (Z.shiftl h 5))).
  { unfold shl. rewrite ToInt32_of_Z, (to_int32_id h Hh). reflexivity. }
  rewrite Es, sub_of_Z, add_of_Z.
  unfold bitand. rewrite ToInt32_of_Z, Z.land_diag. reflexivity.
Qed.

(** The loop, from any round on: [done] are the characters read so far,
    [h] the hash of them; as many rounds are granted as characters are
    left. *)
Lemma simpleHash_loop_run (str : string) (w : World) (rest : list ascii) :
  forall (done : list ascii) (h : Z),
    list_ascii_of_string str = (done ++ rest)%list -> in_int32 h ->
    for_loop (fun env1 w1 =>
                eval no_calls env1 w1 (EBin OLt (EVar "i") (ELength (EVar "str"))))
             (fun env1 w1 => exec no_calls env1 w1 simpleHash_round)
             "i" [("hash", VNum (Fin 0)); ("str", VStr str)] (length rest)
             [("i", VNum (of_nat (length done))); ("hash", VNum (of_Z h));
              ("str", VStr str)] w
    = Some (Normal [ ("hash", VNum (of_Z (fold_left hash_step rest h)));
                     ("str", VStr str) ], w).
Proof.
  induction rest as [| c rest IH]; intros done h Hs Hh.
  - (* every character read: the condition fails *)
    cbn [for_loop eval lookup_var option_map String.eqb Ascii.eqb Bool.eqb
         binop_number length fold_left].
    rewrite <- length_list_ascii, Hs, app_nil_r.
    assert (E : (of_nat (length done) <? of_nat (length done)) = false).
    { unfold of_nat. cbn [lt]. apply Qltb_ge. apply Qle_refl. }
    rewrite E. reflexivity.
  - cbn [for_loop eval lookup_var option_map String.eqb Ascii.eqb Bool.eqb
         binop_number length fold_left].
    rewrite <- length_list_ascii, Hs.
    assert (E : (of_nat (length done) <? of_nat (length (done ++ c :: rest))) = true).
    { unfold of_nat. cbn [lt]. apply Qltb_lt. rewrite <- Zlt_Qlt.
      rewrite length_app. cbn [length]. lia. }
    rewrite E. rewrite (simpleHash_round_run str done rest c h w Hs Hh).
    cbn [leave_block length Nat.sub skipn increment lookup_var assign_var
         String.eqb Ascii.eqb Bool.eqb option_map].
    change (Fin 1) with (of_Z 1).
    change (of_nat (length done)) with (of_Z (Z.of_nat (length done))).
    rewrite add_of_Z.
    replace (Z.of_nat (length done) + 1)%Z with (Z.of_nat (length (done ++ [c])))
      by (rewrite length_app; cbn [length]; lia).
    apply (IH (done ++ [c])%list (hash_step h c)).
    + rewrite <- app_assoc. exact Hs.
    + unfold hash_step. apply to_int32_range.
Qed.

Lemma exec_Seq_normal (calls : Calls) (env env1 : Locals) (w w1 : World)
    (s1 s2 : stmt) :
  exec calls env w s1 = Some (Normal env1, w1) ->
  exec calls env w (SSeq s1 s2) = exec calls env1 w1 s2.
Proof. intros H. cbn [exec]. rewrite H. reflexivity. Qed.

Lemma exec_For_entry (calls : Calls) (env : Locals) (w w1 : World)
    (i : string) (bound : expr) (body : stmt) (b : value) :
  eval calls env w bound = Some (b, w1) ->
  exec calls env w (SFor i bound body)
  = for_loop (fun env1 w1 => eval calls env1 w1 (EBin OLt (EVar i) bound))
             (fun env1 w1 => exec calls env1 w1 body)
             i env (iterations b) ((i, VNum (Fin 0)) :: env) w.
Proof. intros H. cbn [exec]. rewrite H. reflexivity. Qed.

(** [simpleHash] run as a program: in every world the call returns the
    value of the function [simpleHash] and leaves the world as it
    was. *)
Lemma run_simpleHash_value (str : string) (w : World) :
  run_simpleHash str w = Some (VNum (of_Z (simpleHash str)), w).
Proof.
  unfold run_simpleHash, call_function, simpleHash_body, block.
  cbn [combine fold_right].
  erewrite exec_Seq_normal by reflexivity.
  erewrite exec_Seq_normal.
  2:{ erewrite exec_For_entry by reflexivity.
      cbn [iterations]. unfold of_nat at 1.
      rewrite Qceiling_Z, Nat2Z.id, <- length_list_ascii.
      apply (simpleHash_loop_run str w (list_ascii_of_string str) [] 0%Z eq_refl).
      unfold in_int32. lia. }
  reflexivity.
Qed.

Lemma simpleHash_nonneg (s : string) : (0 <= simpleHash s)%Z.
Proof. unfold simpleHash. apply Z.abs_nonneg. Qed.

Lemma same_number_refl (x : number) : same_number x x = true.
Proof. destruct x as [ | | | a]; try reflexivity. apply Qeq_bool_refl. Qed.

(** The remainder of a whole number that is not negative. *)
Lemma rem_of_Z (h : Z) :
  (0 <= h)%Z ->
  exists r : Q, rem (of_Z h) (Fin 10000) = Fin r /\ (r == inject_Z (Z.rem h 10000))%Q.
Proof.
  intros Hh. eexists. split; [reflexivity |].
  assert (H0 : (0 <= inject_Z h / 10000)%Q).
  { apply Qle_shift_div_l; [reflexivity |].
    change (0 * 10000)%Q with (inject_Z 0). rewrite <- Zle_Qle. exact Hh. }
  unfold trunc. apply Qltb_ge in H0. rewrite H0.
  change 10000%Q with (inject_Z 10000) at 2. rewrite <- Zdiv_Qdiv.
  rewrite Z.rem_mod_nonneg by lia. rewrite Z.mod_eq by lia.
  unfold Z.sub. rewrite inject_Z_plus, inject_Z_opp, inject_Z_mult. reflexivity.
Qed.

(** The arithmetic of the jitter gives the same number from equal
    seeds. *)
Lemma jitter_of_equal_seeds (r r' : Q) (v : number) :
  (r == r')%Q ->
  same_number ((Fin r / Fin 10000 - Fin 0.5) * Fin 2 * v)
              ((Fin r' / Fin 10000 - Fin 0.5) * Fin 2 * v) = true.
Proof.
  intros E.
  change (Fin r / Fin 10000 - Fin 0.5) with (Fin (r / 10000 + - 0.5)).
  change (Fin r' / Fin 10000 - Fin 0.5) with (Fin (r' / 10000 + - 0.5)).
  cbn [mul].
  assert (Et : ((r / 10000 + - 0.5) * 2 == (r' / 10000 + - 0.5) * 2)%Q)
    by (rewrite E; reflexivity).
  destruct v as [ | | | a]; cbn [mul same_number].
  - reflexivity.
  - rewrite (Qcompare_comp _ _ Et 0%Q 0%Q (Qeq_refl 0)). apply same_number_refl.
  - rewrite (Qcompare_comp _ _ Et 0%Q 0%Q (Qeq_refl 0)). apply same_number_refl.
  - apply Qeq_bool_iff. rewrite Et. reflexivity.
Qed.

(** [getChannelJitter] run as a program: there is one number that the
    call returns in every world, leaving the world as it was, and it is
    the value of the function [getChannelJitter]. *)
Lemma run_getChannelJitter_value (districtName channelName : string)
    (channelShare maxShareInSer : number) (suffix : string) :
  exists v : number,
    (forall w : World,
       run_getChannelJitter districtName channelName channelShare maxShareInSer suffix w
       = Some (VNum v, w))
    /\ same_number v
         (getChannelJitter districtName channelName channelShare maxShareInSer suffix)
       = true.
Proof.
  set (key := districtName ++ "_" ++ channelName ++ suffix).
  set (varianceRange :=
         (Fin 1 - (if maxShareInSer >? Fin 0 then channelShare / maxShareInSer else Fin 0))
         * Fin 0.08).
  exists ((rem (of_Z (simpleHash key)) (Fin 10000) / Fin 10000 - Fin 0.5)
          * Fin 2 * varianceRange).
  split.
  - intros w. unfold run_getChannelJitter, call_function, getChannelJitter_body, block.
    cbn [combine fold_right]. unfold varianceRange.
    destruct (maxShareInSer >? Fin 0) eqn:Em.
    all: erewrite exec_Seq_normal;
      [| cbn [exec eval lookup_var option_map String.eqb Ascii.eqb Bool.eqb
              binop_number truthy_value]; rewrite Em; reflexivity ].
    all: erewrite exec_Seq_normal by reflexivity.
    all: erewrite exec_Seq_normal;
      [| cbn [exec eval lookup_var option_map String.eqb Ascii.eqb Bool.eqb];
         change (module_calls "simpleHash"
                   (VStr (districtName ++ "_" ++ channelName ++ suffix)) w)
           with (run_simpleHash key w);
         rewrite run_simpleHash_value; reflexivity ].
    all: erewrite exec_Seq_normal by reflexivity.
    all: reflexivity.
  - unfold getChannelJitter, seed_fraction. fold key. fold varianceRange.
    destruct (rem_of_Z (simpleHash key) (simpleHash_nonneg key)) as (r & -> & Er).
    apply jitter_of_equal_seeds. exact Er.
Qed.

(** The language can tell one world from another: a program that reads
    a variable of the module gives different values in different
    worlds, and a program that draws a random number leaves a different
    world behind. *)
Lemma world_is_observable :
  eval no_calls [] (mkWorld [("counter", VNum (Fin 1))] []) (EGlobal "counter")
  <> eval no_calls [] (mkWorld [("counter", VNum (Fin 2))] []) (EGlobal "counter")
  /\ eval no_calls [] (mkWorld [] [Fin 0.5]) ERandom
     = Some (VNum (Fin 0.5), mkWorld [] []).
Proof. split; [discriminate | reflexivity]. Qed.

(** A sequence of calls returns one value per call and leaves the
    world as it was. *)
Lemma run_jitter_calls_pure (calls : list JitterCall) (w : World) :
  exists vs, run_jitter_calls calls w = Some (vs, w) /\ length vs = length calls.
Proof.
  induction calls as [| [[[[d c] s] m] x] rest IH]; cbn [run_jitter_calls].
  - exists []. split; reflexivity.
  - destruct (run_getChannelJitter_value d c s m x) as (v & Hv & _).
    destruct IH as (vs & Hvs & Hlen).
    cbn [run_jitter_call]. rewrite Hv, Hvs.
    exists (VNum v :: vs). split; [reflexivity | cbn; f_equal; exact Hlen].
Qed.

Lemma run_jitter_calls_app (before after : list JitterCall) (w : World)
    (vs1 vs2 : list value) :
  run_jitter_calls before w = Some (vs1, w) ->
  run_jitter_calls after w = Some (vs2, w) ->
  run_jitter_calls (before ++ after) w = Some ((vs1 ++ vs2)%list, w).
Proof.
  revert vs1. induction before as [| c rest IH]; intros vs1 H1 H2.
  - cbn in H1. injection H1 as <-. exact H2.
  - cbn [app run_jitter_calls] in *.
    destruct c as [[[[d ch] s] m] x].
    destruct (run_getChannelJitter_value d ch s m x) as (v & Hv & _).
    cbn [run_jitter_call] in *. rewrite Hv in *.
    destruct (run_jitter_calls rest w) as [[vs w'] |] eqn:E; [| discriminate].
    injection H1 as <- ->.
    rewrite (IH vs eq_refl H2). reflexivity.
Qed.

(** C7.  [simpleHash] and [getChannelJitter], run as programs in a world
    that they could read and write, depend on their arguments alone: in
    every world the call of [simpleHash] returns the hash of its string
    and leaves the world as it was; for [getChannelJitter] there is one
    number, the value of the function at the five arguments, that the
    call returns in every world, leaving the world as it was, and that
    it returns again at the end of any sequence of other calls, started
    in any world. *)
Theorem getChannelJitter_deterministic
    (districtName channelName : string) (channelShare maxShareInSer : number)
    (suffix str : string) :
  (forall w : World, run_simpleHash str w = Some (VNum (of_Z (simpleHash str)), w))
  /\ exists v : number,
       same_number v
         (getChannelJitter districtName channelName channelShare maxShareInSer suffix)
       = true
       /\ (forall w : World,
             run_getChannelJitter districtName channelName channelShare maxShareInSer
                                  suffix w
             = Some (VNum v, w))
       /\ (forall (before : list JitterCall) (w : World),
             exists vs,
               length vs = length before
               /\ run_jitter_calls
                    (before ++ [(districtName, channelName, channelShare,
                                 maxShareInSer, suffix)]) w
                  = Some ((vs ++ [VNum v])%list, w)).
Proof.
  split; [apply run_simpleHash_value |].
  destruct (run_getChannelJitter_value districtName channelName channelShare
              maxShareInSer suffix) as (v & Hv & Hsame).
  exists v. split; [exact Hsame |]. split; [exact Hv |].
  intros before w.
  destruct (run_jitter_calls_pure before w) as (vs & Hvs & Hlen).
  exists vs. split; [exact Hlen |].
  apply run_jitter_calls_app; [exact Hvs |].
  cbn [run_jitter_calls run_jitter_call]. rewrite Hv. reflexivity.
Qed.

End JitterPrograms.

(** ** District presence *)

Lemma lt_not_ge (x y : number) : (x <? y) = true -> (x >=? y) = false.
Proof.
  destruct x as [ | | | a], y as [ | | | b];
    cbn; try discriminate; try reflexivity.
  unfold Qltb. intros H. apply negb_true_iff in H. exact H.
Qed.

Lemma zero_le_zero (x : number) : (x === Fin 0) = true -> (x <=? Fin 0) = true.
Proof.
  destruct x as [ | | | a]; cbn; try discriminate.
  intros H%Qeq_bool_iff. apply Qle_bool_iff. lra.
Qed.

Lemma seed_fraction_range (key : string) :
  exists s : Q, seed_fraction key = Fin s /\ (0 <= s)%Q /\ (s <= 0.9999)%Q.
Proof.
  unfold seed_fraction, of_Z.
  pose proof (Z.rem_bound_pos (simpleHash key) 10000 (simpleHash_nonneg key) eq_refl)
    as [Hlo Hhi].
  set (z := Z.rem (simpleHash key) 10000) in *.
  exists (inject_Z z / 10000)%Q. split; [reflexivity |].
  assert (H1 : (inject_Z 0 <= inject_Z z)%Q) by (rewrite <- Zle_Qle; exact Hlo).
  assert (H2 : (inject_Z z <= inject_Z 9999)%Q) by (rewrite <- Zle_Qle; lia).
  change (inject_Z 0) with 0%Q in H1. change (inject_Z 9999) with 9999%Q in H2.
  split.
  - apply Qle_shift_div_l; [reflexivity | lra].
  - apply Qle_shift_div_r; [reflexivity |].
    assert (E : (0.9999 * 10000 == 9999)%Q) by reflexivity.
    rewrite E. exact H2.
Qed.

(** The presence threshold is 0.18 with a variation of at most 0.04. *)
Lemma presenceThreshold_range (districtName channelName : string) :
  exists q : Q, presenceThreshold districtName channelName = Fin q
                /\ (0.14 <= q)%Q /\ (q < 0.22)%Q.
Proof.
  unfold presenceThreshold.
  destruct (seed_fraction_range ("presence_" ++ districtName ++ "_" ++ channelName))
    as (s & -> & Hlo & Hhi).
  eexists. split; [reflexivity |]. split; lra.
Qed.

(** What [calculateDistrictChannels] returns for a channel that is
    absent from the district: one record per region-level channel; a
    channel whose region-level brandAReach is 0, or whose presence score
    is below the threshold 0.18 +/- 0.04 drawn from the hash, comes back
    with brandAReach, brandDReach, luxReach, maxCompReach, gap and
    indexVsCompetition zero, and with brandEReach, brandBReach and
    brandCReach as they were; every output record, present or absent,
    keeps the indexVsBaseline of its input. *)
Lemma calculateDistrictChannels_absent_fields
    (serChannels : list ChannelRecord) (d : DistrictRecord)
    (serDistricts : list DistrictRecord) :
  let maxShareInSer := Math_max (map Ch.channelShare serChannels ++ [Fin 0.01]) in
  let maxReachInSer := Math_max (map Ch.brandAReach serChannels ++ [Fin 0.01]) in
  let out := calculateDistrictChannels serChannels d serDistricts in
  length out = length serChannels
  /\ (forall districtName channelName, exists q : Q,
        presenceThreshold districtName channelName = Fin q
        /\ (0.18 - 0.04 <= q)%Q /\ (q <= 0.18 + 0.04)%Q)
  /\ (forall (i : nat) (ch : ChannelRecord),
        nth_error serChannels i = Some ch ->
        exists o : ChannelRecord,
          nth_error out i = Some o
          /\ o.(Ch.indexVsBaseline) = ch.(Ch.indexVsBaseline)
          /\ ((ch.(Ch.brandAReach) === Fin 0) = true
              \/ (presenceScore ch.(Ch.brandAReach) maxReachInSer
                                ch.(Ch.channelShare) maxShareInSer d
                  <? presenceThreshold d.(district) ch.(Ch.channel)) = true ->
              o.(Ch.brandAReach) = Fin 0
              /\ o.(Ch.brandDReach) = Some (Fin 0)
              /\ o.(Ch.luxReach) = Some (Fin 0)
              /\ o.(Ch.maxCompReach) = Fin 0
              /\ o.(Ch.gap) = Fin 0
              /\ o.(Ch.indexVsCompetition) = Fin 0
              /\ o.(Ch.brandEReach) = ch.(Ch.brandEReach)
              /\ o.(Ch.brandBReach) = ch.(Ch.brandBReach)
              /\ o.(Ch.brandCReach) = ch.(Ch.brandCReach)
              /\ o.(Ch.timebands) = option_map (map absentTimeband) ch.(Ch.timebands))).
Proof.
  intros maxShareInSer maxReachInSer out.
  split; [apply length_map |].
  split.
  { intros dn cn. destruct (presenceThreshold_range dn cn) as (q & Hq & Hlo & Hhi).
    exists q. split; [exact Hq |]. split; lra. }
  intros i ch Hi.
  unfold out, calculateDistrictChannels.
  fold maxShareInSer. fold maxReachInSer.
  rewrite nth_error_map, Hi. cbn [option_map].
  eexists. split; [reflexivity |].
  split.
  { destruct (negb _); reflexivity. }
  intros Habsent.
  assert (Hp : getChannelPresence d.(district) ch.(Ch.channel)
                 ch.(Ch.brandAReach) maxReachInSer ch.(Ch.channelShare) maxShareInSer d
               = false).
  { unfold getChannelPresence. destruct Habsent as [Hz | Hlt].
    - rewrite (zero_le_zero _ Hz). reflexivity.
    - rewrite (lt_not_ge _ _ Hlt). destruct (_ <=? _); reflexivity. }
  rewrite Hp. cbn [negb]. repeat split; reflexivity.
Qed.

(** C8.  The claim fails on the competitor reach brandEReach.  In the
    district "Shravasti" the channel "Tiny" (brandAReach 0.1,
    brandDReach 1, brandEReach 2, maxCompReach 2) has a presence score
    below the threshold and is returned as absent: brandAReach,
    brandDReach, luxReach, maxCompReach, gap and indexVsCompetition are
    zero and indexVsBaseline is kept, but brandEReach is still 2, beside
    a maxCompReach of 0; in its CPT band brandAReach, brandDReach,
    maxCompReach and gap are zero and brandEReach is still 0.86. *)
Theorem calculateDistrictChannels_absent_keeps_brandE :
  exists ch o tbs0 tb0 tbs tb,
    nth_error brandEChannels 1 = Some ch
    /\ ch.(Ch.channel) = "Tiny"
    /\ ch.(Ch.brandEReach) = Some (Fin 2)
    /\ ch.(Ch.timebands) = Some tbs0
    /\ nth_error tbs0 2 = Some tb0
    /\ (or_zero tb0.(Tb.brandEReach) === Fin 0.86) = true
    /\ (presenceScore ch.(Ch.brandAReach)
          (Math_max (map Ch.brandAReach brandEChannels ++ [Fin 0.01]))
          ch.(Ch.channelShare)
          (Math_max (map Ch.channelShare brandEChannels ++ [Fin 0.01])) ruralDistrict
        <? presenceThreshold ruralDistrict.(district) ch.(Ch.channel)) = true
    /\ nth_error (calculateDistrictChannels brandEChannels ruralDistrict [ruralDistrict]) 1
       = Some o
    /\ o.(Ch.brandAReach) = Fin 0
    /\ o.(Ch.brandDReach) = Some (Fin 0)
    /\ o.(Ch.luxReach) = Some (Fin 0)
    /\ o.(Ch.maxCompReach) = Fin 0
    /\ o.(Ch.gap) = Fin 0
    /\ o.(Ch.indexVsCompetition) = Fin 0
    /\ o.(Ch.indexVsBaseline) = ch.(Ch.indexVsBaseline)
    /\ o.(Ch.brandEReach) = Some (Fin 2)
    /\ o.(Ch.timebands) = Some tbs
    /\ nth_error tbs 2 = Some tb
    /\ tb.(Tb.timeband) = "CPT"
    /\ tb.(Tb.brandAReach) = Fin 0
    /\ tb.(Tb.brandDReach) = Some (Fin 0)
    /\ tb.(Tb.luxReach) = Some (Fin 0)
    /\ tb.(Tb.maxCompReach) = Fin 0
    /\ tb.(Tb.gap) = Fin 0
    /\ tb.(Tb.brandEReach) = tb0.(Tb.brandEReach).
Proof.
  do 6 eexists.
  repeat (split; [vm_compute; reflexivity |]).
  vm_compute; reflexivity.
Qed.

(** ** Rounding to two decimals *)

Lemma Qfloor_half (k : Z) : Qfloor (inject_Z k + (1 # 2)) = k.
Proof.
  set (x := (inject_Z k + (1 # 2))%Q).
  pose proof (Qfloor_le x) as Hlo. pose proof (Qlt_floor x) as Hhi.
  set (f := Qfloor x) in *. unfold x in Hlo, Hhi.
  rewrite inject_Z_plus in Hhi. change (inject_Z 1) with 1%Q in Hhi.
  destruct (Z.lt_trichotomy f k) as [Hlt | [Heq | Hgt]]; [| exact Heq |].
  - exfalso. assert (H : (inject_Z (f + 1) <= inject_Z k)%Q)
      by (rewrite <- Zle_Qle; lia).
    rewrite inject_Z_plus in H. change (inject_Z 1) with 1%Q in H. lra.
  - exfalso. assert (H : (inject_Z (k + 1) <= inject_Z f)%Q)
      by (rewrite <- Zle_Qle; lia).
    rewrite inject_Z_plus in H. change (inject_Z 1) with 1%Q in H. lra.
Qed.

Lemma hundredths_zero : hundredths 0.
Proof. exists 0%Z. reflexivity. Qed.

Lemma hundredths_sub (p q : Q) : hundredths p -> hundredths q -> hundredths (p + - q).
Proof.
  intros [n Hn] [m Hm]. exists (n - m)%Z.
  rewrite Hn, Hm. unfold Z.sub. rewrite inject_Z_plus, inject_Z_opp. field.
Qed.

(** What [toFixed 2] returns below 1e21 is a whole number of
    hundredths. *)
Lemma toFixed2_hundredths (x : number) (q : Q) :
  toFixed 2 x = Fin q -> printable (Fin q) = true -> hundredths q.
Proof.
  destruct x as [ | | | a]; cbn [toFixed]; try discriminate.
  destruct (Qle_bool (inject_Z (10 ^ 21)) (Qabs a)) eqn:E.
  - intros [= <-] Hp. cbn [printable] in Hp.
    apply Qltb_lt in Hp. apply Qle_bool_iff in E. lra.
  - intros [= <-] _. eexists. reflexivity.
Qed.

(** [toFixed 2] leaves a whole number of hundredths as it is. *)
Lemma toFixed2_fixes (q : Q) :
  hundredths q -> exists q', toFixed 2 (Fin q) = Fin q' /\ q' == q.
Proof.
  intros [n Hn]. cbn [toFixed].
  destruct (Qle_bool (inject_Z (10 ^ 21)) (Qabs q)).
  { exists q. split; reflexivity. }
  eexists. split; [reflexivity |].
  change (inject_Z (10 ^ Z.of_nat 2)) with 100%Q.
  assert (Habs : Qabs q * 100 + (1 # 2) == inject_Z (Z.abs n) + (1 # 2)).
  { assert (Hq : Qabs q == inject_Z (Z.abs n) * / 100).
    { rewrite Hn. unfold Qdiv. rewrite Qabs_Qmult. reflexivity. }
    rewrite Hq. field. }
  rewrite (Qfloor_comp _ _ Habs), Qfloor_half.
  destruct (Qltb q 0) eqn:Es.
  - apply Qltb_lt in Es. rewrite Hn in Es.
    assert (Hneg : (n < 0)%Z).
    { apply Z.nle_gt. intros Hge.
      assert (H : (inject_Z 0 <= inject_Z n)%Q) by (rewrite <- Zle_Qle; exact Hge).
      change (inject_Z 0) with 0%Q in H.
      assert (0 <= inject_Z n / 100)%Q by (apply Qle_shift_div_l; [reflexivity | lra]).
      lra. }
    rewrite Z.abs_neq by lia. rewrite Z.opp_involutive. symmetry. exact Hn.
  - apply Qltb_ge in Es. rewrite Hn in Es.
    assert (Hpos : (0 <= n)%Z).
    { apply Z.nlt_ge. intros Hlt.
      assert (H : (inject_Z n < inject_Z 0)%Q) by (rewrite <- Zlt_Qlt; exact Hlt).
      change (inject_Z 0) with 0%Q in H.
      assert (inject_Z n / 100 < 0)%Q by (apply Qlt_shift_div_r; [reflexivity | lra]).
      lra. }
    rewrite Z.abs_eq by exact Hpos. symmetry. exact Hn.
Qed.

Lemma within_tolerance_eq (p q : Q) :
  p == q -> within_tolerance (Fin p) (Fin q) = true.
Proof.
  intros H. unfold within_tolerance. cbn [sub neg add Math_abs le].
  apply Qle_bool_iff.
  assert (E : p + - q == 0) by lra. rewrite E. discriminate.
Qed.

(** The number that [Math.max] returns is NaN, -Infinity (no argument)
    or one of its arguments. *)
Lemma max2_cases (x y : number) : max2 x y = NaN \/ max2 x y = x \/ max2 x y = y.
Proof.
  destruct x, y; cbn; try (destruct (Qltb _ _)); tauto.
Qed.

Lemma Math_max_cases (l : list number) :
  Math_max l = NaN \/ Math_max l = NegInf \/ In (Math_max l) l.
Proof.
  unfold Math_max.
  assert (H : forall acc, fold_left max2 l acc = NaN \/ fold_left max2 l acc = acc
                          \/ In (fold_left max2 l acc) l).
  { induction l as [| y l IH]; intros acc; cbn [fold_left]; [tauto |].
    destruct (IH (max2 acc y)) as [H | [H | H]].
    - left. exact H.
    - rewrite H. destruct (max2_cases acc y) as [E | [E | E]]; rewrite E.
      + left. reflexivity.
      + right. left. reflexivity.
      + right. right. left. reflexivity.
    - right. right. right. exact H. }
  destruct (H NegInf) as [E | [E | E]]; tauto.
Qed.

Lemma rounded2_or_zero (g : number -> number) (o : option number) :
  rounded2 (or_zero (option_map (fun r => toFixed 2 (g r)) o)).
Proof.
  unfold or_zero, or_default. destruct o as [r |]; cbn [option_map].
  - destruct (truthy _); [right; eexists; reflexivity | left; reflexivity].
  - left. reflexivity.
Qed.

Lemma rounded2_hundredths (x : number) (q : Q) :
  rounded2 x -> x = Fin q -> printable (Fin q) = true -> hundredths q.
Proof.
  intros [-> | [y ->]] E Hp.
  - injection E as <-. apply hundredths_zero.
  - eapply toFixed2_hundredths; eassumption.
Qed.

Lemma printable_fin (x : number) : printable x = true -> exists q, x = Fin q.
Proof. destruct x; try discriminate. eexists. reflexivity. Qed.

(** The district engine recomputes the gap from two rounded reaches, so
    rounding the difference changes nothing. *)
Lemma rounded_gap_exact (a m : number) (l : list number) :
  rounded2 a -> Forall rounded2 l -> m = Math_max l ->
  printable a = true -> printable m = true ->
  within_tolerance (toFixed 2 (a - m)) (a - m) = true.
Proof.
  intros Ha Hl Hm Pa Pm.
  destruct (printable_fin a Pa) as [A EA]. destruct (printable_fin m Pm) as [M EM].
  assert (HA : hundredths A)
    by (eapply rounded2_hundredths; [exact Ha | exact EA | rewrite <- EA; exact Pa]).
  assert (HM : hundredths M).
  { destruct (Math_max_cases l) as [E | [E | E]].
    - rewrite <- Hm, EM in E. discriminate.
    - rewrite <- Hm, EM in E. discriminate.
    - rewrite <- Hm in E. rewrite Forall_forall in Hl.
      apply list_elem_of_In in E. specialize (Hl m E).
      eapply rounded2_hundredths; [exact Hl | exact EM | rewrite <- EM; exact Pm]. }
  rewrite EA, EM. cbn [sub neg add].
  destruct (toFixed2_fixes (A + - M) (hundredths_sub A M HA HM)) as (q' & -> & Hq').
  apply within_tolerance_eq. exact Hq'.
Qed.

Lemma within_tolerance_sub (a m : number) :
  is_finite a = true -> is_finite m = true -> within_tolerance (a - m) (a - m) = true.
Proof.
  destruct a, m; try discriminate. intros _ _.
  cbn [sub neg add]. apply within_tolerance_eq. reflexivity.
Qed.

(** *** Timebands parsed from raw rows *)

Lemma parse_output_cases (rawData : list RawRow) (market channel : string)
    (tbs : list TimebandMetrics) (tb : TimebandMetrics) :
  parseTimebandData rawData market !! channel = Some tbs -> In tb tbs ->
  exists (timebandData : gmap string TimebandAccum) (label : string),
    fold_left groupRow rawData ∅ !! channel = Some timebandData
    /\ In label TIMEBAND_LABELS
    /\ ((timebandData !! label = None /\ tb = createEmptyTimeband label market)
        \/ exists data, timebandData !! label = Some data
                        /\ tb = timebandMetricsOf market label data).
Proof.
  unfold parseTimebandData. rewrite lookup_fmap.
  destruct (fold_left groupRow rawData ∅ !! channel) as [timebandData |];
    [| discriminate].
  intros H Hin.
  change (Some (timebandsOfChannel market timebandData) = Some tbs) in H.
  injection H as <-. unfold timebandsOfChannel in Hin.
  apply in_map_iff in Hin as (label & Htb & Hlabel).
  exists timebandData, label. split; [reflexivity |]. split; [exact Hlabel |].
  destruct (timebandData !! label) as [data |].
  - right. exists data. split; [reflexivity | symmetry; exact Htb].
  - left. split; [reflexivity | symmetry; exact Htb].
Qed.

Lemma createEmptyTimeband_invariants (label market : string) :
  let tb := createEmptyTimeband label market in
  tb.(Tb.brandAReach) = Fin 0 /\ tb.(Tb.maxCompReach) = Fin 0 /\ tb.(Tb.gap) = Fin 0
  /\ gap_invariant_tb tb = true /\ maxComp_invariant_tb tb = true.
Proof.
  unfold createEmptyTimeband.
  destruct (String.eqb market "Karnataka"); repeat split; reflexivity.
Qed.

Lemma timebandMetricsOf_invariants (market label : string) (data : TimebandAccum) :
  let tb := timebandMetricsOf market label data in
  tb.(Tb.gap) = tb.(Tb.brandAReach) - tb.(Tb.maxCompReach)
  /\ tb.(Tb.maxCompReach) = Math_max (Fin 0 :: map snd (competitorReachesOf data)).
Proof.
  unfold timebandMetricsOf.
  destruct (String.eqb market "Karnataka"); split; reflexivity.
Qed.

(** *** Sample timebands *)

Lemma sample_output_cases (channel : ChannelRecord) (market : string)
    (tb : TimebandMetrics) :
  In tb (generateSampleTimebandData channel market) ->
  exists label, In label TIMEBAND_LABELS
                /\ tb = sampleTimeband channel market (getChannelDistribution channel) label.
Proof.
  unfold generateSampleTimebandData. intros Hin.
  apply in_map_iff in Hin as (label & Htb & Hlabel).
  exists label. split; [exact Hlabel | symmetry; exact Htb].
Qed.

Lemma sampleTimeband_invariants (channel : ChannelRecord) (market label : string) :
  let tb := sampleTimeband channel market (getChannelDistribution channel) label in
  tb.(Tb.gap) = tb.(Tb.brandAReach) - tb.(Tb.maxCompReach).
Proof.
  cbn zeta. unfold sampleTimeband. destruct (String.eqb market "Karnataka"); reflexivity.
Qed.

(** *** District-level records *)

Lemma district_output_cases (serChannels : list ChannelRecord) (d : DistrictRecord)
    (serDistricts : list DistrictRecord) (o : ChannelRecord) :
  In o (calculateDistrictChannels serChannels d serDistricts) ->
  exists ch, In ch serChannels
    /\ (o = absentChannel ch
        \/ exists baseFactor maxShareInSer, o = presentChannel d baseFactor maxShareInSer ch).
Proof.
  unfold calculateDistrictChannels. intros Hin.
  apply in_map_iff in Hin as (ch & Ho & Hch).
  exists ch. split; [exact Hch |].
  destruct (negb _) in Ho; [left | right; eexists; eexists]; symmetry; exact Ho.
Qed.

Lemma absentChannel_invariants (ch : ChannelRecord) :
  let o := absentChannel ch in
  gap_invariant_ch o = true
  /\ o.(Ch.maxCompReach) = Math_max [or_zero o.(Ch.brandDReach); or_zero o.(Ch.luxReach)]
  /\ forall tbs tb, o.(Ch.timebands) = Some tbs -> In tb tbs ->
       gap_invariant_tb tb = true
       /\ tb.(Tb.maxCompReach)
          = Math_max [or_zero tb.(Tb.brandDReach); or_zero tb.(Tb.luxReach); Fin 0].
Proof.
  cbn zeta. split; [reflexivity |]. split; [reflexivity |].
  intros tbs tb Htbs Hin. unfold absentChannel in Htbs. cbn [Ch.timebands] in Htbs.
  destruct (Ch.timebands ch) as [tbs0 |]; [| discriminate].
  cbn [option_map] in Htbs. injection Htbs as <-.
  apply in_map_iff in Hin as (tb0 & <- & _).
  split; reflexivity.
Qed.

Lemma scaledTimeband_invariants
    (finalFactor compFactor1 compFactor2 normalizedAdjust : number)
    (tb0 : TimebandMetrics) :
  let tb := scaledTimeband finalFactor compFactor1 compFactor2 normalizedAdjust tb0 in
  (printable tb.(Tb.brandAReach) = true -> printable tb.(Tb.maxCompReach) = true ->
   gap_invariant_tb tb = true)
  /\ tb.(Tb.maxCompReach)
     = Math_max [ or_zero tb.(Tb.brandDReach); or_zero tb.(Tb.luxReach);
                  toFixed 2 (tb0.(Tb.maxCompReach) * compFactor1 * normalizedAdjust) ].
Proof.
  cbn zeta. split; [| reflexivity].
  unfold gap_invariant_tb, scaledTimeband.
  cbn [Tb.gap Tb.brandAReach Tb.maxCompReach].
  intros Pa Pm.
  eapply rounded_gap_exact; [| | reflexivity | exact Pa | exact Pm].
  - right. eexists. reflexivity.
  - constructor;
      [apply (rounded2_or_zero (fun r => r * compFactor1 * normalizedAdjust)) |].
    constructor;
      [apply (rounded2_or_zero (fun r => r * compFactor2 * normalizedAdjust)) |].
    constructor; [right; eexists; reflexivity | constructor].
Qed.

Lemma presentChannel_invariants (d : DistrictRecord) (baseFactor maxShareInSer : number)
    (ch : ChannelRecord) :
  let o := presentChannel d baseFactor maxShareInSer ch in
  (printable o.(Ch.brandAReach) = true -> printable o.(Ch.maxCompReach) = true ->
   gap_invariant_ch o = true)
  /\ o.(Ch.maxCompReach) = Math_max [or_zero o.(Ch.brandDReach); or_zero o.(Ch.luxReach)]
  /\ forall tbs tb, o.(Ch.timebands) = Some tbs -> In tb tbs ->
       exists tbs0 tb0 compFactor1 normalizedAdjust,
         ch.(Ch.timebands) = Some tbs0 /\ In tb0 tbs0
         /\ (printable tb.(Tb.brandAReach) = true ->
             printable tb.(Tb.maxCompReach) = true -> gap_invariant_tb tb = true)
         /\ tb.(Tb.maxCompReach)
            = Math_max [ or_zero tb.(Tb.brandDReach); or_zero tb.(Tb.luxReach);
                         toFixed 2 (tb0.(Tb.maxCompReach) * compFactor1 * normalizedAdjust) ].
Proof.
  cbn zeta. split; [| split; [reflexivity |]].
  - unfold gap_invariant_ch, presentChannel.
    cbn [Ch.gap Ch.brandAReach Ch.maxCompReach].
    intros Pa Pm.
    eapply rounded_gap_exact; [| | reflexivity | exact Pa | exact Pm].
    + right. eexists. reflexivity.
    + constructor; [apply (rounded2_or_zero (fun r => r * _)) |].
      constructor; [apply (rounded2_or_zero (fun r => r * _)) | constructor].
  - intros tbs tb Htbs Hin. unfold presentChannel in Htbs. cbn [Ch.timebands] in Htbs.
    destruct (Ch.timebands ch) as [tbs0 |]; [| discriminate].
    cbn [option_map] in Htbs. injection Htbs as <-.
    unfold scaleTimebands in Hin.
    apply in_map_iff in Hin as ([tb0 w] & <- & Hin).
    apply in_map_iff in Hin as (tb1 & [= <- _] & Hin).
    cbn [fst snd].
    eexists tbs0, tb1, _, _. split; [reflexivity |]. split; [exact Hin |].
    apply scaledTimeband_invariants.
Qed.

(** The channel "Aaj Tak Action Utsav" in the district "Kanpur Nagar"
    draws the seeds 9999 and 0 for its two competitor jitters: with a
    share of 1 against a largest share of 10 the competitor factors are
    1.0719856 and 0.928 (base factor and genre affinity are both 1). *)
Lemma example_competitor_factors :
  simpleHash "Kanpur Nagar_Aaj Tak Action Utsav_comp1" = 739939999%Z
  /\ simpleHash "Kanpur Nagar_Aaj Tak Action Utsav_comp2" = 739940000%Z
  /\ (getChannelJitter "Kanpur Nagar" "Aaj Tak Action Utsav" (Fin 1) (Fin 10) "_comp1"
       === Fin 0.0719856) = true
  /\ (getChannelJitter "Kanpur Nagar" "Aaj Tak Action Utsav" (Fin 1) (Fin 10) "_comp2"
       === Fin (-0.072)) = true
  /\ (getBaseCdmiFactor exampleDistrict [exampleDistrict] === Fin 1) = true
  /\ (getGenreAffinity "GEC" exampleDistrict.(urbanPct) exampleDistrict.(literacyPct)
       === Fin 1) = true.
Proof. repeat split; vm_compute; reflexivity. Qed.

(** The gap part of the invariant holds of every record the producers
    return: gap is brandAReach - maxCompReach in the timebands of
    [parseTimebandData], [createEmptyTimeband] and
    [generateSampleTimebandData], and within 1e-6 of it in the channels
    and timebands of [calculateDistrictChannels], which round the
    difference of two values already rounded to hundredths (the two
    reaches being finite, and below 1e21 for the district records). *)
Lemma gap_invariant_of_producers :
  (forall (rawData : list RawRow) (market channel : string)
          (tbs : list TimebandMetrics) (tb : TimebandMetrics),
     parseTimebandData rawData market !! channel = Some tbs -> In tb tbs ->
     tb.(Tb.gap) = tb.(Tb.brandAReach) - tb.(Tb.maxCompReach)
     /\ (is_finite tb.(Tb.brandAReach) = true -> is_finite tb.(Tb.maxCompReach) = true ->
         gap_invariant_tb tb = true))
  /\ (forall label market : string,
        gap_invariant_tb (createEmptyTimeband label market) = true)
  /\ (forall (channel : ChannelRecord) (market : string) (tb : TimebandMetrics),
        In tb (generateSampleTimebandData channel market) ->
        tb.(Tb.gap) = tb.(Tb.brandAReach) - tb.(Tb.maxCompReach)
        /\ (is_finite tb.(Tb.brandAReach) = true -> is_finite tb.(Tb.maxCompReach) = true ->
            gap_invariant_tb tb = true))
  /\ (forall (serChannels : list ChannelRecord) (d : DistrictRecord)
             (serDistricts : list DistrictRecord) (o : ChannelRecord),
        In o (calculateDistrictChannels serChannels d serDistricts) ->
        (printable o.(Ch.brandAReach) = true -> printable o.(Ch.maxCompReach) = true ->
         gap_invariant_ch o = true)
        /\ forall tbs tb, o.(Ch.timebands) = Some tbs -> In tb tbs ->
             printable tb.(Tb.brandAReach) = true ->
             printable tb.(Tb.maxCompReach) = true -> gap_invariant_tb tb = true).
Proof.
  split; [| split; [| split]].
  - intros rawData market channel tbs tb Hparse Hin.
    destruct (parse_output_cases _ _ _ _ _ Hparse Hin)
      as (timebandData & label & Hgroup & Hlabel & [[Hnone ->] | (data & Hsome & ->)]).
    + destruct (createEmptyTimeband_invariants label market) as (Ea & Em & Eg & Hgap & _).
      split; [rewrite Ea, Em, Eg; reflexivity |].
      intros _ _; exact Hgap.
    + destruct (timebandMetricsOf_invariants market label data) as (Eg & Em).
      split; [exact Eg |].
      intros Fa Fm. unfold gap_invariant_tb. rewrite Eg.
      apply within_tolerance_sub; assumption.
  - intros label market.
    destruct (createEmptyTimeband_invariants label market) as (_ & _ & _ & Hgap & _).
    exact Hgap.
  - intros channel market tb Hin.
    destruct (sample_output_cases _ _ _ Hin) as (label & _ & ->).
    pose proof (sampleTimeband_invariants channel market label) as Eg.
    split; [exact Eg |].
    intros Fa Fm. unfold gap_invariant_tb. rewrite Eg.
    apply within_tolerance_sub; assumption.
  - intros serChannels d serDistricts o Hin.
    destruct (district_output_cases _ _ _ _ Hin)
      as (ch & Hch & [-> | (baseFactor & maxShareInSer & ->)]).
    + destruct (absentChannel_invariants ch) as (Hgap & _ & Htb).
      split; [intros _ _; exact Hgap |].
      intros tbs tb Htbs Hintb _ _. apply (Htb tbs tb Htbs Hintb).
    + destruct (presentChannel_invariants d baseFactor maxShareInSer ch)
        as (Hgap & _ & Htb).
      split; [exact Hgap |].
      intros tbs tb Htbs Hintb.
      destruct (Htb tbs tb Htbs Hintb) as (_ & _ & _ & _ & _ & _ & Hg & _).
      exact Hg.
Qed.

(** C6.  The claim fails on the timebands that
    [calculateDistrictChannels] returns.  The region-level records of
    the example satisfy both invariants.  In the district "Kanpur Nagar"
    the channel "Aaj Tak Action Utsav" (brandDReach 2, luxReach 10) comes
    back with brandDReach 2.14, luxReach 9.28 and maxCompReach 9.28,
    their maximum; its CPT band (brandDReach 1, luxReach 5) comes back
    with brandDReach 1.07, luxReach 4.63, no other competitor reach, and
    maxCompReach 5.35: the region-level maxCompReach scaled by the first
    competitor's factor, above every competitor reach of the band.  The
    gap is computed from that value, so gap = brandAReach - maxCompReach
    holds of the band as of the channel.  [generateSampleTimebandData]
    copies brandDReach and brandEReach only: for the same channel, which
    carries luxReach, its CPT band has brandDReach 0.96, brandEReach 0
    and maxCompReach 4.8. *)
Theorem district_timeband_maxComp_divergence :
  forallb (fun ch =>
             gap_invariant_ch ch
             && match ch.(Ch.timebands) with
                | Some tbs =>
                    forallb (fun tb => gap_invariant_tb tb && maxComp_invariant_tb tb) tbs
                | None => true
                end) exampleChannels = true
  /\ exists ch o tbs tb sample,
       nth_error exampleChannels 1 = Some ch
       /\ ch.(Ch.channel) = "Aaj Tak Action Utsav"
       /\ nth_error (calculateDistrictChannels exampleChannels exampleDistrict
                       [exampleDistrict]) 1 = Some o
       /\ (or_zero o.(Ch.brandDReach) === Fin 2.14) = true
       /\ (or_zero o.(Ch.luxReach) === Fin 9.28) = true
       /\ (o.(Ch.maxCompReach) === Fin 9.28) = true
       /\ gap_invariant_ch o = true
       /\ o.(Ch.timebands) = Some tbs
       /\ nth_error tbs 2 = Some tb
       /\ tb.(Tb.timeband) = "CPT"
       /\ (or_zero tb.(Tb.brandDReach) === Fin 1.07) = true
       /\ (or_zero tb.(Tb.luxReach) === Fin 4.63) = true
       /\ (tb.(Tb.brandEReach), tb.(Tb.brandBReach), tb.(Tb.brandCReach)) = (None, None, None)
       /\ (tb.(Tb.maxCompReach) === Fin 5.35) = true
       /\ gap_invariant_tb tb = true
       /\ maxComp_invariant_tb tb = false
       /\ nth_error (generateSampleTimebandData ch "UP") 2 = Some sample
       /\ sample.(Tb.timeband) = "CPT"
       /\ (or_zero sample.(Tb.brandDReach) === Fin 0.96) = true
       /\ (or_zero sample.(Tb.brandEReach) === Fin 0) = true
       /\ (sample.(Tb.luxReach), sample.(Tb.brandBReach), sample.(Tb.brandCReach))
          = (None, None, None)
       /\ (sample.(Tb.maxCompReach) === Fin 4.8) = true
       /\ gap_invariant_tb sample = true
       /\ maxComp_invariant_tb sample = false.
Proof.
  split; [vm_compute; reflexivity |].
  do 5 eexists.
  repeat (split; [vm_compute; reflexivity |]).
  vm_compute; reflexivity.
Qed.

(* ================================================================== *)
(** * Further properties of the modelled code *)
(* ================================================================== *)

(** ** Relevance filter and optimizer output *)

Lemma gt_fin_weaken (x : number) (a b : Q) :
  (b <= a)%Q -> (x >? Fin a) = true -> (x >? Fin b) = true.
Proof.
  intros Hab. destruct x as [ | | | q]; simpl; try discriminate; try reflexivity.
  unfold gt, lt. intros H%Qltb_lt. apply Qltb_lt. lra.
Qed.

Lemma isActiveBrandAChannel_positive (ch : ChannelRecord) :
  isActiveBrandAChannel ch = true -> (ch.(Ch.brandAReach) >? Fin 0) = true.
Proof.
  unfold isActiveBrandAChannel. intros H.
  apply orb_true_iff in H as [H | H].
  - apply (gt_fin_weaken _ 1.0 0); [lra | exact H].
  - apply andb_true_iff in H as [H _].
    apply (gt_fin_weaken _ 0.5 0); [lra | exact H].
Qed.

Lemma isEmergingChannel_active (ch : ChannelRecord) :
  isEmergingChannel ch = true -> isActiveBrandAChannel ch = true.
Proof.
  unfold isEmergingChannel, isActiveBrandAChannel. intros H.
  apply andb_true_iff in H as [H Hs]. apply andb_true_iff in H as [Ha _].
  rewrite Ha, Hs. apply orb_true_r.
Qed.

Ltac case_ifs :=
  repeat match goal with
         | |- context [if ?b then _ else _] => destruct b eqn:?; cbn [andb orb negb]
         end.

(** The status of a channel is OPPORTUNITY exactly when the filter's
    second tier holds. *)
Lemma isRealOpportunity_status (ch : ChannelRecord) :
  isRealOpportunity ch = true <-> calculateStatus ch = "OPPORTUNITY".
Proof.
  unfold isRealOpportunity, calculateStatus.
  destruct (ch.(Ch.brandAReach) === Fin 0) eqn:Ha; cbn [andb].
  - destruct (ch.(Ch.maxCompReach) >=? Fin 2.0) eqn:Hm; cbn [andb].
    + rewrite (ge_pos_not_zero _ 2.0) by (reflexivity || exact Hm).
      destruct (ch.(Ch.channelShare) >=? Fin 1.0).
      * split; reflexivity.
      * split; [discriminate |]. case_ifs; discriminate.
    + split; [discriminate |]. case_ifs; discriminate.
  - split; [discriminate |]. case_ifs; discriminate.
Qed.

(** X1.  In mode 'actionable' the filter keeps exactly the channels of
    the first two tiers, in their order: every emerging channel (tier 3)
    is already an active one (tier 1).  In mode 'all' the list is
    returned as it is. *)
Theorem filterRelevantChannels_two_tiers (channels : list ChannelRecord) :
  filterRelevantChannels channels mode_actionable =
    List.filter (fun ch => isActiveBrandAChannel ch || isRealOpportunity ch) channels
  /\ (forall ch, In ch (filterRelevantChannels channels mode_actionable) <->
        In ch channels /\ (isActiveBrandAChannel ch = true \/ isRealOpportunity ch = true))
  /\ filterRelevantChannels channels mode_all = channels.
Proof.
  assert (E : filterRelevantChannels channels mode_actionable =
    List.filter (fun ch => isActiveBrandAChannel ch || isRealOpportunity ch) channels).
  { unfold filterRelevantChannels. apply List.filter_ext. intros ch.
    destruct (isEmergingChannel ch) eqn:He; [| apply orb_false_r].
    rewrite (isEmergingChannel_active ch He). reflexivity. }
  split; [exact E |]. split; [| reflexivity].
  intros ch. rewrite E, filter_In, orb_true_iff. reflexivity.
Qed.

(** The loop body decides an entry for every channel with brandAReach above 0. *)
Lemma optimizeChannel_positive P intensity threshold (ch : ChannelRecord) :
  (ch.(Ch.brandAReach) >? Fin 0) = true ->
  exists r, optimizeChannel P intensity threshold ch = Some r
            /\ (r.(Res.recommendation) = INCREASE \/ r.(Res.recommendation) = MAINTAIN).
Proof.
  intros Ha. unfold optimizeChannel.
  rewrite (gt_zero_not_zero _ Ha), Ha. cbn [andb].
  destruct ((ch.(Ch.gap) <? gapThreshold intensity)
            && (ch.(Ch.indexVsCompetition) <? indexThreshold intensity)).
  { eexists. split; [reflexivity | left; reflexivity]. }
  destruct (includes P ch.(Ch.channel)); cbn [orb negb andb].
  { eexists. split; [reflexivity | right; reflexivity]. }
  destruct (ch.(Ch.indexVsCompetition) >=? Fin 100) eqn:E100.
  { eexists. split; [reflexivity | right; reflexivity]. }
  destruct (ch.(Ch.indexVsCompetition) >? Fin 120) eqn:E120.
  { apply (gt_fin_ge_fin _ 120 100) in E120; [congruence | lra]. }
  rewrite andb_false_r.
  eexists. split; [reflexivity | right; reflexivity].
Qed.

Lemma optimizeChannel_opportunity P intensity threshold (ch : ChannelRecord) :
  isRealOpportunity ch = true ->
  exists r, optimizeChannel P intensity threshold ch = Some r
            /\ r.(Res.recommendation) = ADD.
Proof.
  unfold isRealOpportunity, optimizeChannel. intros H. rewrite H.
  apply andb_true_iff in H as [H _]. apply andb_true_iff in H as [Ha Hm].
  rewrite (ge_pos_not_zero (Ch.maxCompReach ch) 2.0) by (reflexivity || exact Hm).
  rewrite andb_false_r.
  eexists. split; reflexivity.
Qed.

Lemma optimizeChannel_channel P intensity threshold (ch : ChannelRecord) r :
  optimizeChannel P intensity threshold ch = Some r -> r.(Res.channel) = ch.(Ch.channel).
Proof.
  unfold optimizeChannel. case_ifs; intros [= <-]; reflexivity.
Qed.

Section OptimizerKeys.
Variables (P : list string) (intensity threshold : number).

Let step (results : gmap string OptimizationResult) (ch : ChannelRecord) :=
  match optimizeChannel P intensity threshold ch with
  | Some r => <[ch.(Ch.channel) := r]> results
  | None => results
  end.

(** A key of the map stays a key. *)
Lemma loop_key_kept (l : list ChannelRecord) acc (name : string) :
  is_Some (acc !! name) -> is_Some (fold_left step l acc !! name).
Proof.
  revert acc. induction l as [| c l IH]; intros acc H; [exact H |].
  cbn [fold_left]. apply IH. unfold step.
  destruct (optimizeChannel P intensity threshold c); [| exact H].
  destruct (decide (c.(Ch.channel) = name)) as [<- | Hne].
  - rewrite lookup_insert_eq. eexists. reflexivity.
  - rewrite lookup_insert_ne by exact Hne. exact H.
Qed.

(** A channel for which the loop body decides has a key at the end. *)
Lemma loop_key_set (l : list ChannelRecord) acc (ch : ChannelRecord) :
  In ch l -> is_Some (optimizeChannel P intensity threshold ch) ->
  is_Some (fold_left step l acc !! ch.(Ch.channel)).
Proof.
  revert acc. induction l as [| c l IH]; intros acc Hin Hr; [destruct Hin |].
  cbn [fold_left]. destruct Hin as [-> | Hin].
  - apply loop_key_kept. unfold step. destruct Hr as [r ->].
    rewrite lookup_insert_eq. eexists. reflexivity.
  - apply IH; assumption.
Qed.

(** Every entry was decided by the iteration of a channel of that name. *)
Lemma loop_entry_named (l : list ChannelRecord) acc (name : string) r :
  fold_left step l acc !! name = Some r ->
  acc !! name = Some r \/
  exists ch, In ch l /\ ch.(Ch.channel) = name
             /\ optimizeChannel P intensity threshold ch = Some r.
Proof.
  revert acc. induction l as [| c l IH]; intros acc H; [left; exact H |].
  cbn [fold_left] in H. apply IH in H as [H | (ch & Hin & Hn & Hch)].
  - unfold step in H.
    destruct (optimizeChannel P intensity threshold c) as [rc |] eqn:Ec.
    + destruct (decide (c.(Ch.channel) = name)) as [E | Hne].
      * rewrite <- E in H. rewrite lookup_insert_eq in H. injection H as <-.
        right. exists c. split; [left; reflexivity | split; [exact E | exact Ec]].
      * rewrite lookup_insert_ne in H by exact Hne. left. exact H.
    + left. exact H.
  - right. exists ch. split; [right; exact Hin | split; [exact Hn | exact Hch]].
Qed.
End OptimizerKeys.

(** X2.  Every channel that the actionable filter keeps is handled by
    the optimizer: its status is not INACTIVE and the map returned by
    [runOptimization], at any intensity and threshold, has an entry
    under its name. *)
Theorem filterRelevantChannels_kept_has_entry
    (channels : list ChannelRecord) (intensity threshold : number) (ch : ChannelRecord) :
  In ch (filterRelevantChannels channels mode_actionable) ->
  calculateStatus ch <> "INACTIVE"
  /\ is_Some (runOptimization channels intensity threshold !! ch.(Ch.channel)).
Proof.
  intros Hin.
  assert (Hch : In ch channels /\
                (isActiveBrandAChannel ch = true \/ isRealOpportunity ch = true)).
  { unfold filterRelevantChannels in Hin. apply filter_In in Hin as [Hin Hk].
    split; [exact Hin |].
    apply orb_true_iff in Hk as [Hk | Hk].
    - apply orb_true_iff in Hk. exact Hk.
    - left. apply isEmergingChannel_active. exact Hk. }
  destruct Hch as [Hl [Hact | Hopp]].
  - apply isActiveBrandAChannel_positive in Hact.
    split.
    + unfold calculateStatus. rewrite (gt_zero_not_zero _ Hact), Hact. cbn [andb].
      case_ifs; discriminate.
    + unfold runOptimization. apply loop_key_set; [exact Hl |].
      destruct (optimizeChannel_positive (getProtectedChannels channels threshold)
                  intensity threshold ch Hact) as (r & -> & _).
      eexists. reflexivity.
  - split.
    + apply isRealOpportunity_status in Hopp. rewrite Hopp. discriminate.
    + unfold runOptimization. apply loop_key_set; [exact Hl |].
      destruct (optimizeChannel_opportunity (getProtectedChannels channels threshold)
                  intensity threshold ch Hopp) as (r & -> & _).
      eexists. reflexivity.
Qed.

Lemma filterRelevantChannels_kept_has_entry_witness :
  calculateStatus trailingChannel <> "INACTIVE"
  /\ is_Some (runOptimization increaseScenario (Fin 15) (Fin 70) !! "Trailing").
Proof.
  apply (filterRelevantChannels_kept_has_entry increaseScenario (Fin 15) (Fin 70)
           trailingChannel).
  vm_compute. right. right. right. left. reflexivity.
Defined.

(** What the loop body decided, read back from the entry. *)
Lemma optimizeChannel_sound P intensity threshold (ch : ChannelRecord) r :
  optimizeChannel P intensity threshold ch = Some r ->
  (r.(Res.recommendation) = ADD /\ isRealOpportunity ch = true)
  \/ (r.(Res.recommendation) = INCREASE
      /\ (ch.(Ch.brandAReach) >? Fin 0) = true
      /\ (ch.(Ch.gap) <? gapThreshold intensity) = true
      /\ (ch.(Ch.indexVsCompetition) <? indexThreshold intensity) = true)
  \/ (r.(Res.recommendation) = MAINTAIN /\ r.(Res.priority) = LOW).
Proof.
  unfold optimizeChannel, isRealOpportunity.
  destruct ((ch.(Ch.brandAReach) === Fin 0) && (ch.(Ch.maxCompReach) === Fin 0));
    [discriminate |].
  destruct ((ch.(Ch.brandAReach) === Fin 0) && (ch.(Ch.maxCompReach) >=? Fin 2.0)
            && (ch.(Ch.channelShare) >=? Fin 1.0)).
  { intros [= <-]. left. split; reflexivity. }
  destruct (ch.(Ch.brandAReach) >? Fin 0) eqn:Ha;
  destruct (ch.(Ch.gap) <? gapThreshold intensity) eqn:Hg;
  destruct (ch.(Ch.indexVsCompetition) <? indexThreshold intensity) eqn:Hi;
  cbn [andb];
  try (intros [= <-]; right; left; repeat split; reflexivity);
  (destruct (includes P ch.(Ch.channel)); cbn [orb negb andb];
   [intros [= <-]; right; right; split; reflexivity |]);
  (destruct (ch.(Ch.indexVsCompetition) >=? Fin 100) eqn:E100;
   [intros [= <-]; right; right; split; reflexivity |]);
  (destruct (ch.(Ch.indexVsCompetition) >? Fin 120) eqn:E120;
   [apply (gt_fin_ge_fin _ 120 100) in E120; [congruence | lra] |]);
  rewrite ?andb_false_r; try discriminate;
  intros [= <-]; right; right; split; reflexivity.
Qed.

(** X3.  Every entry of the map returned by [runOptimization] carries
    its key as channel name and was decided for a channel of that name
    in the list.  An ADD entry comes from a channel of status
    OPPORTUNITY, an INCREASE entry from a channel with brandAReach above
    0 whose gap and index are below the two intensity thresholds, and
    every other entry is MAINTAIN with priority LOW. *)
Theorem runOptimization_entry_sound
    (channels : list ChannelRecord) (intensity threshold : number)
    (name : string) (r : OptimizationResult) :
  runOptimization channels intensity threshold !! name = Some r ->
  r.(Res.channel) = name
  /\ exists ch, In ch channels /\ ch.(Ch.channel) = name
     /\ ((r.(Res.recommendation) = ADD /\ calculateStatus ch = "OPPORTUNITY")
         \/ (r.(Res.recommendation) = INCREASE
             /\ (ch.(Ch.brandAReach) >? Fin 0) = true
             /\ (ch.(Ch.gap) <? gapThreshold intensity) = true
             /\ (ch.(Ch.indexVsCompetition) <? indexThreshold intensity) = true)
         \/ (r.(Res.recommendation) = MAINTAIN /\ r.(Res.priority) = LOW)).
Proof.
  unfold runOptimization. intros H.
  apply loop_entry_named in H as [H | (ch & Hin & Hn & Hch)].
  { rewrite lookup_empty in H. discriminate. }
  split.
  - rewrite <- Hn. eapply optimizeChannel_channel. exact Hch.
  - exists ch. split; [exact Hin |]. split; [exact Hn |].
    destruct (optimizeChannel_sound _ _ _ _ _ Hch) as [[Hr Ho] | [Hi | Hm]].
    + left. split; [exact Hr |]. apply isRealOpportunity_status. exact Ho.
    + right. left. exact Hi.
    + right. right. exact Hm.
Qed.

Lemma runOptimization_entry_sound_witness :
  (Res.mk "Trailing" INCREASE HIGH (GapOfIndex (Fin (-6.0)) (Fin 60))).(Res.channel)
    = "Trailing"
  /\ exists ch, In ch increaseScenario /\ ch.(Ch.channel) = "Trailing"
     /\ ((INCREASE = ADD /\ calculateStatus ch = "OPPORTUNITY")
         \/ (INCREASE = INCREASE
             /\ (ch.(Ch.brandAReach) >? Fin 0) = true
             /\ (ch.(Ch.gap) <? gapThreshold (Fin 15)) = true
             /\ (ch.(Ch.indexVsCompetition) <? indexThreshold (Fin 15)) = true)
         \/ (INCREASE = MAINTAIN /\ HIGH = LOW)).
Proof.
  apply (runOptimization_entry_sound increaseScenario (Fin 15) (Fin 70) "Trailing"
           (Res.mk "Trailing" INCREASE HIGH (GapOfIndex (Fin (-6.0)) (Fin 60)))).
  vm_compute. reflexivity.
Defined.

(** ** The protected set and the threshold *)

Lemma includes_In (l : list string) (name : string) :
  includes l name = true <-> In name l.
Proof.
  unfold includes. rewrite existsb_exists. split.
  - intros (x & Hx & E). apply String.eqb_eq in E. subst x. exact Hx.
  - intros H. exists name. split; [exact H | apply String.eqb_refl].
Qed.

Lemma In_firstn {A} (n : nat) (l : list A) (x : A) : In x (firstn n l) -> In x l.
Proof.
  intros H. rewrite <- (firstn_skipn n l). apply in_or_app. left. exact H.
Qed.

(** A protected name is the name of a channel of the list with
    brandAReach above 0. *)
Lemma getProtectedChannels_origin (channels : list ChannelRecord) (threshold : number)
    (name : string) :
  In name (getProtectedChannels channels threshold) ->
  exists ch, In ch channels /\ ch.(Ch.channel) = name
             /\ (ch.(Ch.brandAReach) >? Fin 0) = true.
Proof.
  unfold getProtectedChannels, slice0. intros H.
  apply in_map_iff in H as (ch & Hn & Hin).
  apply In_firstn in Hin.
  apply (Permutation_in _ (sort_by_perm _)) in Hin.
  apply filter_In in Hin as [Hin Ha].
  exists ch. split; [exact Hin |]. split; [exact Hn | exact Ha].
Qed.

Lemma NoDup_map_inj {A B} (f : A -> B) (l : list A) (x y : A) :
  List.NoDup (map f l) -> In x l -> In y l -> f x = f y -> x = y.
Proof.
  induction l as [| a l IH]; intros Hnd Hx Hy E; [destruct Hx |].
  cbn [map] in Hnd. apply List.NoDup_cons_iff in Hnd as [Ha Hnd].
  destruct Hx as [-> | Hx], Hy as [-> | Hy].
  - reflexivity.
  - exfalso. apply Ha. rewrite E. apply in_map. exact Hy.
  - exfalso. apply Ha. rewrite <- E. apply in_map. exact Hx.
  - apply IH; assumption.
Qed.

(** The recommendation and the priority that the loop body decides for
    a channel do not depend on the protected list, as long as a
    protected channel has brandAReach above 0. *)
Lemma optimizeChannel_verdict_protected P1 P2 intensity t1 t2 (ch : ChannelRecord) :
  (includes P1 ch.(Ch.channel) = true -> (ch.(Ch.brandAReach) >? Fin 0) = true) ->
  (includes P2 ch.(Ch.channel) = true -> (ch.(Ch.brandAReach) >? Fin 0) = true) ->
  verdict <$> optimizeChannel P1 intensity t1 ch
  = verdict <$> optimizeChannel P2 intensity t2 ch.
Proof.
  intros H1 H2. unfold optimizeChannel.
  destruct ((ch.(Ch.brandAReach) === Fin 0) && (ch.(Ch.maxCompReach) === Fin 0));
    [reflexivity |].
  destruct ((ch.(Ch.brandAReach) === Fin 0) && (ch.(Ch.maxCompReach) >=? Fin 2.0)
            && (ch.(Ch.channelShare) >=? Fin 1.0)); [reflexivity |].
  destruct ((ch.(Ch.brandAReach) >? Fin 0) && (ch.(Ch.gap) <? gapThreshold intensity)
            && (ch.(Ch.indexVsCompetition) <? indexThreshold intensity)); [reflexivity |].
  destruct (ch.(Ch.indexVsCompetition) >=? Fin 100) eqn:E100.
  { rewrite !orb_true_r. reflexivity. }
  rewrite !orb_false_r.
  destruct (ch.(Ch.indexVsCompetition) >? Fin 120) eqn:E120.
  { apply (gt_fin_ge_fin _ 120 100) in E120; [congruence | lra]. }
  rewrite !andb_false_r.
  destruct (includes P1 ch.(Ch.channel)), (includes P2 ch.(Ch.channel));
    try rewrite (H1 eq_refl); try rewrite (H2 eq_refl); try reflexivity;
    destruct (ch.(Ch.brandAReach) >? Fin 0); reflexivity.
Qed.

(** X4.  When the channel names are distinct, the protection threshold
    changes no recommendation and no priority: the maps returned for two
    thresholds have the same keys and, under each key, the same
    recommendation and priority (only the reason can differ). *)
Theorem runOptimization_threshold_keeps_verdicts
    (channels : list ChannelRecord) (intensity t1 t2 : number) :
  List.NoDup (map Ch.channel channels) ->
  verdict <$> runOptimization channels intensity t1
  = verdict <$> runOptimization channels intensity t2.
Proof.
  intros Hnd. apply map_eq. intros name. rewrite !lookup_fmap.
  unfold runOptimization.
  destruct (in_dec string_dec name (map Ch.channel channels)) as [Hin | Hout].
  - apply in_map_iff in Hin as (ch & <- & Hin).
    rewrite !loop_lookup_own by assumption. rewrite !lookup_empty.
    assert (Hp : forall t, includes (getProtectedChannels channels t) ch.(Ch.channel) = true ->
                           (ch.(Ch.brandAReach) >? Fin 0) = true).
    { intros t Hinc. apply includes_In in Hinc.
      apply getProtectedChannels_origin in Hinc as (c & Hc & Hn & Ha).
      rewrite <- (NoDup_map_inj Ch.channel channels c ch Hnd Hc Hin Hn). exact Ha. }
    pose proof (optimizeChannel_verdict_protected
                  (getProtectedChannels channels t1) (getProtectedChannels channels t2)
                  intensity t1 t2 ch (Hp t1) (Hp t2)) as E.
    destruct (optimizeChannel (getProtectedChannels channels t1) intensity t1 ch),
             (optimizeChannel (getProtectedChannels channels t2) intensity t2 ch);
      exact E.
  - rewrite !loop_lookup_other by exact Hout. reflexivity.
Qed.

(** Thresholds 50 and 90 on the four-channel scenario: "Three" is
    protected at 90 only, and is MAINTAIN / LOW either way. *)
Lemma runOptimization_threshold_keeps_verdicts_witness :
  verdict <$> runOptimization increaseScenario (Fin 15) (Fin 50)
  = verdict <$> runOptimization increaseScenario (Fin 15) (Fin 90).
Proof.
  apply (runOptimization_threshold_keeps_verdicts increaseScenario (Fin 15) (Fin 50) (Fin 90)).
  apply NoDup_ListNoDup. apply (bool_decide_unpack _). vm_compute. reflexivity.
Defined.

(** ** Summary of the optimizer output *)

Lemma count_recommendations (l : list OptimizationResult) :
  (length (List.filter (fun r => Recommendation_eqb r.(Res.recommendation) INCREASE) l)
   + length (List.filter (fun r => Recommendation_eqb r.(Res.recommendation) MAINTAIN) l)
   + length (List.filter (fun r => Recommendation_eqb r.(Res.recommendation) ADD) l)
   + length (List.filter (fun r => Recommendation_eqb r.(Res.recommendation) DECREASE) l)
   = length l)%nat.
Proof.
  induction l as [| r l IH]; [reflexivity |].
  cbn [List.filter]. destruct r.(Res.recommendation); cbn [Recommendation_eqb length]; lia.
Qed.

Lemma count_none {A} (p : A -> bool) (l : list A) :
  (forall x, In x l -> p x = false) -> List.filter p l = [].
Proof.
  induction l as [| x l IH]; intros H; [reflexivity |].
  cbn [List.filter]. rewrite (H x) by (left; reflexivity).
  apply IH. intros y Hy. apply H. right. exact Hy.
Qed.

Lemma count_high (l : list OptimizationResult) :
  (forall r, In r l -> r.(Res.priority) = HIGH ->
             r.(Res.recommendation) = INCREASE \/ r.(Res.recommendation) = ADD) ->
  (length (List.filter (fun r => Priority_eqb r.(Res.priority) HIGH) l)
   <= length (List.filter (fun r => Recommendation_eqb r.(Res.recommendation) INCREASE) l)
      + length (List.filter (fun r => Recommendation_eqb r.(Res.recommendation) ADD) l))%nat.
Proof.
  induction l as [| r l IH]; intros H; [reflexivity |].
  assert (IH' := IH (fun x Hx => H x (or_intror Hx))).
  cbn [List.filter].
  destruct r.(Res.priority) eqn:Ep; cbn [Priority_eqb].
  - destruct (H r (or_introl eq_refl) Ep) as [-> | ->];
      cbn [Recommendation_eqb length]; lia.
  - destruct r.(Res.recommendation); cbn [Recommendation_eqb length]; lia.
  - destruct r.(Res.recommendation); cbn [Recommendation_eqb length]; lia.
Qed.

Lemma values_lookup (results : gmap string OptimizationResult) (r : OptimizationResult) :
  In r (map snd (map_to_list results)) -> exists name, results !! name = Some r.
Proof.
  intros H. apply in_map_iff in H as ([name r'] & E & Hin). cbn in E. subst r'.
  exists name. apply elem_of_map_to_list, list_elem_of_In. exact Hin.
Qed.

Section OptimizerSize.
Variables (P : list string) (intensity threshold : number).

Let step (results : gmap string OptimizationResult) (ch : ChannelRecord) :=
  match optimizeChannel P intensity threshold ch with
  | Some r => <[ch.(Ch.channel) := r]> results
  | None => results
  end.

Lemma loop_size (l : list ChannelRecord) acc :
  (size (fold_left step l acc) <= size acc + length l)%nat.
Proof.
  revert acc. induction l as [| c l IH]; intros acc; [cbn; lia |].
  cbn [fold_left length]. etransitivity; [apply IH |].
  unfold step. destruct (optimizeChannel P intensity threshold c); [| lia].
  rewrite map_size_insert. destruct (acc !! c.(Ch.channel)); cbn; lia.
Qed.
End OptimizerSize.

(** X5.  In the summary of a map returned by [runOptimization] the
    DECREASE count is 0, the INCREASE, MAINTAIN and ADD counts add up to
    the number of entries, which is at most the number of channels, and
    the count of HIGH priorities is at most the INCREASE and ADD counts
    together. *)
Theorem getOptimizationSummary_of_runOptimization
    (channels : list ChannelRecord) (intensity threshold : number) :
  let results := runOptimization channels intensity threshold in
  let s := getOptimizationSummary results in
  s.(Summary.decrease) = 0%nat
  /\ (s.(Summary.increase) + s.(Summary.maintain) + s.(Summary.add) = size results)%nat
  /\ (size results <= length channels)%nat
  /\ (s.(Summary.highPriority) <= s.(Summary.increase) + s.(Summary.add))%nat.
Proof.
  intros results s.
  assert (Hd : s.(Summary.decrease) = 0%nat).
  { unfold s, getOptimizationSummary. cbn [Summary.decrease].
    rewrite count_none; [reflexivity |].
    intros r Hr. apply values_lookup in Hr as [name Hr].
    unfold results, runOptimization in Hr.
    apply loop_entry_origin in Hr as [Hr | (ch & _ & Hch)].
    - rewrite lookup_empty in Hr. discriminate.
    - apply optimizeChannel_not_decrease in Hch.
      destruct r.(Res.recommendation); try reflexivity. congruence. }
  split; [exact Hd |]. split; [| split].
  - pose proof (count_recommendations (map snd (map_to_list results))) as Hc.
    rewrite length_map, length_map_to_list in Hc.
    unfold s, getOptimizationSummary in Hd |- *.
    cbn [Summary.decrease Summary.increase Summary.maintain Summary.add] in Hd |- *.
    lia.
  - pose proof (loop_size (getProtectedChannels channels threshold) intensity threshold
                  channels ∅) as Hs.
    rewrite map_size_empty in Hs. exact Hs.
  - unfold s, getOptimizationSummary.
    cbn [Summary.highPriority Summary.increase Summary.add].
    apply count_high. intros r Hr Hp.
    apply values_lookup in Hr as [name Hr].
    unfold results, runOptimization in Hr.
    apply loop_entry_origin in Hr as [Hr | (ch & _ & Hch)].
    + rewrite lookup_empty in Hr. discriminate.
    + destruct (optimizeChannel_sound _ _ _ _ _ Hch) as [[Hrec _] | [[Hrec _] | [_ Hlow]]].
      * right. exact Hrec.
      * left. exact Hrec.
      * congruence.
Qed.

(** X6.  A protected name is always the name of a channel of the list
    with brandAReach above 0, and there are never more protected names
    than such channels.  The thresholds 0 and NaN protect nothing; a
    threshold of 100 or more protects every channel with brandAReach
    above 0 (there being at most 2^53 of them: an array holds fewer
    than 2^32 elements, and binary64 holds every whole number up to
    2^53). *)
Theorem getProtectedChannels_extent (channels : list ChannelRecord) (threshold : number) :
  let withBrandA := List.filter (fun ch => ch.(Ch.brandAReach) >? Fin 0) channels in
  (forall name, In name (getProtectedChannels channels threshold) ->
     exists ch, In ch channels /\ ch.(Ch.channel) = name
                /\ (ch.(Ch.brandAReach) >? Fin 0) = true)
  /\ (length (getProtectedChannels channels threshold) <= length withBrandA)%nat
  /\ getProtectedChannels channels (Fin 0) = []
  /\ getProtectedChannels channels NaN = []
  /\ (forall q : Q, (100 <= q)%Q -> (Z.of_nat (length withBrandA) <= 2 ^ 53)%Z ->
        Permutation (getProtectedChannels channels (Fin q)) (map Ch.channel withBrandA)).
Proof.
  intros withBrandA.
  split; [apply getProtectedChannels_origin |].
  split.
  { unfold getProtectedChannels, slice0. fold withBrandA.
    rewrite length_map, length_firstn.
    rewrite (Permutation_length (sort_by_perm withBrandA)). apply Nat.le_min_r. }
  split.
  { unfold getProtectedChannels, slice0. fold withBrandA.
    set (sorted := sort_by (fun a b => b.(Ch.brandAReach) - a.(Ch.brandAReach)) withBrandA).
    change (div64 (Fin 0) (Fin 100)) with (Fin 0).
    unfold mul64. rewrite mul_of_nat_fin. cbn [round64].
    rewrite binary64_zero by ring.
    rewrite slice_end_ceil_fin by lra. reflexivity. }
  split.
  { reflexivity. }
  intros q Hq HN. unfold getProtectedChannels, slice0. fold withBrandA.
  set (sorted := sort_by (fun a b => b.(Ch.brandAReach) - a.(Ch.brandAReach)) withBrandA).
  assert (El : length sorted = length withBrandA)
    by (apply Permutation_length, sort_by_perm).
  rewrite cutoff_full by (rewrite ?El; assumption).
  rewrite firstn_all. apply Permutation_map. apply sort_by_perm.
Qed.

(** ** Timeband processing: the four-band layout *)

Lemma timebandsOfChannel_layout (market : string) (timebandData : gmap string TimebandAccum) :
  let tbs := timebandsOfChannel market timebandData in
  map Tb.timeband tbs = TIMEBAND_LABELS
  /\ map Tb.isPrimetime tbs = TIMEBAND_PRIME_FLAGS
  /\ map Tb.daypartCategory tbs = TIMEBAND_CATEGORIES.
Proof.
  unfold timebandsOfChannel, TIMEBAND_LABELS. cbn [map].
  unfold createEmptyTimeband, timebandMetricsOf.
  destruct (String.eqb market "Karnataka");
    destruct (timebandData !! "NPT"), (timebandData !! "NCPT_EARLY"),
             (timebandData !! "CPT"), (timebandData !! "NCPT_LATE");
    repeat split; reflexivity.
Qed.

(** X7.  Whatever the raw rows are, every channel of the map returned by
    [parseTimebandData] has exactly the four bands NPT, NCPT_EARLY, CPT,
    NCPT_LATE in this order, with the prime flags false, true, true,
    true and the categories non-prime, non-core-prime, core-prime,
    non-core-prime; the list built by [generateSampleTimebandData] has
    the same layout. *)
Theorem four_band_layout :
  (forall (rawData : list RawRow) (market channel : string) (tbs : list TimebandMetrics),
     parseTimebandData rawData market !! channel = Some tbs ->
     map Tb.timeband tbs = TIMEBAND_LABELS
     /\ map Tb.isPrimetime tbs = TIMEBAND_PRIME_FLAGS
     /\ map Tb.daypartCategory tbs = TIMEBAND_CATEGORIES)
  /\ (forall (channel : ChannelRecord) (market : string),
        let tbs := generateSampleTimebandData channel market in
        map Tb.timeband tbs = TIMEBAND_LABELS
        /\ map Tb.isPrimetime tbs = TIMEBAND_PRIME_FLAGS
        /\ map Tb.daypartCategory tbs = TIMEBAND_CATEGORIES).
Proof.
  split.
  - intros rawData market channel tbs. unfold parseTimebandData. rewrite lookup_fmap.
    destruct (fold_left groupRow rawData ∅ !! channel) as [timebandData |];
      [| discriminate].
    intros H. change (Some (timebandsOfChannel market timebandData) = Some tbs) in H.
    injection H as <-. apply timebandsOfChannel_layout.
  - intros channel market. unfold generateSampleTimebandData, TIMEBAND_LABELS.
    cbn [map]. unfold sampleTimeband.
    destruct (String.eqb market "Karnataka"); repeat split; reflexivity.
Qed.

(** ** Sample timebands partition the channel *)

Lemma genreVariation_fin (n : nat) :
  of_nat n / Fin 100 = Fin (inject_Z (Z.of_nat n) / 100).
Proof. reflexivity. Qed.

(** The reach shares and the competitor shares of a distribution are
    positive and each set adds up to 1. *)
Lemma getChannelDistribution_shares (channel : ChannelRecord) :
  exists r0 r1 r2 r3 c0 c1 c2 c3 : Q,
    getChannelDistribution channel =
      mkDistribution (Fin r0) (Fin r1) (Fin r2) (Fin r3) (Fin c0) (Fin c1) (Fin c2) (Fin c3)
    /\ (r0 + r1 + r2 + r3 == 1)%Q /\ (c0 + c1 + c2 + c3 == 1)%Q
    /\ (0 < r0)%Q /\ (0 < r1)%Q /\ (0 < r2)%Q /\ (0 < r3)%Q.
Proof.
  unfold getChannelDistribution. rewrite genreVariation_fin.
  set (n := (String.length channel.(Ch.channel) mod 10)%nat).
  assert (Hn : (0 <= Z.of_nat n < 10)%Z).
  { pose proof (Nat.mod_upper_bound (String.length channel.(Ch.channel)) 10). lia. }
  assert (Hg : (0 <= inject_Z (Z.of_nat n) / 100 /\ inject_Z (Z.of_nat n) / 100 <= 0.09)%Q).
  { split.
    - apply Qle_shift_div_l; [reflexivity |].
      rewrite Qmult_0_l. change 0%Q with (inject_Z 0). rewrite <- Zle_Qle. lia.
    - apply Qle_shift_div_r; [reflexivity |].
      assert (E : (0.09 * 100 == inject_Z 9)%Q) by reflexivity.
      rewrite E, <- Zle_Qle. lia. }
  set (g := (inject_Z (Z.of_nat n) / 100)%Q) in *. clearbody g.
  case_ifs; cbn [add sub neg];
    do 8 eexists; (split; [reflexivity |]); repeat split; lra.
Qed.

Lemma sampleTimeband_reach (channel : ChannelRecord) (market : string)
    (distribution : Distribution) (label : string) :
  let tb := sampleTimeband channel market distribution label in
  tb.(Tb.brandAReach) = channel.(Ch.brandAReach) * distribution_reach distribution label
  /\ tb.(Tb.maxCompReach) = channel.(Ch.maxCompReach) * distribution_comp distribution label
  /\ tb.(Tb.gap) = tb.(Tb.brandAReach) - tb.(Tb.maxCompReach).
Proof.
  unfold sampleTimeband. destruct (String.eqb market "Karnataka"); repeat split; reflexivity.
Qed.

(** X8.  For a channel with finite brandAReach [a] and maxCompReach [m],
    the four sample bands split the channel: their reaches add up to
    [a], their competitor reaches to [m] and their gaps to [a - m]; when
    [a] is not negative every band reach lies between 0 and [a]. *)
Theorem generateSampleTimebandData_partition
    (channel : ChannelRecord) (market : string) (a m : Q) :
  channel.(Ch.brandAReach) = Fin a -> channel.(Ch.maxCompReach) = Fin m ->
  let tbs := generateSampleTimebandData channel market in
  (exists ra rm rg : Q,
     sum_by Tb.brandAReach tbs = Fin ra /\ (ra == a)%Q
     /\ sum_by Tb.maxCompReach tbs = Fin rm /\ (rm == m)%Q
     /\ sum_by Tb.gap tbs = Fin rg /\ (rg == a - m)%Q)
  /\ ((0 <= a)%Q ->
      forall tb, In tb tbs ->
        exists r : Q, tb.(Tb.brandAReach) = Fin r /\ (0 <= r)%Q /\ (r <= a)%Q).
Proof.
  intros Ha Hm tbs.
  destruct (getChannelDistribution_shares channel)
    as (r0 & r1 & r2 & r3 & c0 & c1 & c2 & c3 & Hd & Hr & Hc & P0 & P1 & P2 & P3).
  assert (Hb : forall label, In label TIMEBAND_LABELS ->
    exists r c : Q,
      distribution_reach (getChannelDistribution channel) label = Fin r
      /\ distribution_comp (getChannelDistribution channel) label = Fin c
      /\ (0 <= r)%Q /\ (r <= 1)%Q).
  { intros label Hl. rewrite Hd. unfold TIMEBAND_LABELS in Hl.
    repeat (destruct Hl as [<- | Hl]); try destruct Hl;
      (eexists; eexists; split; [reflexivity |]; split; [reflexivity |]; split; lra). }
  split.
  - unfold tbs, generateSampleTimebandData, TIMEBAND_LABELS, sum_by. cbn [map fold_left].
    repeat match goal with
           | |- context [sampleTimeband ?c ?k ?d ?l] =>
               let H := fresh "S" in
               destruct (sampleTimeband_reach c k d l) as (H & ? & ?);
               cbv zeta in H; generalize dependent (sampleTimeband c k d l); intros
           end.
    repeat match goal with H : Tb.gap _ = _ |- _ => rewrite H; clear H end.
    repeat match goal with H : Tb.brandAReach _ = _ |- _ => rewrite H; clear H end.
    repeat match goal with H : Tb.maxCompReach _ = _ |- _ => rewrite H; clear H end.
    rewrite Hd, Ha, Hm.
    cbn [distribution_reach distribution_comp String.eqb Ascii.eqb Bool.eqb
         reach_NPT reach_NCPT_EARLY reach_CPT reach_NCPT_LATE
         comp_NPT comp_NCPT_EARLY comp_CPT comp_NCPT_LATE mul add sub neg].
    do 3 eexists.
    split; [reflexivity |]. split; [nra |].
    split; [reflexivity |]. split; [nra |].
    split; [reflexivity |]. nra.
  - intros Hpos tb Hin. apply sample_output_cases in Hin as (label & Hl & ->).
    destruct (Hb label Hl) as (r & c & Er & _ & Hr0 & Hr1).
    destruct (sampleTimeband_reach channel market (getChannelDistribution channel) label)
      as (E & _ & _).
    cbv zeta in E. rewrite E, Er, Ha. cbn [mul].
    eexists. split; [reflexivity |]. split; nra.
Qed.

Lemma generateSampleTimebandData_partition_witness :
  exists ra rm rg : Q,
    sum_by Tb.brandAReach (generateSampleTimebandData trailingChannel "UP") = Fin ra
    /\ (ra == 5.0)%Q
    /\ sum_by Tb.maxCompReach (generateSampleTimebandData trailingChannel "UP") = Fin rm
    /\ (rm == 11.0)%Q
    /\ sum_by Tb.gap (generateSampleTimebandData trailingChannel "UP") = Fin rg
    /\ (rg == 5.0 - 11.0)%Q.
Proof.
  apply (generateSampleTimebandData_partition trailingChannel "UP" 5.0 11.0);
    reflexivity.
Defined.

(** ** Parsing raw rows: what each band averages *)

(** The accumulator of a channel and timeband after the first loop, the
    empty one when the loop created none. *)
Lemma groupRow_skip (m : gmap string (gmap string TimebandAccum)) (row : RawRow) :
  falsy_string row.(Channel) || falsy_string row.(TimeBand) = true -> groupRow m row = m.
Proof. unfold groupRow. intros ->. reflexivity. Qed.

Lemma groupRow_lookup (m : gmap string (gmap string TimebandAccum)) (row : RawRow)
    (c l : string) :
  default emptyAccum (groupRow m row !! c ≫= (fun tbm => tbm !! l))
  = if rowInBand c l row
    then accumulate row (default emptyAccum (m !! c ≫= (fun tbm => tbm !! l)))
    else default emptyAccum (m !! c ≫= (fun tbm => tbm !! l)).
Proof.
  unfold groupRow, rowInBand.
  destruct (falsy_string row.(Channel) || falsy_string row.(TimeBand)); [reflexivity |].
  cbn [negb andb].
  destruct (String.eqb_spec (default "" row.(Channel)) c) as [<- | Hc]; cbn [andb].
  - rewrite lookup_insert_eq. cbn [mbind option_bind].
    destruct (String.eqb_spec (normalizeTimebandString (default "" row.(TimeBand))) l)
      as [<- | Hl].
    + rewrite lookup_insert_eq. cbn [default].
      destruct (m !! default "" row.(Channel)) as [tbm |]; reflexivity.
    + rewrite lookup_insert_ne by exact Hl.
      destruct (m !! default "" row.(Channel)) as [tbm |]; reflexivity.
  - rewrite lookup_insert_ne by exact Hc. reflexivity.
Qed.

Lemma filter_snoc {A} (p : A -> bool) (l : list A) (x : A) :
  List.filter p (l ++ [x])%list = (List.filter p l ++ (if p x then [x] else []))%list.
Proof. rewrite List.filter_app. reflexivity. Qed.

Lemma fold_groupRow_values (rawData : list RawRow) (c l : string) :
  let data := default emptyAccum (fold_left groupRow rawData ∅ !! c ≫= (fun tbm => tbm !! l)) in
  data.(acc_reach) = reachValues c l rawData
  /\ data.(acc_share) = shareValues c l rawData
  /\ data.(acc_ots) = otsValues c l rawData.
Proof.
  induction rawData as [| row done IH] using rev_ind.
  { cbn [fold_left]. rewrite lookup_empty. repeat split; reflexivity. }
  rewrite fold_left_app. cbn [fold_left]. cbv zeta. rewrite groupRow_lookup.
  cbv zeta in IH. destruct IH as (Hr & Hs & Ho).
  unfold reachValues, shareValues, otsValues. rewrite !filter_snoc, !map_app.
  fold (reachValues c l done) (shareValues c l done) (otsValues c l done).
  rewrite <- Hr, <- Hs, <- Ho.
  destruct (rowInBand c l row); cbn [andb map].
  - unfold accumulate. fold (rowValue row).
    destruct (String.eqb row.(Metric) "Cume Rch% Curve [1+]") eqn:E1.
    + apply String.eqb_eq in E1. rewrite E1. cbn [String.eqb Ascii.eqb Bool.eqb].
      destruct (String.eqb row.(Target_Group) "Brand A"); cbn [map];
        cbn [acc_reach acc_share acc_ots]; rewrite ?app_nil_r; repeat split; reflexivity.
    + destruct (String.eqb row.(Metric) "rat%") eqn:E2.
      * apply String.eqb_eq in E2. rewrite E2. cbn [String.eqb Ascii.eqb Bool.eqb].
        cbn [map acc_reach acc_share acc_ots]; rewrite ?app_nil_r; repeat split; reflexivity.
      * destruct (String.eqb row.(Metric) "Ots") eqn:E3;
          cbn [map acc_reach acc_share acc_ots]; rewrite ?app_nil_r;
          repeat split; reflexivity.
  - rewrite !app_nil_r. repeat split; reflexivity.
Qed.

Lemma timebandsOfChannel_values (market : string) (timebandData : gmap string TimebandAccum)
    (label : string) :
  let tb := match timebandData !! label with
            | None => createEmptyTimeband label market
            | Some data => timebandMetricsOf market label data
            end in
  let data := default emptyAccum (timebandData !! label) in
  tb.(Tb.timeband) = label
  /\ tb.(Tb.brandAReach) = average data.(acc_reach)
  /\ tb.(Tb.brandAShare) = average data.(acc_share)
  /\ tb.(Tb.brandAOTS) = average data.(acc_ots).
Proof.
  unfold createEmptyTimeband, timebandMetricsOf.
  destruct (timebandData !! label) as [data |];
    destruct (String.eqb market "Karnataka"); repeat split; reflexivity.
Qed.

(** X9.  In the map returned by [parseTimebandData], the band of a
    channel under each of the four labels carries the means of the raw
    values of that channel and band (the TimeBand of a row is normalised
    first; 'n.a' and null count as 0; rows without channel or timeband
    are skipped): brandAReach averages the reach rows of target group
    'Brand A', brandAShare the 'rat%' rows and brandAOTS the 'Ots' rows
    of every target group, and each is 0 when there is no such row. *)
Theorem parseTimebandData_means
    (rawData : list RawRow) (market channel : string) (tbs : list TimebandMetrics) :
  parseTimebandData rawData market !! channel = Some tbs ->
  Forall2
    (fun label tb =>
       tb.(Tb.timeband) = label
       /\ tb.(Tb.brandAReach) = average (reachValues channel label rawData)
       /\ tb.(Tb.brandAShare) = average (shareValues channel label rawData)
       /\ tb.(Tb.brandAOTS) = average (otsValues channel label rawData))
    TIMEBAND_LABELS tbs
  /\ average [] = Fin 0.
Proof.
  unfold parseTimebandData. rewrite lookup_fmap.
  destruct (fold_left groupRow rawData ∅ !! channel) as [timebandData |] eqn:Em;
    [| discriminate].
  intros H. change (Some (timebandsOfChannel market timebandData) = Some tbs) in H.
  injection H as <-. split; [| reflexivity].
  assert (Hl : forall label,
    let tb := match timebandData !! label with
              | None => createEmptyTimeband label market
              | Some data => timebandMetricsOf market label data
              end in
    tb.(Tb.timeband) = label
    /\ tb.(Tb.brandAReach) = average (reachValues channel label rawData)
    /\ tb.(Tb.brandAShare) = average (shareValues channel label rawData)
    /\ tb.(Tb.brandAOTS) = average (otsValues channel label rawData)).
  { intros label.
    destruct (fold_groupRow_values rawData channel label) as (Hr & Hs & Ho).
    rewrite Em in Hr, Hs, Ho. cbn [mbind option_bind] in Hr, Hs, Ho.
    rewrite <- Hr, <- Hs, <- Ho. apply timebandsOfChannel_values. }
  unfold timebandsOfChannel, TIMEBAND_LABELS. cbn [map].
  repeat (constructor; [apply Hl |]). constructor.
Qed.

(** The example rows: core prime time averages 4, 0 ('n.a') and 5. *)
Lemma parseTimebandData_means_witness :
  exists tbs,
    parseTimebandData exampleRows "UP" !! "Zee TV" = Some tbs
    /\ reachValues "Zee TV" "CPT" exampleRows = [Fin 4; Fin 0; Fin 5]
    /\ Forall2
         (fun label tb =>
            tb.(Tb.timeband) = label
            /\ tb.(Tb.brandAReach) = average (reachValues "Zee TV" label exampleRows)
            /\ tb.(Tb.brandAShare) = average (shareValues "Zee TV" label exampleRows)
            /\ tb.(Tb.brandAOTS) = average (otsValues "Zee TV" label exampleRows))
         TIMEBAND_LABELS tbs.
Proof.
  eexists. split; [vm_compute; reflexivity |]. split; [vm_compute; reflexivity |].
  apply (parseTimebandData_means exampleRows "UP" "Zee TV").
  vm_compute. reflexivity.
Defined.

Lemma fold_groupRow_keys (rawData : list RawRow) (c : string) :
  is_Some (fold_left groupRow rawData ∅ !! c) <->
  exists row, In row rawData /\ row.(Channel) = Some c /\ c <> ""
              /\ falsy_string row.(TimeBand) = false.
Proof.
  induction rawData as [| row done IH] using rev_ind.
  { cbn [fold_left]. rewrite lookup_empty. split.
    - intros [x Hx]. discriminate.
    - intros (row & [] & _). }
  rewrite fold_left_app. cbn [fold_left].
  assert (Hstep : is_Some (groupRow (fold_left groupRow done ∅) row !! c) <->
                  is_Some (fold_left groupRow done ∅ !! c)
                  \/ (row.(Channel) = Some c /\ c <> ""
                      /\ falsy_string row.(TimeBand) = false)).
  { unfold groupRow.
    destruct row.(Channel) as [ch |] eqn:Ech; cbn [falsy_string orb].
    - destruct (String.eqb_spec ch "") as [-> | Hne]; cbn [orb].
      + split; [intros H; left; exact H |].
        intros [H | (E & Hc & _)]; [exact H |]. injection E as <-. congruence.
      + destruct (falsy_string row.(TimeBand)) eqn:Etb.
        * split; [intros H; left; exact H |].
          intros [H | (_ & _ & E)]; [exact H | discriminate].
        * cbn [default].
          destruct (decide (ch = c)) as [-> | Hc].
          -- rewrite lookup_insert_eq. split.
             ++ intros _. right. repeat split; [exact Hne].
             ++ intros _. eexists. reflexivity.
          -- rewrite lookup_insert_ne by exact Hc. split.
             ++ intros H. left. exact H.
             ++ intros [H | ([= E] & _)]; [exact H | congruence].
    - split; [intros H; left; exact H |].
      intros [H | (E & _)]; [exact H | discriminate]. }
  rewrite Hstep, IH. split.
  - intros [(r & Hin & Hr) | Hr].
    + exists r. split; [apply in_or_app; left; exact Hin | exact Hr].
    + exists row. split; [apply in_or_app; right; left; reflexivity | exact Hr].
  - intros (r & Hin & Hr). apply in_app_or in Hin as [Hin | [<- | []]].
    + left. exists r. split; assumption.
    + right. exact Hr.
Qed.

(** X10.  A channel name is a key of the map returned by
    [parseTimebandData] exactly when some raw row has that name as its
    Channel, the name is not empty, and the row has a non-empty
    TimeBand. *)
Theorem parseTimebandData_channels (rawData : list RawRow) (market channel : string) :
  is_Some (parseTimebandData rawData market !! channel) <->
  exists row, In row rawData /\ row.(Channel) = Some channel /\ channel <> ""
              /\ falsy_string row.(TimeBand) = false.
Proof.
  unfold parseTimebandData. rewrite lookup_fmap, <- fold_groupRow_keys.
  destruct (fold_left groupRow rawData ∅ !! channel); split; intros [x Hx];
    try discriminate; eexists; reflexivity.
Qed.

(** ** Normalising a timeband string *)

Lemma replace_seconds_cons (c0 : ascii) (s0 : string) :
  Ascii.eqb c0 ":" = false ->
  replace_seconds (String c0 s0) = String c0 (replace_seconds s0).
Proof.
  intros H. cbn [replace_seconds]. rewrite H. cbn [andb].
  destruct s0 as [| a [| b [| c1 [| c [| d rest]]]]]; reflexivity.
Qed.

Lemma remove_zero_minutes_cons (c0 : ascii) (s0 : string) :
  Ascii.eqb c0 ":" = false ->
  remove_zero_minutes (String c0 s0) = String c0 (remove_zero_minutes s0).
Proof.
  intros H. cbn [remove_zero_minutes]. rewrite H. cbn [andb].
  destruct s0 as [| a [| b rest]]; reflexivity.
Qed.

Lemma plain_char_parts (c : ascii) :
  plain_char c = true ->
  Ascii.eqb c ":" = false /\ Ascii.eqb c "-" = false /\ is_space c = false.
Proof.
  unfold plain_char. intros H.
  apply andb_true_iff in H as [H H3]. apply andb_true_iff in H as [H1 H2].
  apply negb_true_iff in H1, H2, H3. repeat split; assumption.
Qed.

Lemma replace_seconds_plain (s : string) :
  plain_string s = true -> replace_seconds s = s.
Proof.
  induction s as [| c s IH]; [reflexivity |]. cbn [plain_string]. intros H.
  apply andb_true_iff in H as [Hc Hs].
  destruct (plain_char_parts c Hc) as (E & _ & _).
  rewrite (replace_seconds_cons c s E), (IH Hs). reflexivity.
Qed.

Lemma replace_dash_plain (s : string) :
  plain_string s = true -> replace_dash s EmptyString false = s.
Proof.
  induction s as [| c s IH]; [reflexivity |]. cbn [plain_string]. intros H.
  apply andb_true_iff in H as [Hc Hs].
  destruct (plain_char_parts c Hc) as (_ & E2 & E3).
  cbn [replace_dash]. rewrite E2, E3. cbn [String.append].
  rewrite (IH Hs). reflexivity.
Qed.

Lemma remove_zero_minutes_plain (s : string) :
  plain_string s = true -> remove_zero_minutes s = s.
Proof.
  induction s as [| c s IH]; [reflexivity |]. cbn [plain_string]. intros H.
  apply andb_true_iff in H as [Hc Hs].
  destruct (plain_char_parts c Hc) as (E & _ & _).
  rewrite (remove_zero_minutes_cons c s E), (IH Hs). reflexivity.
Qed.

(** X11.  [normalizeTimebandString] leaves a string without colon, dash
    and white space as it is, so a TimeBand that is one of the four band
    labels is grouped under that label. *)
Theorem normalizeTimebandString_plain (timeband : string) :
  plain_string timeband = true ->
  normalizeTimebandString timeband = timeband.
Proof.
  unfold normalizeTimebandString. intros H.
  rewrite (replace_seconds_plain _ H), (replace_dash_plain _ H).
  apply remove_zero_minutes_plain. exact H.
Qed.

Lemma normalizeTimebandString_plain_witness :
  normalizeTimebandString "NCPT_EARLY" = "NCPT_EARLY".
Proof.
  apply (normalizeTimebandString_plain "NCPT_EARLY"). reflexivity.
Defined.

(** ** Peak timeband *)

Section PeakSort.
Variable key : TimebandMetrics -> number.

Let cmp (a b : TimebandMetrics) : number := key b - key a.

(** The head of the sorted copy: the element that goes first is the new
    one unless the old head has a strictly larger key. *)
Lemma insert_by_head (x : TimebandMetrics) (l : list TimebandMetrics) :
  hd x (insert_by cmp x l) =
    match l with
    | [] => x
    | y :: _ => if cmp x y >? Fin 0 then y else x
    end.
Proof.
  destruct l as [| y l]; [reflexivity |].
  cbn [insert_by]. destruct (cmp x y >? Fin 0); reflexivity.
Qed.

Lemma insert_by_nonempty (x : TimebandMetrics) (l : list TimebandMetrics) :
  insert_by cmp x l <> [].
Proof.
  destruct l as [| y l]; [discriminate |].
  cbn [insert_by]. destruct (cmp x y >? Fin 0); discriminate.
Qed.

(** With finite keys, the head of the sorted copy is the first element
    of the list among those of the largest key. *)
Lemma sort_by_head (l : list TimebandMetrics) :
  l <> [] ->
  Forall (fun tb => is_finite (key tb) = true) l ->
  exists l1 tb l2 rest,
    l = (l1 ++ tb :: l2)%list
    /\ sort_by cmp l = tb :: rest
    /\ Forall (fun x => (key x <? key tb) = true) l1
    /\ Forall (fun x => (key x <=? key tb) = true) l2.
Proof.
  induction l as [| x l IH]; intros Hne Hfin; [congruence |].
  apply Forall_cons in Hfin as [Hx Hfin].
  destruct l as [| y l'].
  { exists [], x, [], []. repeat split; constructor. }
  destruct (IH ltac:(discriminate) Hfin) as (l1 & tb & l2 & rest & El & Es & H1 & H2).
  assert (Htb : is_finite (key tb) = true).
  { rewrite El in Hfin. apply Forall_app in Hfin as [_ Hfin].
    apply Forall_cons in Hfin as [Htb _]. exact Htb. }
  change (sort_by cmp (x :: y :: l')) with (insert_by cmp x (sort_by cmp (y :: l'))).
  rewrite Es.
  cbn [insert_by]. unfold cmp at 1.
  destruct (key x) as [ | | | kx] eqn:Ekx; try discriminate.
  destruct (key tb) as [ | | | kt] eqn:Ekt; try discriminate.
  cbn [sub neg add gt lt].
  destruct (Qltb 0 (kt + - kx)) eqn:E.
  - apply Qltb_lt in E.
    exists (x :: l1), tb, l2, (insert_by cmp x rest).
    split; [rewrite El; reflexivity |]. split; [reflexivity |].
    split; [| rewrite Ekt; exact H2].
    constructor; [| rewrite Ekt; exact H1].
    rewrite Ekx, Ekt. cbn [lt]. apply Qltb_lt. lra.
  - apply Qltb_ge in E.
    exists [], x, (y :: l'), (tb :: rest).
    split; [reflexivity |]. split; [reflexivity |]. split; [constructor |].
    rewrite El. apply Forall_app. split.
    + eapply Forall_impl; [exact H1 |]. intros z Hz. cbn beta in Hz |- *.
      rewrite Ekx. destruct (key z) as [ | | | kz]; try discriminate; try reflexivity.
      cbn [lt le] in Hz |- *. apply Qltb_lt in Hz. apply Qle_bool_iff. lra.
    + constructor.
      * rewrite Ekx, Ekt. cbn [le]. apply Qle_bool_iff. lra.
      * eapply Forall_impl; [exact H2 |]. intros z Hz. cbn beta in Hz |- *.
        rewrite Ekx. destruct (key z) as [ | | | kz]; try discriminate; try reflexivity.
        cbn [le] in Hz |- *. apply Qle_bool_iff in Hz. apply Qle_bool_iff. lra.
Qed.
End PeakSort.

(** X12.  [findPeakTimeband] returns the empty string for no bands.
    For bands with finite values of the metric it returns the label of
    the first band among those of the largest value: every earlier band
    has a strictly smaller value and no later band a larger one. *)
Theorem findPeakTimeband_first_maximum
    (timebands : list TimebandMetrics) (metric : PeakMetric) :
  Forall (fun tb => is_finite (metricOf metric tb) = true) timebands ->
  findPeakTimeband [] metric = ""
  /\ (timebands <> [] ->
      exists l1 tb l2,
        timebands = (l1 ++ tb :: l2)%list
        /\ findPeakTimeband timebands metric = tb.(Tb.timeband)
        /\ Forall (fun x => (metricOf metric x <? metricOf metric tb) = true) l1
        /\ Forall (fun x => (metricOf metric x <=? metricOf metric tb) = true) l2).
Proof.
  intros Hfin. split; [reflexivity |]. intros Hne.
  destruct (sort_by_head (metricOf metric) timebands Hne Hfin)
    as (l1 & tb & l2 & rest & El & Es & H1 & H2).
  exists l1, tb, l2. split; [exact El |]. split; [| split; assumption].
  unfold findPeakTimeband. rewrite Es.
  destruct timebands; [congruence | reflexivity].
Qed.

(** Reaches 1, 2, 8, 3: the peak is core prime time. *)
Lemma findPeakTimeband_first_maximum_witness :
  findPeakTimeband focusScenario metric_brandAReach = "CPT"
  /\ exists l1 tb l2,
       focusScenario = (l1 ++ tb :: l2)%list
       /\ findPeakTimeband focusScenario metric_brandAReach = tb.(Tb.timeband)
       /\ Forall (fun x => (metricOf metric_brandAReach x
                            <? metricOf metric_brandAReach tb) = true) l1
       /\ Forall (fun x => (metricOf metric_brandAReach x
                            <=? metricOf metric_brandAReach tb) = true) l2.
Proof.
  split; [vm_compute; reflexivity |].
  apply (findPeakTimeband_first_maximum focusScenario metric_brandAReach).
  - repeat constructor.
  - discriminate.
Defined.

(** ** Enrichment with sample timebands *)

Lemma div_fin_pos (x d : Q) : (0 < d)%Q -> Fin x / Fin d = Fin (x / d).
Proof.
  intros Hd. unfold div.
  destruct (Qeq_bool d 0) eqn:E; [| reflexivity].
  apply Qeq_bool_iff in E. lra.
Qed.



(** ** Cross-geography comparisons *)

Lemma or_zero_not_nan (o : option number) : or_zero o <> NaN.
Proof.
  unfold or_zero, or_default. destruct o as [[ | | | q] |]; cbn [truthy]; try discriminate.
  destruct (negb (Qeq_bool q 0)); discriminate.
Qed.

Lemma getTimebandReach_not_nan (channels : list ChannelRecord) (name timeband : string) :
  getTimebandReach channels name timeband <> NaN.
Proof.
  unfold getTimebandReach.
  destruct (List.find _ channels) as [ch |]; [| discriminate].
  destruct ch.(Ch.timebands) as [tbs |]; [| discriminate].
  apply or_zero_not_nan.
Qed.

Ltac order_cases :=
  repeat match goal with
         | |- context [Qltb ?a ?b] => destruct (Qltb a b) eqn:?
         end;
  repeat match goal with
         | H : Qltb _ _ = true |- _ => apply Qltb_lt in H
         | H : Qltb _ _ = false |- _ => apply Qltb_ge in H
         end.

Lemma best_worst_of_three (x y z : number) :
  x <> NaN -> y <> NaN -> z <> NaN ->
  let m := mkMarkets x y z in
  let best1 := if y >? x then (y, "Maharashtra") else (x, "UP") in
  let bestMarket := if z >? fst best1 then "Karnataka" else snd best1 in
  let worst1 := if y <? x then (y, "Maharashtra") else (x, "UP") in
  let worstMarket := if z <? fst worst1 then "Karnataka" else snd worst1 in
  In bestMarket MARKET_NAMES /\ In worstMarket MARKET_NAMES
  /\ forall market, In market MARKET_NAMES ->
       (marketValue m market <=? marketValue m bestMarket) = true
       /\ (marketValue m worstMarket <=? marketValue m market) = true.
Proof.
  intros Hx Hy Hz.
  destruct x as [ | | | x]; [congruence | | |];
  destruct y as [ | | | y]; try congruence;
  destruct z as [ | | | z]; try congruence;
  cbn [gt lt fst snd]; order_cases; cbn [fst snd gt lt]; order_cases;
  (split; [cbn; tauto |]); (split; [cbn; tauto |]);
  intros market [<- | [<- | [<- | []]]];
  cbn [marketValue String.eqb Ascii.eqb Bool.eqb UP Maharashtra Karnataka le];
  split; try reflexivity; apply Qle_bool_iff; lra.
Qed.

(** X14.  Whatever the data, every comparison returned by
    [compareTimebandAcrossGeographies] names as best market one of UP,
    Maharashtra, Karnataka whose reach is at least the reach of each of
    the three, and as worst market one whose reach is at most each of
    them; no market reach is NaN, and there is one comparison for each
    of the eight compared timeband names, in their order. *)
Theorem compareTimebandAcrossGeographies_best_worst
    (Math_sqrt : number -> number) (channelName : string) (allMarketData : AllMarketData) :
  let comparisons := compareTimebandAcrossGeographies Math_sqrt channelName allMarketData in
  map cg_timeband comparisons = COMPARED_TIMEBAND_NAMES
  /\ forall c, In c comparisons ->
       In c.(bestPerformingMarket) MARKET_NAMES
       /\ In c.(worstPerformingMarket) MARKET_NAMES
       /\ forall market, In market MARKET_NAMES ->
            marketValue c.(markets) market <> NaN
            /\ (marketValue c.(markets) market
                <=? marketValue c.(markets) c.(bestPerformingMarket)) = true
            /\ (marketValue c.(markets) c.(worstPerformingMarket)
                <=? marketValue c.(markets) market) = true.
Proof.
  intros comparisons. split; [reflexivity |].
  intros c Hc. unfold comparisons, compareTimebandAcrossGeographies in Hc.
  apply in_map_iff in Hc as (tbName & <- & _).
  unfold compareTimeband.
  cbn [bestPerformingMarket worstPerformingMarket markets].
  pose proof (getTimebandReach_not_nan allMarketData.(data_UP) channelName tbName) as Hx.
  pose proof (getTimebandReach_not_nan allMarketData.(data_Maharashtra) channelName tbName)
    as Hy.
  pose proof (getTimebandReach_not_nan allMarketData.(data_Karnataka) channelName tbName)
    as Hz.
  destruct (best_worst_of_three _ _ _ Hx Hy Hz) as (Hb & Hw & Hall).
  split; [exact Hb |]. split; [exact Hw |].
  intros market Hm. split; [| apply Hall; exact Hm].
  destruct Hm as [<- | [<- | [<- | []]]]; assumption.
Qed.

(** ** Four-band data under the eight compared names *)

Lemma four_band_label_not_compared (label tbName : string) :
  includes TIMEBAND_LABELS label = true -> In tbName COMPARED_TIMEBAND_NAMES ->
  String.eqb label tbName = false.
Proof.
  intros Hl Hn. apply includes_In in Hl.
  unfold TIMEBAND_LABELS in Hl. unfold COMPARED_TIMEBAND_NAMES in Hn.
  repeat (destruct Hl as [<- | Hl]); try destruct Hl;
    repeat (destruct Hn as [<- | Hn]); try destruct Hn; reflexivity.
Qed.

Lemma getTimebandReach_four_band (channels : list ChannelRecord) (name tbName : string) :
  forallb four_band_channel channels = true -> In tbName COMPARED_TIMEBAND_NAMES ->
  getTimebandReach channels name tbName = Fin 0.
Proof.
  intros Hall Hn. unfold getTimebandReach.
  destruct (List.find _ channels) as [ch |] eqn:Ef; [| reflexivity].
  apply find_some in Ef as [Hin _].
  rewrite forallb_forall in Hall. specialize (Hall ch Hin).
  unfold four_band_channel in Hall.
  destruct ch.(Ch.timebands) as [tbs |]; [| reflexivity].
  destruct (List.find _ tbs) as [tb |] eqn:Et; [| reflexivity].
  apply find_some in Et as [Htb E].
  rewrite forallb_forall in Hall. specialize (Hall tb Htb).
  rewrite (four_band_label_not_compared _ _ Hall Hn) in E. discriminate.
Qed.

Lemma filter_all {A} (p : A -> bool) (l : list A) :
  (forall x, In x l -> p x = true) -> List.filter p l = l.
Proof.
  induction l as [| x l IH]; intros H; [reflexivity |].
  cbn [List.filter]. rewrite (H x) by (left; reflexivity).
  f_equal. apply IH. intros y Hy. apply H. right. exact Hy.
Qed.

Lemma compareTimeband_four_band
    (Math_sqrt : number -> number) (name : string) (allMarketData : AllMarketData)
    (tbName : string) :
  four_band_data allMarketData = true -> In tbName COMPARED_TIMEBAND_NAMES ->
  let c := compareTimeband Math_sqrt name allMarketData tbName in
  c.(markets) = mkMarkets (Fin 0) (Fin 0) (Fin 0)
  /\ c.(bestPerformingMarket) = "UP" /\ c.(worstPerformingMarket) = "UP"
  /\ calculateMarketConsistencyScore c = Fin 100.
Proof.
  intros Hd Hn. unfold four_band_data in Hd.
  apply andb_true_iff in Hd as [Hd Hk]. apply andb_true_iff in Hd as [Hu Hm].
  unfold compareTimeband.
  rewrite (getTimebandReach_four_band _ name tbName Hu Hn),
          (getTimebandReach_four_band _ name tbName Hm Hn),
          (getTimebandReach_four_band _ name tbName Hk Hn).
  repeat split; reflexivity.
Qed.

(** X15.  When every band of the three markets carries one of the four
    labels NPT, NCPT_EARLY, CPT, NCPT_LATE, none of the eight compared
    timeband names is found: every comparison reports reach 0 in the
    three markets, UP as best and as worst market and a consistency
    score of 100, and [findConsistentChannels] returns, for a threshold
    of at most 100, every channel name of UP that also occurs in
    Maharashtra and in Karnataka. *)
Theorem compareTimebandAcrossGeographies_four_band
    (Math_sqrt : number -> number) (allMarketData : AllMarketData) :
  four_band_data allMarketData = true ->
  (forall channelName c,
     In c (compareTimebandAcrossGeographies Math_sqrt channelName allMarketData) ->
     c.(markets) = mkMarkets (Fin 0) (Fin 0) (Fin 0)
     /\ c.(bestPerformingMarket) = "UP" /\ c.(worstPerformingMarket) = "UP"
     /\ calculateMarketConsistencyScore c = Fin 100)
  /\ (forall threshold, (threshold <=? Fin 100) = true ->
        findConsistentChannels Math_sqrt allMarketData threshold =
          List.filter
            (fun ch =>
               includes (set_values (map Ch.channel allMarketData.(data_Maharashtra))) ch
               && includes (set_values (map Ch.channel allMarketData.(data_Karnataka))) ch)
            (set_values (map Ch.channel allMarketData.(data_UP)))).
Proof.
  intros Hd. split.
  - intros channelName c Hc. unfold compareTimebandAcrossGeographies in Hc.
    apply in_map_iff in Hc as (tbName & <- & Hn).
    apply compareTimeband_four_band; assumption.
  - intros threshold Ht. unfold findConsistentChannels.
    apply filter_all. intros channel _.
    assert (Hs : map calculateMarketConsistencyScore
                   (compareTimebandAcrossGeographies Math_sqrt channel allMarketData)
                 = map (fun _ => Fin 100) COMPARED_TIMEBAND_NAMES).
    { unfold compareTimebandAcrossGeographies. rewrite map_map.
      apply map_ext_in. intros tbName Hn.
      apply (compareTimeband_four_band Math_sqrt channel allMarketData tbName Hd Hn). }
    unfold averageConsistencyScore. rewrite Hs.
    destruct threshold as [ | | | q]; try discriminate; [reflexivity |].
    cbn [le] in Ht. apply Qle_bool_iff in Ht.
    assert (E : sum_by (fun v => v) (map (fun _ : string => Fin 100) COMPARED_TIMEBAND_NAMES)
                / of_nat (length (map (fun _ : string => Fin 100) COMPARED_TIMEBAND_NAMES))
                = Fin ((0 + 100 + 100 + 100 + 100 + 100 + 100 + 100 + 100) / 8))
      by reflexivity.
    rewrite E. cbn [ge le]. apply Qle_bool_iff.
    assert (E8 : ((0 + 100 + 100 + 100 + 100 + 100 + 100 + 100 + 100) / 8 == 100)%Q)
      by reflexivity.
    rewrite E8. exact Ht.
Qed.

(** Three markets sharing "Zee TV", default threshold 70. *)
Lemma compareTimebandAcrossGeographies_four_band_witness :
  findConsistentChannels (fun x => x) exampleMarkets (Fin 70) = ["Zee TV"].
Proof.
  destruct (compareTimebandAcrossGeographies_four_band (fun x => x) exampleMarkets)
    as [_ H]; [vm_compute; reflexivity |].
  rewrite (H (Fin 70)) by reflexivity. vm_compute. reflexivity.
Defined.

(** ** Market penetration of a timeband *)

Lemma filter_length_le {A} (p : A -> bool) (l : list A) :
  (length (List.filter p l) <= length l)%nat.
Proof.
  induction l as [| x l IH]; [reflexivity |].
  cbn [List.filter]. destruct (p x); cbn [length]; lia.
Qed.

(** X16.  In the result of [calculateTimebandMarketPenetration] the
    number of channels with activity is at most the number of channels
    that have bands, which is at most the number of channels; the
    penetration rate is their ratio in percent, a finite number between
    0 and 100, and rate and average reach are 0 when no channel has
    bands. *)
Theorem calculateTimebandMarketPenetration_bounds
    (channels : list ChannelRecord) (timeband : string) :
  let p := calculateTimebandMarketPenetration channels timeband in
  (p.(channelsWithActivity) <= p.(totalChannels))%nat
  /\ (p.(totalChannels) <= length channels)%nat
  /\ (exists r : Q,
        p.(penetrationRate) = Fin r /\ (0 <= r)%Q /\ (r <= 100)%Q
        /\ (r * inject_Z (Z.of_nat p.(totalChannels))
            == 100 * inject_Z (Z.of_nat p.(channelsWithActivity)))%Q)
  /\ (p.(totalChannels) = 0%nat ->
      p.(penetrationRate) = Fin 0 /\ p.(avgReach) = Fin 0).
Proof.
  unfold calculateTimebandMarketPenetration.
  set (withTb := List.filter _ channels).
  set (active := List.filter _ withTb).
  cbn [channelsWithActivity totalChannels penetrationRate avgReach].
  assert (Hk : (length active <= length withTb)%nat) by apply filter_length_le.
  split; [exact Hk |]. split; [apply filter_length_le |].
  split.
  - destruct (0 <? length withTb)%nat eqn:E.
    + apply Nat.ltb_lt in E.
      assert (Hn : (0 < inject_Z (Z.of_nat (length withTb)))%Q).
      { change 0%Q with (inject_Z 0). rewrite <- Zlt_Qlt. lia. }
      assert (Ha : (0 <= inject_Z (Z.of_nat (length active)))%Q).
      { change 0%Q with (inject_Z 0). rewrite <- Zle_Qle. lia. }
      assert (Hle : (inject_Z (Z.of_nat (length active))
                     <= inject_Z (Z.of_nat (length withTb)))%Q).
      { rewrite <- Zle_Qle. lia. }
      unfold of_nat. rewrite div_fin_pos by exact Hn. cbn [mul].
      eexists. split; [reflexivity |].
      set (k := inject_Z (Z.of_nat (length active))) in *.
      set (n := inject_Z (Z.of_nat (length withTb))) in *.
      assert (Hq : (0 <= k / n /\ k / n <= 1)%Q).
      { split.
        - apply Qle_shift_div_l; [exact Hn | lra].
        - apply Qle_shift_div_r; [exact Hn | lra]. }
      split; [lra |]. split; [lra |].
      field. lra.
    + apply Nat.ltb_ge in E.
      exists 0%Q. split; [reflexivity |]. split; [lra |]. split; [lra |].
      assert (length active = 0)%nat as -> by lia.
      assert (length withTb = 0)%nat as -> by lia.
      reflexivity.
  - intros ->. split; reflexivity.
Qed.

(** ** District disaggregation: factors *)

(** [Math.max(lo, Math.min(hi, x))] is NaN for NaN and otherwise a
    finite number between [lo] and [hi]. *)
Lemma clamp_range (lo hi : Q) (x : number) :
  (lo <= hi)%Q -> x <> NaN ->
  exists y : Q, Math_max [Fin lo; Math_min [Fin hi; x]] = Fin y
                /\ (lo <= y)%Q /\ (y <= hi)%Q.
Proof.
  intros Hlh Hx. unfold Math_max, Math_min. cbn [fold_left].
  destruct x as [ | | | q]; [congruence | | |]; cbn [min2 max2 lt].
  - order_cases; try lra; eexists; (split; [reflexivity |]); lra.
  - cbn [min2 max2 lt]. eexists. split; [reflexivity |]. lra.
  - order_cases; cbn [min2 max2 lt]; order_cases; try lra;
      eexists; (split; [reflexivity |]); lra.
Qed.

Lemma clamp_fin (lo hi x : Q) :
  (lo <= hi)%Q ->
  exists y : Q, Math_max [Fin lo; Math_min [Fin hi; Fin x]] = Fin y
                /\ (lo <= y)%Q /\ (y <= hi)%Q
                /\ ((lo <= x)%Q -> (x <= hi)%Q -> y == x).
Proof.
  intros Hlh. unfold Math_max, Math_min. cbn [fold_left min2 max2 lt].
  order_cases; cbn [min2 max2 lt]; order_cases; try lra;
    eexists; (split; [reflexivity |]); repeat split; try lra; intros; lra.
Qed.

Lemma clamp_nan (lo hi : Q) : Math_max [Fin lo; Math_min [Fin hi; NaN]] = NaN.
Proof. reflexivity. Qed.

Lemma sum_by_finite {A} (f : A -> number) (l : list A) :
  Forall (fun x => is_finite (f x) = true) l ->
  exists s : Q, sum_by f l = Fin s.
Proof.
  unfold sum_by. generalize 0%Q as acc.
  induction l as [| x l IH]; intros acc Hl; [exists acc; reflexivity |].
  apply Forall_cons in Hl as [Hx Hl]. cbn [fold_left].
  destruct (f x) as [ | | | q]; try discriminate. cbn [add]. apply IH. exact Hl.
Qed.

Lemma getDistrictsForSer_own (allDistricts : list DistrictRecord) (d : DistrictRecord) :
  In d allDistricts -> In d (getDistrictsForSer allDistricts d.(scrKey)).
Proof.
  intros H. unfold getDistrictsForSer. apply filter_In.
  split; [exact H | apply String.eqb_refl].
Qed.

Lemma getBaseCdmiFactor_finite (d : DistrictRecord) (serDistricts : list DistrictRecord)
    (c : Q) :
  serDistricts <> [] ->
  d.(cdmiScore) = Fin c ->
  Forall (fun x => is_finite x.(cdmiScore) = true) serDistricts ->
  exists s f : Q,
    sum_by cdmiScore serDistricts = Fin s
    /\ getBaseCdmiFactor d serDistricts = Fin f
    /\ (0.5 <= f)%Q /\ (f <= 1.5)%Q
    /\ (f == Qmax 0.5 (Qmin 1.5
             (1 + (c - s / inject_Z (Z.of_nat (length serDistricts))) * 0.6)))%Q.
Proof.
  intros Hne Hc Hfin.
  destruct (sum_by_finite cdmiScore serDistricts Hfin) as [s Hs].
  unfold getBaseCdmiFactor. rewrite Hs, Hc.
  assert (Hn : (0 < inject_Z (Z.of_nat (length serDistricts)))%Q).
  { change 0%Q with (inject_Z 0). rewrite <- Zlt_Qlt.
    destruct serDistricts; [congruence | cbn [length]; lia]. }
  unfold of_nat. rewrite div_fin_pos by exact Hn. cbn [sub neg add mul].
  set (x := (1 + (c + - (s / inject_Z (Z.of_nat (length serDistricts)))) * 0.6)%Q).
  destruct (clamp_fin 0.5 1.5 x ltac:(lra)) as (y & Hy & Hlo & Hhi & Hin).
  exists s, y. split; [reflexivity |]. split; [exact Hy |].
  split; [exact Hlo |]. split; [exact Hhi |].
  assert (Ex : (1 + (c - s / inject_Z (Z.of_nat (length serDistricts))) * 0.6 == x)%Q)
    by (unfold x; ring).
  rewrite Ex. clear Ex.
  unfold Math_max, Math_min in Hy. cbn [fold_left min2 max2 lt] in Hy.
  destruct (Qltb x 1.5) eqn:E1; cbn [max2 lt] in Hy.
  - destruct (Qltb 0.5 x) eqn:E2; injection Hy as <-.
    + apply Qltb_lt in E1, E2. rewrite Q.min_r by lra. rewrite Q.max_r by lra.
      reflexivity.
    + apply Qltb_lt in E1. apply Qltb_ge in E2.
      rewrite Q.min_r by lra. rewrite Q.max_l by lra. reflexivity.
  - apply Qltb_ge in E1.
    change (Qltb 0.5 1.5) with true in Hy. injection Hy as <-.
    rewrite Q.min_l by lra. rewrite Q.max_r by lra. reflexivity.
Qed.

(** X17.  For a non-empty list of districts with finite CDMI scores the
    base factor of a district is a finite number between 0.5 and 1.5,
    equal to 1 + (cdmiScore - mean score) * 0.6 cut to that interval;
    for an empty list it is NaN.  The districts that
    [getDistrictsForSer] selects under the key of a listed district
    contain that district, so that list is never empty. *)
Theorem getBaseCdmiFactor_range (d : DistrictRecord) (serDistricts : list DistrictRecord)
    (c : Q) :
  serDistricts <> [] ->
  d.(cdmiScore) = Fin c ->
  Forall (fun x => is_finite x.(cdmiScore) = true) serDistricts ->
  getBaseCdmiFactor d [] = NaN
  /\ (exists s f : Q,
        sum_by cdmiScore serDistricts = Fin s
        /\ getBaseCdmiFactor d serDistricts = Fin f
        /\ (0.5 <= f)%Q /\ (f <= 1.5)%Q
        /\ (f == Qmax 0.5 (Qmin 1.5
                 (1 + (c - s / inject_Z (Z.of_nat (length serDistricts))) * 0.6)))%Q)
  /\ (forall allDistricts, In d allDistricts ->
        getDistrictsForSer allDistricts d.(scrKey) <> []).
Proof.
  intros Hne Hc Hfin. split; [| split].
  - unfold getBaseCdmiFactor. rewrite Hc. reflexivity.
  - apply getBaseCdmiFactor_finite; assumption.
  - intros allDistricts Hin E.
    pose proof (getDistrictsForSer_own allDistricts d Hin) as H. rewrite E in H.
    destruct H.
Qed.

Lemma getBaseCdmiFactor_range_witness :
  exists s f : Q,
    sum_by cdmiScore [exampleDistrict; ruralDistrict] = Fin s
    /\ getBaseCdmiFactor exampleDistrict [exampleDistrict; ruralDistrict] = Fin f
    /\ (0.5 <= f)%Q /\ (f <= 1.5)%Q
    /\ (f == Qmax 0.5 (Qmin 1.5 (1 + (0.5 - s / inject_Z (Z.of_nat 2)) * 0.6)))%Q.
Proof.
  apply (getBaseCdmiFactor_range exampleDistrict [exampleDistrict; ruralDistrict] 0.5).
  - discriminate.
  - reflexivity.
  - repeat constructor.
Defined.

Lemma getGenreAffinity_finite (genre_ : string) (u l : Q) :
  exists f : Q, getGenreAffinity genre_ (Fin u) (Fin l) = Fin f
                /\ (0.75 <= f)%Q /\ (f <= 1.35)%Q.
Proof.
  unfold getGenreAffinity.
  generalize (default "GEC" (lookup_competitor genre_ GENRE_CATEGORY)). intros category.
  case_ifs; cbn [sub neg add mul];
    match goal with
    | |- exists f, Math_max [Fin ?lo; Math_min [Fin ?hi; Fin ?x]] = _ /\ _ =>
        destruct (clamp_fin lo hi x ltac:(lra)) as (y & Hy & Hlo & Hhi & _);
        exists y; split; [exact Hy | split; assumption]
    end.
Qed.

(** X18.  For finite urban and literacy shares the genre affinity is a
    finite number between 0.75 and 1.35, whatever the genre; a genre
    that [GENRE_CATEGORY] does not list is treated as 'GEC'. *)
Theorem getGenreAffinity_range (genre_ : string) (u l : Q) :
  (exists f : Q, getGenreAffinity genre_ (Fin u) (Fin l) = Fin f
                 /\ (0.75 <= f)%Q /\ (f <= 1.35)%Q)
  /\ (lookup_competitor genre_ GENRE_CATEGORY = None ->
      getGenreAffinity genre_ (Fin u) (Fin l) = getGenreAffinity "GEC" (Fin u) (Fin l)).
Proof.
  split; [apply getGenreAffinity_finite |].
  intros H. unfold getGenreAffinity. rewrite H. reflexivity.
Qed.

Lemma getChannelJitter_finite (districtName channelName suffix : string) (s M : Q) :
  (0 < M)%Q ->
  exists j : Q, getChannelJitter districtName channelName (Fin s) (Fin M) suffix = Fin j.
Proof.
  intros HM. unfold getChannelJitter.
  destruct (seed_fraction_range (districtName ++ "_" ++ channelName ++ suffix))
    as (seed & -> & _).
  assert (Hgt : (Fin M >? Fin 0) = true) by (cbn [gt lt]; apply Qltb_lt; exact HM).
  rewrite Hgt. rewrite div_fin_pos by exact HM. cbn [sub neg add mul].
  eexists. reflexivity.
Qed.

(** X19.  For a finite share between 0 and the finite, positive largest
    share of the region, the jitter is a finite number of magnitude at
    most 0.08 * (1 - share / largest share), hence at most 0.08, and it
    is 0 for the channel that has the largest share. *)
Theorem getChannelJitter_bound (districtName channelName suffix : string) (s M : Q) :
  (0 <= s)%Q -> (s <= M)%Q -> (0 < M)%Q ->
  exists j : Q,
    getChannelJitter districtName channelName (Fin s) (Fin M) suffix = Fin j
    /\ (Qabs j <= 0.08 * (1 - s / M))%Q
    /\ (Qabs j <= 0.08)%Q
    /\ (s == M -> j == 0)%Q.
Proof.
  intros Hs HsM HM. unfold getChannelJitter.
  destruct (seed_fraction_range (districtName ++ "_" ++ channelName ++ suffix))
    as (seed & -> & Hs0 & Hs1).
  assert (Hgt : (Fin M >? Fin 0) = true) by (cbn [gt lt]; apply Qltb_lt; exact HM).
  rewrite Hgt. rewrite div_fin_pos by exact HM. cbn [sub neg add mul].
  eexists. split; [reflexivity |].
  assert (Hr : (0 <= s / M /\ s / M <= 1)%Q).
  { split.
    - apply Qle_shift_div_l; [exact HM | lra].
    - apply Qle_shift_div_r; [exact HM | lra]. }
  set (r := (s / M)%Q) in *.
  assert (Hb : (Qabs ((seed + - 0.5) * 2 * ((1 + - r) * 0.08)) <= 0.08 * (1 - r))%Q).
  { apply Qabs_Qle_condition. split; nra. }
  split; [exact Hb |]. split; [eapply Qle_trans; [exact Hb | lra] |].
  intros E.
  assert (Er : (r == 1)%Q).
  { unfold r. rewrite E. field. lra. }
  rewrite Er. ring.
Qed.

Lemma getChannelJitter_bound_witness :
  exists j : Q,
    getChannelJitter "Kanpur Nagar" "Zee TV" (Fin 2) (Fin 10) "" = Fin j
    /\ (Qabs j <= 0.08 * (1 - 2 / 10))%Q
    /\ (Qabs j <= 0.08)%Q
    /\ (2 == 10 -> j == 0)%Q.
Proof.
  apply (getChannelJitter_bound "Kanpur Nagar" "Zee TV" "" 2 10); lra.
Defined.

(** ** District disaggregation: presence *)

Lemma Math_max_finite (l : list number) :
  l <> [] -> Forall (fun x => is_finite x = true) l ->
  exists q : Q, Math_max l = Fin q /\ In (Fin q) l
                /\ forall x, In (Fin x) l -> (x <= q)%Q.
Proof.
  unfold Math_max. intros Hne Hfin.
  destruct l as [| x0 l]; [congruence |]. clear Hne.
  apply Forall_cons in Hfin as [H0 Hfin].
  destruct x0 as [ | | | q0]; try discriminate.
  cbn [fold_left max2 lt].
  assert (G : forall acc : Q,
    exists q : Q, fold_left max2 l (Fin acc) = Fin q
                  /\ (Fin q = Fin acc \/ In (Fin q) l)
                  /\ (acc <= q)%Q /\ forall x, In (Fin x) l -> (x <= q)%Q).
  { induction l as [| y l IH]; intros acc.
    - exists acc. split; [reflexivity |]. split; [left; reflexivity |].
      split; [lra |]. intros x [].
    - apply Forall_cons in Hfin as [Hy Hfin].
      destruct y as [ | | | y]; try discriminate.
      cbn [fold_left max2 lt].
      destruct (Qltb acc y) eqn:E.
      + apply Qltb_lt in E.
        destruct (IH Hfin y) as (q & Hq & Hmem & Hge & Hall).
        exists q. split; [exact Hq |]. split.
        * right. destruct Hmem as [-> | Hmem]; [left; reflexivity | right; exact Hmem].
        * split; [lra |]. intros x [[= <-] | Hx]; [exact Hge | apply Hall; exact Hx].
      + apply Qltb_ge in E.
        destruct (IH Hfin acc) as (q & Hq & Hmem & Hge & Hall).
        exists q. split; [exact Hq |]. split.
        * destruct Hmem as [-> | Hmem]; [left; reflexivity | right; right; exact Hmem].
        * split; [exact Hge |].
          intros x [[= <-] | Hx]; [lra | apply Hall; exact Hx]. }
  destruct (G q0) as (q & Hq & Hmem & Hge & Hall).
  exists q. split; [exact Hq |]. split.
  - destruct Hmem as [-> | Hmem]; [left; reflexivity | right; exact Hmem].
  - intros x [[= <-] | Hx]; [exact Hge | apply Hall; exact Hx].
Qed.

(** A channel with at least four sevenths of the largest reach passes
    the presence threshold in a district with figures that are not
    negative. *)
Lemma getChannelPresence_strong (districtName channelName : string)
    (q R s : Q) (maxShareInSer : number) (d : DistrictRecord) (u t e i : Q) :
  (0 < R)%Q -> (4 * R <= 7 * q)%Q -> (0 <= s)%Q ->
  d.(urbanPct) = Fin u -> d.(tvOwnershipPct) = Fin t ->
  d.(electrificationPct) = Fin e -> d.(internetPct) = Fin i ->
  (0 <= u)%Q -> (0 <= t)%Q -> (0 <= e)%Q -> (0 <= i)%Q ->
  is_finite maxShareInSer = true ->
  getChannelPresence districtName channelName (Fin q) (Fin R) (Fin s) maxShareInSer d = true.
Proof.
  intros HR Hq Hs Eu Et Ee Ei Hu Ht He Hi HS.
  unfold getChannelPresence.
  assert (Hq0 : (0 < q)%Q) by lra.
  assert (E0 : (Fin q <=? Fin 0) = false).
  { cbn [le]. destruct (Qle_bool q 0) eqn:E; [| reflexivity].
    apply Qle_bool_iff in E. lra. }
  rewrite E0.
  destruct (presenceThreshold_range districtName channelName) as (th & -> & _ & Hth).
  unfold presenceScore. rewrite Eu, Et, Ee, Ei.
  assert (HgtR : (Fin R >? Fin 0) = true) by (cbn [gt lt]; apply Qltb_lt; exact HR).
  rewrite HgtR, (div_fin_pos q R HR).
  assert (Hratio : (4 <= 7 * (q / R))%Q).
  { assert (E : (q / R * R == q)%Q) by (field; lra).
    set (r := (q / R)%Q) in *. nra. }
  destruct maxShareInSer as [ | | | S]; try discriminate.
  assert (Hshare : exists x : Q,
    (if Fin S >? Fin 0 then Fin s / Fin S else Fin 0) = Fin x /\ (0 <= x)%Q).
  { cbn [gt lt]. destruct (Qltb 0 S) eqn:ES.
    - apply Qltb_lt in ES. rewrite (div_fin_pos s S ES).
      eexists. split; [reflexivity |]. apply Qle_shift_div_l; [exact ES | lra].
    - exists 0%Q. split; [reflexivity | lra]. }
  destruct Hshare as (x & -> & Hx).
  cbn [mul add ge le]. apply Qle_bool_iff.
  set (r := (q / R)%Q) in *. lra.
Qed.

(** X20.  In a region whose channels have finite reaches and shares, a
    channel with a share that is not negative and a reach of at least
    four sevenths of every reach of the region (and of the floor 0.01)
    is present in every district whose urban, TV-ownership,
    electrification and internet figures are not negative: its district
    record is the scaled one, never the zeroed one. *)
Theorem calculateDistrictChannels_strong_present
    (serChannels : list ChannelRecord) (d : DistrictRecord)
    (serDistricts : list DistrictRecord) (ch : ChannelRecord) (q s u t e i : Q) :
  In ch serChannels ->
  Forall (fun c => is_finite c.(Ch.brandAReach) = true
                   /\ is_finite c.(Ch.channelShare) = true) serChannels ->
  ch.(Ch.brandAReach) = Fin q -> ch.(Ch.channelShare) = Fin s -> (0 <= s)%Q ->
  (4 * 0.01 <= 7 * q)%Q ->
  (forall c x, In c serChannels -> c.(Ch.brandAReach) = Fin x -> (4 * x <= 7 * q)%Q) ->
  d.(urbanPct) = Fin u -> d.(tvOwnershipPct) = Fin t ->
  d.(electrificationPct) = Fin e -> d.(internetPct) = Fin i ->
  (0 <= u)%Q -> (0 <= t)%Q -> (0 <= e)%Q -> (0 <= i)%Q ->
  In (presentChannel d (getBaseCdmiFactor d serDistricts)
        (Math_max (map Ch.channelShare serChannels ++ [Fin 0.01])) ch)
     (calculateDistrictChannels serChannels d serDistricts).
Proof.
  intros Hin Hfin Ea Es Hs Hfloor Hdom Eu Et Ee Ei Hu Ht He Hi.
  unfold calculateDistrictChannels.
  set (maxShareInSer := Math_max (map Ch.channelShare serChannels ++ [Fin 0.01])).
  set (maxReachInSer := Math_max (map Ch.brandAReach serChannels ++ [Fin 0.01])).
  apply in_map_iff. exists ch. split; [| exact Hin].
  assert (HS : exists S : Q, maxShareInSer = Fin S).
  { destruct (Math_max_finite (map Ch.channelShare serChannels ++ [Fin 0.01])%list)
      as (S & HSq & _).
    - destruct (map Ch.channelShare serChannels); discriminate.
    - apply Forall_app. split; [| repeat constructor].
      apply Forall_forall. intros x Hx.
      apply list_elem_of_In, in_map_iff in Hx as (c & <- & Hc).
      rewrite Forall_forall in Hfin. apply Hfin, list_elem_of_In. exact Hc.
    - exists S. exact HSq. }
  assert (HR : exists R : Q, maxReachInSer = Fin R /\ (0 < R)%Q /\ (4 * R <= 7 * q)%Q).
  { destruct (Math_max_finite (map Ch.brandAReach serChannels ++ [Fin 0.01])%list)
      as (R & HRq & Hmem & Hall).
    - destruct (map Ch.brandAReach serChannels); discriminate.
    - apply Forall_app. split; [| repeat constructor].
      apply Forall_forall. intros x Hx.
      apply list_elem_of_In, in_map_iff in Hx as (c & <- & Hc).
      rewrite Forall_forall in Hfin. apply Hfin, list_elem_of_In. exact Hc.
    - exists R. split; [exact HRq |]. split.
      + assert (H1 : (0.01 <= R)%Q).
        { apply Hall. apply in_or_app. right. left. reflexivity. }
        lra.
      + apply in_app_or in Hmem as [Hmem | [[= <-] | []]]; [| exact Hfloor].
        apply in_map_iff in Hmem as (c & Ec & Hc). apply (Hdom c R Hc Ec). }
  destruct HS as (S & HSq). destruct HR as (R & HRq & HR0 & HRq').
  rewrite HSq, HRq, Ea, Es.
  rewrite (getChannelPresence_strong d.(district) ch.(Ch.channel) q R s (Fin S) d u t e i)
    by (try assumption; reflexivity).
  cbn [negb]. reflexivity.
Qed.

(** "Zee TV" (reach 10, the largest) in the rural district. *)
Lemma calculateDistrictChannels_strong_present_witness :
  In (presentChannel ruralDistrict
        (getBaseCdmiFactor ruralDistrict [exampleDistrict; ruralDistrict])
        (Math_max (map Ch.channelShare exampleChannels ++ [Fin 0.01]))
        (upChannel "Zee TV" "GEC" 10 8 6 10
           [ upTimeband "NPT" 3 2 1; upTimeband "NCPT_EARLY" 1 1 1;
             upTimeband "CPT" 5 4 3; upTimeband "NCPT_LATE" 1 1 1 ]))
     (calculateDistrictChannels exampleChannels ruralDistrict
        [exampleDistrict; ruralDistrict]).
Proof.
  apply (calculateDistrictChannels_strong_present exampleChannels ruralDistrict
           [exampleDistrict; ruralDistrict] _ 10 10 0.05 0.2 0.3 0.05).
  - left. reflexivity.
  - repeat constructor.
  - reflexivity.
  - reflexivity.
  - lra.
  - lra.
  - intros c x [<- | [<- | [<- | []]]] [= <-]; lra.
  - reflexivity.
  - reflexivity.
  - reflexivity.
  - reflexivity.
  - lra.
  - lra.
  - lra.
  - lra.
Defined.

(** ** District disaggregation: what a district can show *)

Lemma district_output_presence (serChannels : list ChannelRecord) (d : DistrictRecord)
    (serDistricts : list DistrictRecord) (o : ChannelRecord) :
  In o (calculateDistrictChannels serChannels d serDistricts) ->
  exists ch, In ch serChannels
    /\ (o = absentChannel ch
        \/ (getChannelPresence d.(district) ch.(Ch.channel) ch.(Ch.brandAReach)
              (Math_max (map Ch.brandAReach serChannels ++ [Fin 0.01]))
              ch.(Ch.channelShare)
              (Math_max (map Ch.channelShare serChannels ++ [Fin 0.01])) d = true
            /\ o = presentChannel d (getBaseCdmiFactor d serDistricts)
                     (Math_max (map Ch.channelShare serChannels ++ [Fin 0.01])) ch)).
Proof.
  unfold calculateDistrictChannels. intros Hin.
  apply in_map_iff in Hin as (ch & Ho & Hch).
  exists ch. split; [exact Hch |].
  destruct (getChannelPresence _ _ _ _ _ _ _) in Ho |- *; cbn [negb] in Ho.
  - right. split; [reflexivity | symmetry; exact Ho].
  - left. symmetry. exact Ho.
Qed.

Lemma clampFactor_cases (x : number) :
  clampFactor x = NaN
  \/ exists f : Q, clampFactor x = Fin f /\ (0.4 <= f)%Q /\ (f <= 1.8)%Q.
Proof.
  unfold clampFactor. destruct x as [ | | | q] eqn:E.
  - left. reflexivity.
  - right. apply (clamp_range 0.4 1.8); [lra | discriminate].
  - right. apply (clamp_range 0.4 1.8); [lra | discriminate].
  - right. apply (clamp_range 0.4 1.8); [lra | discriminate].
Qed.

(** Rounding to two decimals moves a value by at most 0.005, and a
    value of at least 0.005 stays positive. *)
Lemma toFixed2_error (x : Q) :
  exists y : Q, toFixed 2 (Fin x) = Fin y
                /\ (x - 0.005 <= y)%Q /\ (y <= x + 0.005)%Q
                /\ ((0.005 <= x)%Q -> (0.01 <= y)%Q).
Proof.
  unfold toFixed.
  destruct (Qle_bool (inject_Z (10 ^ 21)) (Qabs x)) eqn:Ebig.
  { exists x. split; [reflexivity |]. split; [lra |]. split; [lra |].
    intros Hx. apply Qle_bool_iff in Ebig.
    rewrite Qabs_pos in Ebig by lra.
    assert (H21 : (1 <= inject_Z (10 ^ 21))%Q) by (rewrite <- (Zle_Qle 1); lia).
    lra. }
  change (inject_Z (10 ^ Z.of_nat 2)) with 100%Q.
  set (n := Qfloor (Qabs x * 100 + (1 # 2))).
  assert (Hlo : (inject_Z n <= Qabs x * 100 + (1 # 2))%Q) by apply Qfloor_le.
  assert (Hhi : (Qabs x * 100 + (1 # 2) < inject_Z (n + 1))%Q) by apply Qlt_floor.
  rewrite inject_Z_plus in Hhi. change (inject_Z 1) with 1%Q in Hhi.
  assert (Hn1 : (0.005 <= x)%Q -> (1 <= inject_Z n)%Q).
  { intros Hx. change 1%Q with (inject_Z 1). rewrite <- Zle_Qle.
    change 1%Z with (Qfloor 1). apply Qfloor_resp_le.
    rewrite Qabs_pos by lra. lra. }
  destruct (Qltb x 0) eqn:Es.
  - apply Qltb_lt in Es. rewrite Qabs_neg in Hlo, Hhi by lra.
    eexists. split; [reflexivity |].
    rewrite inject_Z_opp.
    assert (E : (- inject_Z n / 100 == - (inject_Z n / 100))%Q) by (field).
    rewrite E.
    assert (Hd : (inject_Z n / 100 * 100 == inject_Z n)%Q) by field.
    set (m := (inject_Z n / 100)%Q) in *.
    split; [lra |]. split; [lra |]. intros Hx. lra.
  - apply Qltb_ge in Es. rewrite Qabs_pos in Hlo, Hhi by lra.
    eexists. split; [reflexivity |].
    assert (Hd : (inject_Z n / 100 * 100 == inject_Z n)%Q) by field.
    specialize (fun H => Hn1 H).
    set (m := (inject_Z n / 100)%Q) in *.
    split; [lra |]. split; [lra |]. intros Hx. specialize (Hn1 Hx). lra.
Qed.

Lemma getChannelPresence_reach (districtName channelName : string)
    (a R s S : number) (d : DistrictRecord) :
  getChannelPresence districtName channelName a R s S d = true ->
  (a <=? Fin 0) = false.
Proof.
  unfold getChannelPresence. destruct (a <=? Fin 0); [discriminate | reflexivity].
Qed.

(** The reach of a present channel whose region-level reach is 0.02 or
    more is not 0. *)
Lemma presentChannel_reach_not_zero (d : DistrictRecord) (baseFactor maxShareInSer : number)
    (ch : ChannelRecord) :
  (ch.(Ch.brandAReach) <=? Fin 0) = false -> reach_floor ch = true ->
  ((presentChannel d baseFactor maxShareInSer ch).(Ch.brandAReach) === Fin 0) = false.
Proof.
  intros Hpos Hfloor. unfold presentChannel. cbn [Ch.brandAReach].
  set (x := baseFactor * _ * _).
  unfold reach_floor in Hfloor.
  destruct ch.(Ch.brandAReach) as [ | | | q]; try discriminate.
  - reflexivity.
  - destruct (clampFactor_cases x) as [-> | (f & -> & Hlo & Hhi)]; [reflexivity |].
    cbn [mul]. destruct (f ?= 0)%Q eqn:E; reflexivity.
  - cbn [le] in Hpos.
    assert (Hq : (0 < q)%Q).
    { destruct (Qlt_le_dec 0 q) as [H | H]; [exact H |].
      apply Qle_bool_iff in H. congruence. }
    assert (Hgt : (Fin q >? Fin 0) = true) by (cbn [gt lt]; apply Qltb_lt; exact Hq).
    rewrite Hgt in Hfloor. cbn [negb orb ge le] in Hfloor.
    apply Qle_bool_iff in Hfloor.
    destruct (clampFactor_cases x) as [-> | (f & -> & Hlo & Hhi)]; [reflexivity |].
    cbn [mul].
    destruct (toFixed2_error (q * f)) as (y & -> & _ & _ & Hy).
    cbn [strict_eq].
    destruct (Qeq_bool y 0) eqn:E; [| reflexivity].
    apply Qeq_bool_iff in E.
    assert (H5 : (0.005 <= q * f)%Q) by nra.
    specialize (Hy H5). lra.
Qed.

Lemma district_channel_not_opportunity (serChannels : list ChannelRecord)
    (d : DistrictRecord) (serDistricts : list DistrictRecord) (o : ChannelRecord) :
  forallb reach_floor serChannels = true ->
  In o (calculateDistrictChannels serChannels d serDistricts) ->
  isRealOpportunity o = false.
Proof.
  intros Hfloor Hin.
  apply district_output_presence in Hin as (ch & Hch & [-> | [Hp ->]]).
  - reflexivity.
  - unfold isRealOpportunity.
    rewrite presentChannel_reach_not_zero; [reflexivity | |].
    + eapply getChannelPresence_reach. exact Hp.
    + rewrite forallb_forall in Hfloor. apply Hfloor. exact Hch.
Qed.

(** X21.  When every region-level reach is 0 or at least 0.02, no
    channel of a district is an opportunity: a channel with region-level
    reach 0 is zeroed in the district together with its competitor
    reach, and a present channel keeps a reach that is not 0.  So no
    district channel has status OPPORTUNITY, the district summary counts
    0 opportunities, and every channel that the actionable filter keeps
    in a district has brandAReach above 0. *)
Theorem calculateDistrictChannels_no_opportunity
    (serChannels : list ChannelRecord) (d : DistrictRecord)
    (serDistricts : list DistrictRecord) :
  forallb reach_floor serChannels = true ->
  let districtChannels := calculateDistrictChannels serChannels d serDistricts in
  (forall o, In o districtChannels -> calculateStatus o <> "OPPORTUNITY")
  /\ (calculateDistrictSummary d districtChannels).(DSum.opportunities) = 0%nat
  /\ (forall o, In o (filterRelevantChannels districtChannels mode_actionable) ->
        (o.(Ch.brandAReach) >? Fin 0) = true).
Proof.
  intros Hfloor districtChannels.
  assert (Hno : forall o, In o districtChannels -> isRealOpportunity o = false).
  { intros o Ho.
    apply (district_channel_not_opportunity serChannels d serDistricts o Hfloor Ho). }
  split; [| split].
  - intros o Ho Hs. apply isRealOpportunity_status in Hs.
    rewrite (Hno o Ho) in Hs. discriminate.
  - unfold calculateDistrictSummary. cbn [DSum.opportunities].
    rewrite count_none; [reflexivity |]. exact Hno.
  - intros o Ho. unfold filterRelevantChannels in Ho.
    apply filter_In in Ho as [Ho Hk].
    rewrite (Hno o Ho), orb_false_r in Hk.
    apply isActiveBrandAChannel_positive.
    apply orb_true_iff in Hk as [Hk | Hk]; [exact Hk |].
    apply isEmergingChannel_active. exact Hk.
Qed.

(** The opportunity of the region ("Rival": reach 0, competitor 3.0,
    share 2.0) is no opportunity in the district. *)
Lemma calculateDistrictChannels_no_opportunity_witness :
  calculateStatus opportunityChannel = "OPPORTUNITY"
  /\ (calculateDistrictSummary exampleDistrict
        (calculateDistrictChannels opportunityScenario exampleDistrict
           [exampleDistrict; ruralDistrict])).(DSum.opportunities) = 0%nat.
Proof.
  split; [reflexivity |].
  apply (calculateDistrictChannels_no_opportunity opportunityScenario exampleDistrict
           [exampleDistrict; ruralDistrict]).
  reflexivity.
Defined.

(** ** District disaggregation: the scaled reach *)

Lemma Forall2_map_self {A B} (R : A -> B -> Prop) (f : A -> B) (l : list A) :
  (forall x, In x l -> R x (f x)) -> Forall2 R l (map f l).
Proof.
  induction l as [| x l IH]; intros H; [constructor |].
  cbn [map]. constructor; [apply H; left; reflexivity |].
  apply IH. intros y Hy. apply H. right. exact Hy.
Qed.

Lemma scaleTimebands_labels (finalFactor compFactor1 compFactor2 urban : number)
    (timebands : list TimebandMetrics) :
  map Tb.timeband (scaleTimebands finalFactor compFactor1 compFactor2 urban timebands)
  = map Tb.timeband timebands.
Proof.
  unfold scaleTimebands. rewrite !map_map. apply map_ext. intros tb. reflexivity.
Qed.

(** The final factor of a present channel is finite and within the
    clamp when the inputs are finite. *)
Lemma finalFactor_finite (d : DistrictRecord) (b : Q) (M s : Q) (genre_ name suffix : string) :
  finite_district d = true -> (0 < M)%Q ->
  exists f : Q,
    clampFactor (Fin b * getGenreAffinity genre_ d.(urbanPct) d.(literacyPct)
                 * (Fin 1 + getChannelJitter d.(district) name (Fin s) (Fin M) suffix))
    = Fin f /\ (0.4 <= f)%Q /\ (f <= 1.8)%Q.
Proof.
  intros Hd HM. unfold finite_district in Hd.
  apply andb_true_iff in Hd as [Hd _]. apply andb_true_iff in Hd as [Hu Hl].
  destruct d.(urbanPct) as [ | | | u]; try discriminate.
  destruct d.(literacyPct) as [ | | | l]; try discriminate.
  destruct (getGenreAffinity_finite genre_ u l) as (g & -> & _).
  destruct (getChannelJitter_finite d.(district) name suffix s M HM) as (j & ->).
  cbn [mul add]. unfold clampFactor.
  destruct (clamp_fin 0.4 1.8 (b * g * (1 + j)) ltac:(lra)) as (f & Hf & Hlo & Hhi & _).
  exists f. split; [exact Hf | split; assumption].
Qed.

(** X22.  The district list has one record for each channel of the
    region, in the same order, with the same name, genre, channelShare
    and indexVsBaseline and with bands of the same labels.  For a
    district with finite figures, a non-empty list of districts with
    finite CDMI scores and channels with finite shares, the district
    reach of a channel with finite region-level reach [q >= 0] is either
    0 (the channel is absent) or the rounding to two decimals of [q]
    times a factor between 0.4 and 1.8, so it lies between
    0.4 q - 0.005 and 1.8 q + 0.005. *)
Theorem calculateDistrictChannels_scaling
    (serChannels : list ChannelRecord) (d : DistrictRecord)
    (serDistricts : list DistrictRecord) :
  finite_district d = true ->
  serDistricts <> [] ->
  Forall (fun x => is_finite x.(cdmiScore) = true) serDistricts ->
  Forall (fun c => is_finite c.(Ch.channelShare) = true) serChannels ->
  Forall2
    (fun ch o =>
       o.(Ch.channel) = ch.(Ch.channel) /\ o.(Ch.genre) = ch.(Ch.genre)
       /\ o.(Ch.channelShare) = ch.(Ch.channelShare)
       /\ o.(Ch.indexVsBaseline) = ch.(Ch.indexVsBaseline)
       /\ option_map (map Tb.timeband) o.(Ch.timebands)
          = option_map (map Tb.timeband) ch.(Ch.timebands)
       /\ forall q : Q, ch.(Ch.brandAReach) = Fin q -> (0 <= q)%Q ->
            o.(Ch.brandAReach) = Fin 0
            \/ exists f y : Q,
                 (0.4 <= f)%Q /\ (f <= 1.8)%Q
                 /\ o.(Ch.brandAReach) = toFixed 2 (Fin (q * f))
                 /\ o.(Ch.brandAReach) = Fin y
                 /\ (0.4 * q - 0.005 <= y)%Q /\ (y <= 1.8 * q + 0.005)%Q)
    serChannels (calculateDistrictChannels serChannels d serDistricts).
Proof.
  intros Hd Hne Hcdmi Hshares.
  unfold calculateDistrictChannels.
  set (maxShareInSer := Math_max (map Ch.channelShare serChannels ++ [Fin 0.01])).
  assert (HS : exists M : Q, maxShareInSer = Fin M /\ (0 < M)%Q).
  { destruct (Math_max_finite (map Ch.channelShare serChannels ++ [Fin 0.01])%list)
      as (M & HM & _ & Hall).
    - destruct (map Ch.channelShare serChannels); discriminate.
    - apply Forall_app. split; [| repeat constructor].
      apply Forall_forall. intros x Hx.
      apply list_elem_of_In, in_map_iff in Hx as (c & <- & Hc).
      rewrite Forall_forall in Hshares. apply Hshares, list_elem_of_In. exact Hc.
    - exists M. split; [exact HM |].
      assert (H1 : (0.01 <= M)%Q).
      { apply Hall. apply in_or_app. right. left. reflexivity. }
      lra. }
  destruct HS as (M & HM & HM0).
  assert (Hc : exists c : Q, d.(cdmiScore) = Fin c).
  { unfold finite_district in Hd. apply andb_true_iff in Hd as [_ Hc].
    destruct d.(cdmiScore) as [ | | | c]; try discriminate. exists c. reflexivity. }
  destruct Hc as (c & Hc).
  destruct (getBaseCdmiFactor_finite d serDistricts c Hne Hc Hcdmi) as (s0 & b & _ & Hb & _).
  apply Forall2_map_self. intros ch Hch.
  assert (Hs : exists s : Q, ch.(Ch.channelShare) = Fin s).
  { rewrite Forall_forall in Hshares. specialize (Hshares ch (proj2 (list_elem_of_In _ _) Hch)).
    cbn beta in Hshares.
    destruct ch.(Ch.channelShare) as [ | | | s]; try discriminate. exists s. reflexivity. }
  destruct Hs as (s & Hs).
  destruct (getChannelPresence _ _ _ _ _ _ _); cbn [negb].
  - (* present *)
    split; [reflexivity |]. split; [reflexivity |]. split; [reflexivity |].
    split; [reflexivity |]. split.
    + unfold presentChannel. cbn [Ch.timebands].
      destruct ch.(Ch.timebands) as [tbs |]; [| reflexivity].
      cbn [option_map]. rewrite scaleTimebands_labels. reflexivity.
    + intros q Hq Hq0. right.
      unfold presentChannel. cbn [Ch.brandAReach].
      rewrite Hb, HM, Hs, Hq.
      destruct (finalFactor_finite d b M s ch.(Ch.genre) ch.(Ch.channel) "" Hd HM0)
        as (f & -> & Hlo & Hhi).
      cbn [mul].
      destruct (toFixed2_error (q * f)) as (y & Hy & Hylo & Hyhi & _).
      exists f, y. split; [exact Hlo |]. split; [exact Hhi |].
      split; [reflexivity |]. split; [exact Hy |]. split; nra.
  - (* absent *)
    split; [reflexivity |]. split; [reflexivity |]. split; [reflexivity |].
    split; [reflexivity |]. split.
    + unfold absentChannel. cbn [Ch.timebands].
      destruct ch.(Ch.timebands) as [tbs |]; [| reflexivity].
      cbn [option_map]. rewrite map_map. reflexivity.
    + intros q _ _. left. reflexivity.
Qed.

Lemma calculateDistrictChannels_scaling_witness :
  Forall2
    (fun ch o =>
       o.(Ch.channel) = ch.(Ch.channel) /\ o.(Ch.genre) = ch.(Ch.genre)
       /\ o.(Ch.channelShare) = ch.(Ch.channelShare)
       /\ o.(Ch.indexVsBaseline) = ch.(Ch.indexVsBaseline)
       /\ option_map (map Tb.timeband) o.(Ch.timebands)
          = option_map (map Tb.timeband) ch.(Ch.timebands)
       /\ forall q : Q, ch.(Ch.brandAReach) = Fin q -> (0 <= q)%Q ->
            o.(Ch.brandAReach) = Fin 0
            \/ exists f y : Q,
                 (0.4 <= f)%Q /\ (f <= 1.8)%Q
                 /\ o.(Ch.brandAReach) = toFixed 2 (Fin (q * f))
                 /\ o.(Ch.brandAReach) = Fin y
                 /\ (0.4 * q - 0.005 <= y)%Q /\ (y <= 1.8 * q + 0.005)%Q)
    exampleChannels
    (calculateDistrictChannels exampleChannels exampleDistrict
       [exampleDistrict; ruralDistrict]).
Proof.
  apply (calculateDistrictChannels_scaling exampleChannels exampleDistrict
           [exampleDistrict; ruralDistrict]).
  - reflexivity.
  - discriminate.
  - repeat constructor.
  - repeat constructor.
Defined.

(** ** Planner insights: the opportunity score *)

Lemma add_at_least (k : Q) (x y : number) :
  at_least k x -> at_least 0 y -> at_least k (x + y).
Proof.
  intros [-> | (a & -> & Ha)] [-> | (b & -> & Hb)]; cbn [add].
  - left. reflexivity.
  - left. reflexivity.
  - left. reflexivity.
  - right. exists (a + b)%Q. split; [reflexivity | lra].
Qed.

Lemma fold_at_least {A} (f : A -> number) (k : Q) (l : list A) (acc : number) :
  at_least k acc -> Forall (fun x => at_least 0 (f x)) l ->
  at_least k (fold_left (fun s x => s + f x) l acc).
Proof.
  revert acc. induction l as [| x l IH]; intros acc Hacc Hl; [exact Hacc |].
  apply Forall_cons in Hl as [Hx Hl]. cbn [fold_left].
  apply IH; [| exact Hl]. apply add_at_least; assumption.
Qed.

Lemma abs_gap_at_least (g : number) (k : Q) :
  (0 <= k)%Q -> (g <? Fin (- k)) = true -> at_least k (Math_abs g).
Proof.
  intros Hk H. destruct g as [ | | | q]; try discriminate.
  - left. reflexivity.
  - right. cbn [lt] in H. apply Qltb_lt in H.
    exists (Qabs q). split; [reflexivity |].
    rewrite Qabs_neg by lra. lra.
Qed.

Lemma filter_nil_iff {A} (p : A -> bool) (l : list A) :
  List.filter p l = [] <-> Forall (fun x => p x = false) l.
Proof.
  induction l as [| x l IH]; cbn [List.filter].
  - split; [constructor | reflexivity].
  - destruct (p x) eqn:E.
    + split; [discriminate |]. intros H. apply Forall_cons in H as [H _]. congruence.
    + rewrite IH. split.
      * intros H. constructor; assumption.
      * intros H. apply Forall_cons in H as [_ H]. exact H.
Qed.

(** The score of a list that has a band with gap below -2. *)
Lemma opportunityScore_vulnerable (v : list TimebandMetrics) :
  v <> [] -> Forall (fun tb => (tb.(Tb.gap) <? Fin (-2)) = true) v ->
  forall k : Q, (0 <= k)%Q -> (k <= 10)%Q ->
    (exists tb, In tb v /\ (tb.(Tb.gap) <? Fin (- k)) = true) ->
    exists n : Z,
      Math_round (Math_min [Fin 100; sum_by (fun tb => Math_abs tb.(Tb.gap)) v * Fin 10])
      = Fin (inject_Z n)
      /\ (20 <= n <= 100)%Z /\ (inject_Z n + 1 > 10 * k)%Q.
Proof.
  intros Hne Hv k Hk Hk10 (wb & Hwb & Hgap).
  assert (H0 : Forall (fun tb => at_least 0 (Math_abs tb.(Tb.gap))) v).
  { eapply Forall_impl; [exact Hv |]. intros tb Htb. cbn beta in Htb |- *.
    destruct (abs_gap_at_least _ 2 ltac:(lra) Htb) as [-> | (t & -> & Ht)];
      [left; reflexivity | right; exists t; split; [reflexivity | lra]]. }
  assert (Hsum : at_least (Qmax 2 k) (sum_by (fun tb => Math_abs tb.(Tb.gap)) v)).
  { unfold sum_by.
    apply in_split in Hwb as (l1 & l2 & ->).
    rewrite fold_left_app. cbn [fold_left].
    apply Forall_app in H0 as [H1 H2]. apply Forall_cons in H2 as [_ H2].
    apply fold_at_least; [| exact H2].
    apply Forall_app in Hv as [_ Hv]. apply Forall_cons in Hv as [Hw2 _].
    assert (Ha : at_least 0 (fold_left (fun s x => s + Math_abs x.(Tb.gap)) l1 (Fin 0))).
    { apply fold_at_least; [| exact H1]. right. exists 0%Q. split; [reflexivity | lra]. }
    destruct (abs_gap_at_least _ 2 ltac:(lra) Hw2) as [E2 | (t2 & E2 & Ht2)];
    destruct (abs_gap_at_least _ k Hk Hgap) as [Ek | (tk & Ek & Htk)];
      rewrite E2 in *; try discriminate.
    - destruct Ha as [-> | (a & -> & _)]; left; reflexivity.
    - injection Ek as <-.
      destruct Ha as [-> | (a & -> & Ha)]; [left; reflexivity |].
      right. exists (a + t2)%Q. split; [reflexivity |].
      apply Q.max_lub; lra. }
  destruct Hsum as [-> | (t & -> & Ht)].
  - exists 100%Z. split; [reflexivity |]. split; [lia |].
    change (inject_Z 100) with 100%Q. lra.
  - cbn [mul]. unfold Math_min. cbn [fold_left min2 lt].
    assert (Ht2 : (2 <= t)%Q) by (eapply Qle_trans; [apply Q.le_max_l | exact Ht]).
    assert (Htk : (k <= t)%Q) by (eapply Qle_trans; [apply Q.le_max_r | exact Ht]).
    destruct (Qltb (t * 10) 100) eqn:E.
    + apply Qltb_lt in E. cbn [Math_round].
      exists (Qfloor (t * 10 + (1 # 2))). split; [reflexivity |].
      split.
      * split.
        -- rewrite <- (Qfloor_half 20). apply Qfloor_resp_le.
           change (inject_Z 20) with 20%Q. lra.
        -- rewrite <- (Qfloor_half 100). apply Qfloor_resp_le.
           change (inject_Z 100) with 100%Q. lra.
      * assert (Hfl : (t * 10 + (1 # 2) < inject_Z (Qfloor (t * 10 + (1 # 2)) + 1))%Q)
          by apply Qlt_floor.
        rewrite inject_Z_plus in Hfl. change (inject_Z 1) with 1%Q in Hfl. lra.
    + exists 100%Z. split; [reflexivity |]. split; [lia |].
      change (inject_Z 100) with 100%Q. lra.
Qed.

(** X23.  The opportunity score is a whole number: 0 when no band has a
    gap below -2, and otherwise between 20 and 100, so it is never
    between 1 and 19 and never NaN. *)
Theorem calculateOpportunityScore_range (timebands : list TimebandMetrics) :
  exists n : Z,
    calculateOpportunityScore timebands = Fin (inject_Z n)
    /\ (n = 0 \/ 20 <= n <= 100)%Z
    /\ (n = 0%Z <-> Forall (fun tb => (tb.(Tb.gap) <? Fin (-2)) = false) timebands).
Proof.
  unfold calculateOpportunityScore.
  set (v := List.filter (fun tb => tb.(Tb.gap) <? Fin (-2)) timebands).
  destruct v as [| x v'] eqn:Ev.
  - exists 0%Z. split; [reflexivity |]. split; [left; reflexivity |].
    split; [intros _ | reflexivity].
    apply (filter_nil_iff (fun tb => tb.(Tb.gap) <? Fin (-2))). exact Ev.
  - cbn [length Nat.eqb]. rewrite <- Ev.
    assert (Hv : Forall (fun tb => (tb.(Tb.gap) <? Fin (-2)) = true) v).
    { apply Forall_forall. intros tb Htb.
      apply list_elem_of_In, filter_In in Htb. apply Htb. }
    destruct (opportunityScore_vulnerable v) with (k := 2%Q) as (n & Hn & Hr & _).
    + rewrite Ev. discriminate.
    + exact Hv.
    + lra.
    + lra.
    + exists x. split; [rewrite Ev; left; reflexivity |].
      rewrite Forall_forall in Hv. apply Hv, list_elem_of_In. rewrite Ev. left. reflexivity.
    + exists n. split; [exact Hn |]. split; [right; exact Hr |].
      split; [intros ->; lia |].
      intros Hall. apply (filter_nil_iff (fun tb => tb.(Tb.gap) <? Fin (-2))) in Hall.
      fold v in Hall. rewrite Ev in Hall. discriminate.
Qed.

(** ** Planner insights: the top action *)

Lemma lt_then_not_le (t w : number) : (t <? w) = true -> (w <=? t) = false.
Proof.
  destruct t as [ | | | t], w as [ | | | w]; cbn [lt le]; try discriminate; try reflexivity.
  intros H%Qltb_lt. destruct (Qle_bool w t) eqn:E; [| reflexivity].
  apply Qle_bool_iff in E. lra.
Qed.

Lemma not_lt_above (x w t : number) :
  (x <? w) = false -> (t <? w) = true -> (x <=? t) = false.
Proof.
  destruct x as [ | | | x], w as [ | | | w], t as [ | | | t]; cbn [lt le];
    try discriminate; try reflexivity.
  intros H1%Qltb_ge H2%Qltb_lt. destruct (Qle_bool x t) eqn:E; [| reflexivity].
  apply Qle_bool_iff in E. lra.
Qed.

Lemma not_le_above (x w t : number) :
  (x <=? w) = false -> (t <? w) = true -> (x <=? t) = false.
Proof.
  destruct x as [ | | | x], w as [ | | | w], t as [ | | | t]; cbn [lt le];
    try discriminate; try reflexivity.
  intros H1 H2%Qltb_lt. destruct (Qle_bool x t) eqn:E; [| reflexivity].
  apply Qle_bool_iff in E.
  assert (Hxw : (x <= w)%Q) by lra. apply Qle_bool_iff in Hxw. congruence.
Qed.

(** The loop over [worstBand] and [worstGap]: no band below 0, or the
    first band of the smallest gap. *)
Lemma worst_fold (l : list TimebandMetrics) :
  let worst := fold_left worstStep l (None, Fin 0) in
  (fst worst = None /\ snd worst = Fin 0
   /\ Forall (fun x => (x.(Tb.gap) <? Fin 0) = false) l)
  \/ exists l1 wb l2,
       l = (l1 ++ wb :: l2)%list /\ fst worst = Some wb /\ snd worst = wb.(Tb.gap)
       /\ (wb.(Tb.gap) <? Fin 0) = true
       /\ Forall (fun x => (x.(Tb.gap) <=? wb.(Tb.gap)) = false) l1
       /\ Forall (fun x => (x.(Tb.gap) <? wb.(Tb.gap)) = false) l2.
Proof.
  induction l as [| tb l IH] using rev_ind.
  { left. repeat split. constructor. }
  cbv zeta in IH |- *. rewrite fold_left_app. cbn [fold_left].
  destruct (fold_left worstStep l (None, Fin 0)) as [wbo wg]. cbn [fst snd] in IH.
  unfold worstStep. cbn [snd].
  destruct IH as [(Hn & Hg & Hall) | (l1 & wb & l2 & El & Hw & Hg & Hneg & H1 & H2)];
    subst wbo wg.
  - destruct (tb.(Tb.gap) <? Fin 0) eqn:E.
    + right. exists l, tb, []. cbn [fst snd].
      split; [reflexivity |]. split; [reflexivity |]. split; [reflexivity |].
      split; [exact E |]. split; [| constructor].
      eapply Forall_impl; [exact Hall |]. intros x Hx. cbn beta in Hx |- *.
      eapply not_lt_above; eassumption.
    + left. split; [reflexivity |]. split; [reflexivity |].
      apply Forall_app. split; [exact Hall |]. constructor; [exact E | constructor].
  - destruct (tb.(Tb.gap) <? wb.(Tb.gap)) eqn:E.
    + right. exists l, tb, []. cbn [fst snd].
      split; [reflexivity |]. split; [reflexivity |]. split; [reflexivity |].
      split.
      { destruct tb.(Tb.gap) as [ | | | t], wb.(Tb.gap) as [ | | | w];
          cbn [lt] in *; try discriminate; try reflexivity.
        apply Qltb_lt in E, Hneg. apply Qltb_lt. lra. }
      split; [| constructor].
      rewrite El. apply Forall_app. split.
      * eapply Forall_impl; [exact H1 |]. intros x Hx. cbn beta in Hx |- *.
        eapply not_le_above; eassumption.
      * constructor.
        -- apply lt_then_not_le. exact E.
        -- eapply Forall_impl; [exact H2 |]. intros x Hx. cbn beta in Hx |- *.
           eapply not_lt_above; eassumption.
    + right. exists l1, wb, (l2 ++ [tb])%list.
      split; [rewrite El, <- app_assoc; reflexivity |].
      split; [reflexivity |]. split; [reflexivity |]. split; [exact Hneg |].
      split; [exact H1 |].
      apply Forall_app. split; [exact H2 |]. constructor; [exact E | constructor].
Qed.

Lemma insert_by_In {A} (cmp : A -> A -> number) (x y : A) (l : list A) :
  In y (insert_by cmp x l) -> y = x \/ In y l.
Proof.
  induction l as [| z l IH]; cbn [insert_by].
  - intros [<- | []]. left. reflexivity.
  - destruct (cmp x z >? Fin 0).
    + intros [<- | H]; [right; left; reflexivity |].
      destruct (IH H) as [-> | H']; [left; reflexivity | right; right; exact H'].
    + intros [<- | H]; [left; reflexivity | right; exact H].
Qed.

Lemma sort_by_In {A} (cmp : A -> A -> number) (y : A) (l : list A) :
  In y (sort_by cmp l) -> In y l.
Proof.
  induction l as [| x l IH]; [intros [] |].
  change (sort_by cmp (x :: l)) with (insert_by cmp x (sort_by cmp l)).
  intros H. apply insert_by_In in H as [-> | H]; [left; reflexivity |].
  right. apply IH. exact H.
Qed.

Lemma strongestBandAction_cases (timebands : list TimebandMetrics) :
  match strongestBandAction timebands with
  | Some r =>
      r.(Top.action) = Act.MAINTAIN /\ r.(Top.priority) = LOW
      /\ r.(Top.estimatedUplift) = Fin 0
      /\ exists best, In best timebands /\ (best.(Tb.gap) >? Fin 5) = true
                      /\ r.(Top.timeband) = best.(Tb.timeband)
  | None => Forall (fun x => (x.(Tb.gap) >? Fin 5) = false) timebands
  end.
Proof.
  unfold strongestBandAction.
  set (strong := List.filter (fun tb => tb.(Tb.gap) >? Fin 5) timebands).
  destruct strong as [| x strong'] eqn:Es.
  - cbn [length Nat.ltb Nat.leb].
    apply (filter_nil_iff (fun tb => tb.(Tb.gap) >? Fin 5)). exact Es.
  - change (0 <? length (x :: strong'))%nat with true. cbv iota.
    destruct (sort_by _ (x :: strong')) as [| best rest] eqn:Esort.
    + exfalso.
      change (sort_by (fun a b => b.(Tb.gap) - a.(Tb.gap)) (x :: strong'))
        with (insert_by (fun a b => b.(Tb.gap) - a.(Tb.gap)) x
                (sort_by (fun a b => b.(Tb.gap) - a.(Tb.gap)) strong')) in Esort.
      destruct (sort_by _ strong') as [| z zs]; cbn [insert_by] in Esort;
        [discriminate |].
      destruct (_ >? Fin 0) in Esort; discriminate.
    + cbn [Top.action Top.priority Top.estimatedUplift Top.timeband].
      split; [reflexivity |]. split; [reflexivity |]. split; [reflexivity |].
      exists best.
      assert (Hb : In best (x :: strong')).
      { apply (sort_by_In (fun a b => b.(Tb.gap) - a.(Tb.gap))). rewrite Esort.
        left. reflexivity. }
      rewrite <- Es in Hb. apply filter_In in Hb as [Hin Hgap].
      split; [exact Hin |]. split; [exact Hgap | reflexivity].
Qed.

(** The priority of an investment depends on the gap alone. *)
Lemma invest_priority (label : string) (g : number) :
  (g <? Fin 0) = true ->
  (if String.eqb label "CPT" && (g <? Fin (-5)) then HIGH
   else if Math_abs g >? Fin 5 then HIGH
   else if Math_abs g <? Fin 2 then LOW
   else MEDIUM)
  = (if g <? Fin (-5) then HIGH else if g >? Fin (-2) then LOW else MEDIUM).
Proof.
  intros Hneg. destruct g as [ | | | q]; try discriminate.
  - cbn [lt gt Math_abs]. destruct (String.eqb label "CPT"); reflexivity.
  - cbn [lt gt Math_abs] in *. apply Qltb_lt in Hneg.
    assert (Ea : (Qabs q == - q)%Q) by (apply Qabs_neg; lra).
    destruct (String.eqb label "CPT"); cbn [andb];
      order_cases; try reflexivity; lra.
Qed.

(** The three outcomes of [findTopAction]. *)
Lemma findTopAction_shape (timebands : list TimebandMetrics) :
  match findTopAction timebands with
  | Some r =>
      (r.(Top.action) = Act.INVEST
       /\ exists l1 wb l2,
            timebands = (l1 ++ wb :: l2)%list
            /\ (wb.(Tb.gap) <=? Fin (-1)) = true
            /\ Forall (fun x => (x.(Tb.gap) <=? wb.(Tb.gap)) = false) l1
            /\ Forall (fun x => (x.(Tb.gap) <? wb.(Tb.gap)) = false) l2
            /\ r.(Top.timeband) = wb.(Tb.timeband)
            /\ r.(Top.estimatedUplift) = Math_abs wb.(Tb.gap) * Fin 0.4
            /\ r.(Top.priority) =
                 (if wb.(Tb.gap) <? Fin (-5) then HIGH
                  else if wb.(Tb.gap) >? Fin (-2) then LOW else MEDIUM))
      \/ (r.(Top.action) = Act.MAINTAIN /\ r.(Top.priority) = LOW
          /\ r.(Top.estimatedUplift) = Fin 0
          /\ Forall (fun x => (x.(Tb.gap) <=? Fin (-1)) = false) timebands
          /\ exists best, In best timebands /\ (best.(Tb.gap) >? Fin 5) = true
                          /\ r.(Top.timeband) = best.(Tb.timeband))
  | None =>
      Forall (fun x => (x.(Tb.gap) <=? Fin (-1)) = false
                       /\ (x.(Tb.gap) >? Fin 5) = false) timebands
  end.
Proof.
  unfold findTopAction.
  assert (Hfallback :
    Forall (fun x => (x.(Tb.gap) <=? Fin (-1)) = false) timebands ->
    match strongestBandAction timebands with
    | Some r =>
        (r.(Top.action) = Act.INVEST
         /\ exists l1 wb l2,
              timebands = (l1 ++ wb :: l2)%list
              /\ (wb.(Tb.gap) <=? Fin (-1)) = true
              /\ Forall (fun x => (x.(Tb.gap) <=? wb.(Tb.gap)) = false) l1
              /\ Forall (fun x => (x.(Tb.gap) <? wb.(Tb.gap)) = false) l2
              /\ r.(Top.timeband) = wb.(Tb.timeband)
              /\ r.(Top.estimatedUplift) = Math_abs wb.(Tb.gap) * Fin 0.4
              /\ r.(Top.priority) =
                   (if wb.(Tb.gap) <? Fin (-5) then HIGH
                    else if wb.(Tb.gap) >? Fin (-2) then LOW else MEDIUM))
        \/ (r.(Top.action) = Act.MAINTAIN /\ r.(Top.priority) = LOW
            /\ r.(Top.estimatedUplift) = Fin 0
            /\ Forall (fun x => (x.(Tb.gap) <=? Fin (-1)) = false) timebands
            /\ exists best, In best timebands /\ (best.(Tb.gap) >? Fin 5) = true
                            /\ r.(Top.timeband) = best.(Tb.timeband))
    | None =>
        Forall (fun x => (x.(Tb.gap) <=? Fin (-1)) = false
                         /\ (x.(Tb.gap) >? Fin 5) = false) timebands
    end).
  { intros Hno. pose proof (strongestBandAction_cases timebands) as Hs.
    destruct (strongestBandAction timebands) as [r |].
    - right. destruct Hs as (Ha & Hp & Hu & Hb).
      split; [exact Ha |]. split; [exact Hp |]. split; [exact Hu |].
      split; [exact Hno | exact Hb].
    - rewrite Forall_forall in Hno, Hs. apply Forall_forall. intros x Hx.
      split; [apply Hno | apply Hs]; exact Hx. }
  destruct (worst_fold timebands)
    as [(Hn & Hg & Hall) | (l1 & wb & l2 & El & Hw & Hg & Hneg & H1 & H2)];
    cbv zeta in *.
  - rewrite Hn. apply Hfallback.
    eapply Forall_impl; [exact Hall |]. intros x Hx. cbn beta in Hx |- *.
    destruct x.(Tb.gap) as [ | | | q]; cbn [lt le] in *; try discriminate; try reflexivity.
    apply Qltb_ge in Hx. destruct (Qle_bool q (-1)) eqn:E; [| reflexivity].
    apply Qle_bool_iff in E. lra.
  - rewrite Hw, Hg.
    destruct (wb.(Tb.gap) >? Fin (-1)) eqn:Egt.
    + apply Hfallback. rewrite El. apply Forall_app. split; [| constructor].
      * eapply Forall_impl; [exact H1 |]. intros x Hx. cbn beta in Hx |- *.
        destruct x.(Tb.gap) as [ | | | q], wb.(Tb.gap) as [ | | | w];
          cbn [lt le gt] in *; try discriminate; try reflexivity.
        apply Qltb_lt in Egt. destruct (Qle_bool q (-1)) eqn:E; [| reflexivity].
        apply Qle_bool_iff in E.
        assert (Hqw : (q <= w)%Q) by lra. apply Qle_bool_iff in Hqw. congruence.
      * apply lt_then_not_le. exact Egt.
      * eapply Forall_impl; [exact H2 |]. intros x Hx. cbn beta in Hx |- *.
        destruct x.(Tb.gap) as [ | | | q], wb.(Tb.gap) as [ | | | w];
          cbn [lt le gt] in *; try discriminate; try reflexivity.
        apply Qltb_lt in Egt. apply Qltb_ge in Hx.
        destruct (Qle_bool q (-1)) eqn:E; [| reflexivity].
        apply Qle_bool_iff in E. lra.
    + left. cbn [Top.action Top.timeband Top.estimatedUplift Top.priority].
      split; [reflexivity |].
      exists l1, wb, l2. split; [exact El |]. split.
      { destruct wb.(Tb.gap) as [ | | | w]; cbn [lt le gt] in *;
          try discriminate; try reflexivity.
        apply Qltb_ge in Egt. apply Qle_bool_iff. exact Egt. }
      split; [exact H1 |]. split; [exact H2 |].
      split; [reflexivity |]. split; [reflexivity |].
      apply invest_priority. exact Hneg.
Qed.

(** X24.  [findTopAction] has three outcomes, decided by the gaps.
    When some band has a gap of -1 or less, it advises INVEST in the
    first band of the smallest gap, with an estimated uplift of 0.4
    times the size of that gap and priority HIGH for a gap below -5, LOW
    for a gap above -2 and MEDIUM between (whether the band is CPT makes
    no difference).  When no band has such a gap but some band has a gap
    above 5, it advises MAINTAIN, priority LOW and uplift 0, for a band
    with a gap above 5.  When neither holds it returns nothing. *)
Theorem findTopAction_cases (timebands : list TimebandMetrics) :
  ((exists tb, In tb timebands /\ (tb.(Tb.gap) <=? Fin (-1)) = true) ->
   exists r l1 wb l2,
     findTopAction timebands = Some r
     /\ r.(Top.action) = Act.INVEST
     /\ timebands = (l1 ++ wb :: l2)%list
     /\ Forall (fun x => (x.(Tb.gap) <=? wb.(Tb.gap)) = false) l1
     /\ Forall (fun x => (x.(Tb.gap) <? wb.(Tb.gap)) = false) l2
     /\ r.(Top.timeband) = wb.(Tb.timeband)
     /\ r.(Top.estimatedUplift) = Math_abs wb.(Tb.gap) * Fin 0.4
     /\ r.(Top.priority) =
          (if wb.(Tb.gap) <? Fin (-5) then HIGH
           else if wb.(Tb.gap) >? Fin (-2) then LOW else MEDIUM))
  /\ (Forall (fun x => (x.(Tb.gap) <=? Fin (-1)) = false) timebands ->
      (exists tb, In tb timebands /\ (tb.(Tb.gap) >? Fin 5) = true) ->
      exists r best,
        findTopAction timebands = Some r
        /\ r.(Top.action) = Act.MAINTAIN /\ r.(Top.priority) = LOW
        /\ r.(Top.estimatedUplift) = Fin 0
        /\ In best timebands /\ (best.(Tb.gap) >? Fin 5) = true
        /\ r.(Top.timeband) = best.(Tb.timeband))
  /\ (Forall (fun x => (x.(Tb.gap) <=? Fin (-1)) = false
                       /\ (x.(Tb.gap) >? Fin 5) = false) timebands ->
      findTopAction timebands = None).
Proof.
  pose proof (findTopAction_shape timebands) as Hshape.
  split; [| split].
  - intros (tb & Hin & Hle).
    destruct (findTopAction timebands) as [r |].
    + destruct Hshape as [(Ha & l1 & wb & l2 & El & _ & H1 & H2 & Ht & Hu & Hp)
                         | (_ & _ & _ & Hno & _)].
      * exists r, l1, wb, l2. repeat split; assumption.
      * rewrite Forall_forall in Hno.
        specialize (Hno tb (proj2 (list_elem_of_In _ _) Hin)). cbn beta in Hno.
        congruence.
    + rewrite Forall_forall in Hshape.
      destruct (Hshape tb (proj2 (list_elem_of_In _ _) Hin)) as [Hno _]. congruence.
  - intros Hno (tb & Hin & Hgt).
    destruct (findTopAction timebands) as [r |].
    + destruct Hshape as [(_ & l1 & wb & l2 & El & Hle & _)
                         | (Ha & Hp & Hu & _ & best & Hb & Hbg & Ht)].
      * rewrite Forall_forall in Hno.
        assert (Hwb : In wb timebands)
          by (rewrite El; apply in_or_app; right; left; reflexivity).
        specialize (Hno wb (proj2 (list_elem_of_In _ _) Hwb)). cbn beta in Hno.
        congruence.
      * exists r, best. repeat split; assumption.
    + rewrite Forall_forall in Hshape.
      destruct (Hshape tb (proj2 (list_elem_of_In _ _) Hin)) as [_ Hng]. congruence.
  - intros Hnone. rewrite Forall_forall in Hnone.
    destruct (findTopAction timebands) as [r |]; [| reflexivity].
    destruct Hshape as [(_ & l1 & wb & l2 & El & Hle & _)
                       | (_ & _ & _ & _ & best & Hb & Hbg & _)].
    + assert (Hwb : In wb timebands)
        by (rewrite El; apply in_or_app; right; left; reflexivity).
      destruct (Hnone wb (proj2 (list_elem_of_In _ _) Hwb)) as [Hno _]. congruence.
    + destruct (Hnone best (proj2 (list_elem_of_In _ _) Hb)) as [_ Hng]. congruence.
Qed.

(** ** Planner insights: score and action agree *)

(** X25.  A channel without bands gets the empty insights.  Otherwise
    score, top action and priority agree: an opportunity score other
    than 0 comes with the advice INVEST at priority HIGH or MEDIUM, an
    advice of priority HIGH comes with a score of at least 50, and the
    priority is 'NONE' exactly when there is no top action. *)
Theorem generateSimplifiedInsights_consistent
    (channel : ChannelRecord) (market : string) (allChannelsInMarket : list ChannelRecord)
    (timebands : list TimebandMetrics) :
  channel.(Ch.timebands) = Some timebands ->
  let insights := generateSimplifiedInsights channel market allChannelsInMarket in
  (timebands = [] -> insights = getEmptySimplifiedInsights)
  /\ (insights.(Ins.opportunityScore) <> Fin 0 ->
      exists a, insights.(Ins.topAction) = Some a /\ a.(TopOut.action) = Act.INVEST
                /\ (insights.(Ins.topActionPriority) = PriorityOf HIGH
                    \/ insights.(Ins.topActionPriority) = PriorityOf MEDIUM))
  /\ (insights.(Ins.topActionPriority) = PriorityOf HIGH ->
      exists n : Z, insights.(Ins.opportunityScore) = Fin (inject_Z n)
                    /\ (50 <= n <= 100)%Z)
  /\ (insights.(Ins.topActionPriority) = NONE <-> insights.(Ins.topAction) = None).
Proof.
  intros Htb insights. unfold insights, generateSimplifiedInsights. rewrite Htb.
  split; [intros ->; reflexivity |].
  destruct timebands as [| tb0 tbs]; cbn [length Nat.eqb].
  { split; [intros H; exfalso; apply H; reflexivity |].
    split; [discriminate |]. split; reflexivity. }
  set (l := tb0 :: tbs).
  cbn [Ins.opportunityScore Ins.topAction Ins.topActionPriority].
  pose proof (findTopAction_shape l) as Hcases.
  split; [| split].
  - intros Hscore.
    assert (Hv : exists x, In x l /\ (x.(Tb.gap) <? Fin (-2)) = true).
    { destruct (List.filter (fun tb => tb.(Tb.gap) <? Fin (-2)) l) as [| x v] eqn:Ev.
      - exfalso. apply Hscore. unfold calculateOpportunityScore. rewrite Ev. reflexivity.
      - exists x. apply (filter_In (fun tb => tb.(Tb.gap) <? Fin (-2))).
        rewrite Ev. left. reflexivity. }
    destruct Hv as (x & Hx & Hgap).
    destruct (findTopAction l) as [r |].
    + destruct Hcases as [(Ha & l1 & wb & l2 & El & Hle & H1 & H2 & Ht & Hu & Hp)
                         | (_ & _ & _ & Hno & _)].
      * eexists. split; [reflexivity |]. split; [exact Ha |].
        cbn [option_map]. rewrite Hp.
        assert (Hwb : (wb.(Tb.gap) <? Fin (-2)) = true).
        { assert (Hnot : (x.(Tb.gap) <? wb.(Tb.gap)) = false).
          { rewrite El in Hx. apply in_app_or in Hx as [Hx | [<- | Hx]].
            - rewrite Forall_forall in H1. specialize (H1 x (proj2 (list_elem_of_In _ _) Hx)).
              cbn beta in H1.
              destruct x.(Tb.gap) as [ | | | q], wb.(Tb.gap) as [ | | | w];
                cbn [lt le] in *; try discriminate; try reflexivity.
              apply Qltb_ge. destruct (Qle_bool q w) eqn:E; [discriminate |].
              destruct (Qlt_le_dec w q) as [H | H]; [lra |].
              apply Qle_bool_iff in H. congruence.
            - destruct wb.(Tb.gap) as [ | | | w]; cbn [lt] in *;
                try discriminate; try reflexivity.
              apply Qltb_ge. lra.
            - rewrite Forall_forall in H2. apply H2, list_elem_of_In. exact Hx. }
          destruct x.(Tb.gap) as [ | | | q], wb.(Tb.gap) as [ | | | w];
            cbn [lt le] in *; try discriminate; try reflexivity.
          apply Qltb_lt in Hgap. apply Qltb_ge in Hnot. apply Qltb_lt. lra. }
        destruct (wb.(Tb.gap) <? Fin (-5)); [left; reflexivity |].
        assert (Hgt : (wb.(Tb.gap) >? Fin (-2)) = false).
        { destruct wb.(Tb.gap) as [ | | | w]; cbn [lt gt] in *;
            try discriminate; try reflexivity.
          apply Qltb_lt in Hwb. apply Qltb_ge. lra. }
        rewrite Hgt. right. reflexivity.
      * exfalso. rewrite Forall_forall in Hno.
        specialize (Hno x (proj2 (list_elem_of_In _ _) Hx)). cbn beta in Hno.
        destruct x.(Tb.gap) as [ | | | q]; cbn [lt le] in *; try discriminate.
        apply Qltb_lt in Hgap. destruct (Qle_bool q (-1)) eqn:E; [discriminate |].
        assert (H : (q <= -1)%Q) by lra. apply Qle_bool_iff in H. congruence.
    + exfalso. rewrite Forall_forall in Hcases.
      destruct (Hcases x (proj2 (list_elem_of_In _ _) Hx)) as [Hno _].
      destruct x.(Tb.gap) as [ | | | q]; cbn [lt le] in *; try discriminate.
      apply Qltb_lt in Hgap. destruct (Qle_bool q (-1)) eqn:E; [discriminate |].
      assert (H : (q <= -1)%Q) by lra. apply Qle_bool_iff in H. congruence.
  - intros Hprio.
    destruct (findTopAction l) as [r |]; [| discriminate].
    injection Hprio as Hprio.
    destruct Hcases as [(Ha & l1 & wb & l2 & El & Hle & H1 & H2 & Ht & Hu & Hp)
                       | (_ & Hlow & _)]; [| congruence].
    rewrite Hp in Hprio.
    destruct (wb.(Tb.gap) <? Fin (-5)) eqn:E5;
      [| destruct (wb.(Tb.gap) >? Fin (-2)); discriminate].
    unfold calculateOpportunityScore.
    set (v := List.filter (fun tb => tb.(Tb.gap) <? Fin (-2)) l).
    assert (Hwv : In wb v).
    { apply filter_In. split; [rewrite El; apply in_or_app; right; left; reflexivity |].
      destruct wb.(Tb.gap) as [ | | | w]; cbn [lt] in *; try discriminate; try reflexivity.
      apply Qltb_lt in E5. apply Qltb_lt. lra. }
    destruct v as [| x v'] eqn:Ev; [destruct Hwv |].
    cbn [length Nat.eqb]. rewrite <- Ev.
    destruct (opportunityScore_vulnerable v) with (k := 5%Q) as (n & Hn & Hr & Hk).
    + rewrite Ev. discriminate.
    + apply Forall_forall. intros tb Hin.
      apply list_elem_of_In, filter_In in Hin. apply Hin.
    + lra.
    + lra.
    + exists wb. split; [rewrite Ev; exact Hwv | exact E5].
    + exists n. split; [exact Hn |].
      assert (H49 : (49 < n)%Z).
      { rewrite Zlt_Qlt. change (inject_Z 49) with 49%Q. lra. }
      lia.
  - destruct (findTopAction l) as [r |]; cbn [option_map]; split; try discriminate;
      reflexivity.
Qed.

(** Gaps -1, -3, -6 and 2: the score is 90 and the advice is to invest
    in core prime time at priority HIGH. *)
Lemma generateSimplifiedInsights_consistent_witness :
  (generateSimplifiedInsights insightChannel "UP" []).(Ins.topActionPriority)
    = PriorityOf HIGH
  /\ exists n : Z,
       (generateSimplifiedInsights insightChannel "UP" []).(Ins.opportunityScore)
         = Fin (inject_Z n)
       /\ (50 <= n <= 100)%Z.
Proof.
  split; [vm_compute; reflexivity |].
  destruct (generateSimplifiedInsights_consistent insightChannel "UP" []
              (gapScenario (-1) (-3) (-6) 2) eq_refl) as (_ & _ & H & _).
  apply H. vm_compute. reflexivity.
Defined.

(** ** Channel language filter *)

Lemma filter_partition_length {A} (p : A -> bool) (l : list A) :
  (length l = length (List.filter p l) + length (List.filter (fun x => negb (p x)) l))%nat.
Proof.
  induction l as [| x l IH]; [reflexivity |].
  cbn [List.filter]. destruct (p x); cbn [negb length]; lia.
Qed.

(** X26.  For the markets 'Karnataka' and 'Maharashtra' the filter keeps
    exactly the channels whose name is not in [HINDI_CHANNELS] (the
    comparison is exact, by the whole name), filtering twice changes
    nothing more, the count of removed channels is the number of listed
    channels and original = filtered + removed, and the optimizer run on
    the filtered list has no entry under a listed name.  For 'UP' the
    list is returned as it is. *)
Theorem filterChannelsForMarket_hindi (channels : list ChannelRecord) (market : string) :
  market = "Karnataka" \/ market = "Maharashtra" ->
  let kept := filterChannelsForMarket channels market in
  let count := getFilteredChannelCount channels market in
  (forall ch, In ch kept <-> In ch channels /\ ~ In ch.(Ch.channel) HINDI_CHANNELS)
  /\ filterChannelsForMarket kept market = kept
  /\ count.(removed)
     = Z.of_nat (length (List.filter (fun ch => isHindiChannel ch.(Ch.channel)) channels))
  /\ Z.of_nat count.(original) = (Z.of_nat count.(filtered) + count.(removed))%Z
  /\ (forall intensity threshold name r,
        runOptimization kept intensity threshold !! name = Some r ->
        ~ In name HINDI_CHANNELS)
  /\ filterChannelsForMarket channels "UP" = channels.
Proof.
  intros Hm kept count.
  assert (Ek : kept = List.filter (fun channel => negb (isHindiChannel channel.(Ch.channel)))
                                  channels).
  { unfold kept, filterChannelsForMarket. destruct Hm as [-> | ->]; reflexivity. }
  assert (Hkept : forall ch, In ch kept <->
                    In ch channels /\ ~ In ch.(Ch.channel) HINDI_CHANNELS).
  { intros ch. rewrite Ek, filter_In, negb_true_iff. unfold isHindiChannel.
    rewrite <- includes_In.
    destruct (includes HINDI_CHANNELS ch.(Ch.channel)); intuition congruence. }
  split; [exact Hkept |]. split; [| split; [| split; [| split]]].
  - unfold filterChannelsForMarket at 1.
    assert (Eb : String.eqb market "Karnataka" || String.eqb market "Maharashtra" = true)
      by (destruct Hm as [-> | ->]; reflexivity).
    rewrite Eb. apply filter_all. intros ch Hch.
    rewrite Ek in Hch. apply filter_In in Hch. apply Hch.
  - unfold count, getFilteredChannelCount. cbn [removed]. fold kept. rewrite Ek.
    pose proof (filter_partition_length
                  (fun ch => isHindiChannel ch.(Ch.channel)) channels) as H.
    lia.
  - unfold count, getFilteredChannelCount. cbn [original filtered removed]. lia.
  - intros intensity threshold name r Hr. unfold runOptimization in Hr.
    apply loop_entry_named in Hr as [Hr | (ch & Hin & Hn & _)].
    + rewrite lookup_empty in Hr. discriminate.
    + rewrite <- Hn. apply Hkept. exact Hin.
  - reflexivity.
Qed.

(** "Zee TV" is listed: of the three example channels two remain. *)
Lemma filterChannelsForMarket_hindi_witness :
  map Ch.channel (filterChannelsForMarket exampleChannels "Karnataka")
    = ["Aaj Tak Action Utsav"; "Tiny"]
  /\ (getFilteredChannelCount exampleChannels "Karnataka").(removed)
     = Z.of_nat (length (List.filter (fun ch => isHindiChannel ch.(Ch.channel))
                                     exampleChannels)).
Proof.
  split; [vm_compute; reflexivity |].
  apply (filterChannelsForMarket_hindi exampleChannels "Karnataka").
  left. reflexivity.
Defined.

(** ** The detailed report: prioritized actions *)






(** ** The detailed report: prime efficiency *)




(** ** Prime against non-prime across markets *)




(** ** Insights for a channel that is absent from a district *)

Lemma sum_by_zero {A} (f : A -> number) (l : list A) :
  Forall (fun x => f x = Fin 0) l ->
  exists q : Q, sum_by f l = Fin q /\ (q == 0)%Q.
Proof.
  unfold sum_by.
  assert (G : forall acc : Q, Forall (fun x => f x = Fin 0) l ->
            exists q : Q, fold_left (fun s x => s + f x) l (Fin acc) = Fin q /\ (q == acc)%Q).
  { induction l as [| x l IH]; intros acc Hl.
    - exists acc. split; reflexivity.
    - apply Forall_cons in Hl as [Hx Hl]. cbn [fold_left]. rewrite Hx. cbn [add].
      destruct (IH (acc + 0)%Q Hl) as (q & Hq & E).
      exists q. split; [exact Hq | rewrite E; ring]. }
  intros Hl. apply (G 0%Q Hl).
Qed.

Lemma absentTimeband_zero (tbs : list TimebandMetrics) :
  Forall (fun tb => tb.(Tb.brandAReach) = Fin 0 /\ tb.(Tb.gap) = Fin 0)
         (map absentTimeband tbs).
Proof.
  apply Forall_forall. intros tb Htb.
  apply list_elem_of_In, in_map_iff in Htb as (tb0 & <- & _). split; reflexivity.
Qed.

(** X30.  For a channel that [calculateDistrictChannels] leaves absent
    from a district (every band zeroed), the simplified insights are
    neutral: prime-time focus 0, opportunity score 0, priority 'NONE',
    no top action, and the recommendation of a balanced distribution
    without an action sentence. *)
Theorem generateSimplifiedInsights_absent
    (channel : ChannelRecord) (market : string) (allChannelsInMarket : list ChannelRecord)
    (timebands : list TimebandMetrics) :
  channel.(Ch.timebands) = Some timebands -> timebands <> [] ->
  generateSimplifiedInsights (absentChannel channel) market allChannelsInMarket
  = Ins.mk (Fin 0) (Fin 0) NONE None
           (Sentences (BalancedDistribution (Fin 0) (Fin 100 - Fin 0))
                      NoActionSentence MonitorMovements).
Proof.
  intros Htb Hne. unfold generateSimplifiedInsights, absentChannel.
  cbn [Ch.timebands]. rewrite Htb. cbn [option_map].
  set (l := map absentTimeband timebands).
  assert (Hl : (length l =? 0)%nat = false).
  { unfold l. rewrite length_map. destruct timebands; [congruence | reflexivity]. }
  rewrite Hl.
  pose proof (absentTimeband_zero timebands) as Hz. fold l in Hz.
  assert (Hfocus : calculatePrimeTimeFocus l = Fin 0).
  { unfold calculatePrimeTimeFocus.
    destruct (sum_by_zero Tb.brandAReach l) as (q & -> & Eq).
    - eapply Forall_impl; [exact Hz |]. intros tb [H _]. exact H.
    - cbn [strict_eq]. apply Qeq_bool_iff in Eq. rewrite Eq. reflexivity. }
  assert (Hscore : calculateOpportunityScore l = Fin 0).
  { unfold calculateOpportunityScore. rewrite count_none; [reflexivity |].
    intros tb Hin. rewrite Forall_forall in Hz.
    destruct (Hz tb (proj2 (list_elem_of_In _ _) Hin)) as [_ ->]. reflexivity. }
  assert (Haction : findTopAction l = None).
  { pose proof (findTopAction_shape l) as Hshape.
    destruct (findTopAction l) as [r |]; [exfalso | reflexivity].
    rewrite Forall_forall in Hz.
    destruct Hshape as [(_ & l1 & wb & l2 & El & Hle & _)
                       | (_ & _ & _ & _ & best & Hb & Hbg & _)].
    - assert (Hwb : In wb l) by (rewrite El; apply in_or_app; right; left; reflexivity).
      destruct (Hz wb (proj2 (list_elem_of_In _ _) Hwb)) as [_ Hg].
      rewrite Hg in Hle. discriminate.
    - destruct (Hz best (proj2 (list_elem_of_In _ _) Hb)) as [_ Hg].
      rewrite Hg in Hbg. discriminate. }
  rewrite Hfocus, Hscore, Haction. cbn [option_map]. f_equal.
  unfold generateRecommendation.
  change (Fin 0 >? Fin 70) with false. cbv iota.
  destruct (List.find (fun tb => String.eqb tb.(Tb.timeband) "NPT") l);
    rewrite ?andb_false_r.
  all: destruct (List.find (fun tb => String.eqb tb.(Tb.timeband) "CPT") l) as [c |] eqn:Ec;
    [| reflexivity].
  all: apply find_some in Ec as [Hc _]; rewrite Forall_forall in Hz;
    destruct (Hz c (proj2 (list_elem_of_In _ _) Hc)) as [_ ->]; reflexivity.
Qed.

(** The channel "Tiny", absent: neutral insights. *)
Lemma generateSimplifiedInsights_absent_witness :
  generateSimplifiedInsights zeroBandsChannel "UP" []
  = Ins.mk (Fin 0) (Fin 0) NONE None
           (Sentences (BalancedDistribution (Fin 0) (Fin 100 - Fin 0))
                      NoActionSentence MonitorMovements).
Proof.
  apply (generateSimplifiedInsights_absent
           (upChannel "Tiny" "GEC" 0.1 2 1 0.1
              [ upTimeband "NPT" 0.1 1 1; upTimeband "NCPT_EARLY" 0 1 1;
                upTimeband "CPT" 0 1 1; upTimeband "NCPT_LATE" 0 1 1 ])
           "UP" []
           [ upTimeband "NPT" 0.1 1 1; upTimeband "NCPT_EARLY" 0 1 1;
             upTimeband "CPT" 0 1 1; upTimeband "NCPT_LATE" 0 1 1 ]).
  - reflexivity.
  - discriminate.
Defined.

